(** * Cangjiehua: the Pleco dictionary builder (cangjie_to_pleco_pqb.py),
      the Unihan annotator (unihan_cangjie_pinger.py) and the Anki export
      filler (fill_anki_cangjie.py)

    A shallow embedding of the three programs and the proofs of their
    properties.

    Data representation.
    - A Python [str] is a sequence of Unicode code points: [str := list Z],
      [ord] is the identity and [len] is [length].
    - A [set] of codes is kept as the duplicate-free list of its members;
      Python iterates a set in an order of its own, so every statement that
      walks a set is proved for an arbitrary enumeration of it.
    - A [dict] is an association list in insertion order.
    - The sqlite store is a record of tables, each table the list of its
      rows in insertion order; [cur.execute] either returns the new store
      or raises.
    - [pypinyin.pinyin], [time.time] and [random.randint] are outside the
      repository: the transcription function is a section variable, the
      clock and the two random identifiers are arguments.
    - For the annotator, the cache table is the list of its rows, a page
      is the list of the events that [HTMLParser] reports for it, and the
      server is a section variable that answers a request, given the
      requests made before, by a page or by an exception; the requests
      made are part of the state.
    - For the filler, a file is the list of its lines as the file iterator
      yields them, and an [IndexError] is the result [None].
    - [str.lower] is a section variable. *)

From Stdlib Require Import String Ascii.
From Stdlib Require Import ZArith List Bool Lia.
From Stdlib Require Import Permutation Sorted.
From Stdlib Require DecimalString.
Import ListNotations.
Open Scope Z_scope.

Set Implicit Arguments.

(* ------------------------------------------------------------------ *)
(** ** Strings *)

Definition str := list Z.

(** An ASCII literal as a sequence of code points. *)
Definition lit (s : string) : str :=
  map (fun a => Z.of_N (N_of_ascii a)) (list_ascii_of_string s).

Fixpoint str_eqb (a b : str) : bool :=
  match a, b with
  | [], [] => true
  | x :: a', y :: b' => (x =? y) && str_eqb a' b'
  | _, _ => false
  end.

(** Python compares strings lexicographically by code point. *)
Fixpoint str_ltb (a b : str) : bool :=
  match a, b with
  | [], [] => false
  | [], _ :: _ => true
  | _ :: _, [] => false
  | x :: a', y :: b' => (x <? y) || ((x =? y) && str_ltb a' b')
  end.

Definition str_leb (a b : str) : bool := negb (str_ltb b a).

Definition str_lt (a b : str) : Prop := str_ltb a b = true.
Definition str_le (a b : str) : Prop := str_leb a b = true.

(** [sep.join(parts)] *)
Fixpoint join (sep : str) (parts : list str) : str :=
  match parts with
  | [] => []
  | [p] => p
  | p :: rest => p ++ sep ++ join sep rest
  end.

(** [s.lstrip(chars)], [s.rstrip(chars)], [s.strip(chars)] for a class of
    code points. *)
Fixpoint lstrip_by (f : Z -> bool) (s : str) : str :=
  match s with
  | [] => []
  | c :: r => if f c then lstrip_by f r else s
  end.

Definition rstrip_by (f : Z -> bool) (s : str) : str :=
  rev (lstrip_by f (rev s)).

Definition strip_by (f : Z -> bool) (s : str) : str :=
  rstrip_by f (lstrip_by f s).

(** [str.isspace] on one code point; the same class is [\s] of [re] on
    [str] patterns and what [strip()] removes. *)
Definition is_space (c : Z) : bool :=
  ((0x09 <=? c) && (c <=? 0x0D)) || ((0x1C <=? c) && (c <=? 0x20))
  || (c =? 0x85) || (c =? 0xA0) || (c =? 0x1680)
  || ((0x2000 <=? c) && (c <=? 0x200A))
  || (c =? 0x2028) || (c =? 0x2029) || (c =? 0x202F) || (c =? 0x205F)
  || (c =? 0x3000).

Definition strip (s : str) : str := strip_by is_space s.

(** Line boundaries of [str.splitlines]. *)
Definition is_linebreak (c : Z) : bool :=
  ((0x0A <=? c) && (c <=? 0x0D)) || ((0x1C <=? c) && (c <=? 0x1E))
  || (c =? 0x85) || (c =? 0x2028) || (c =? 0x2029).

(** [s.splitlines()]: [acc] is the current line, reversed.  A carriage
    return followed by a line feed is one boundary; a final boundary opens
    no further line. *)
Fixpoint splitlines_from (acc : str) (s : str) : list str :=
  match s with
  | [] => match acc with [] => [] | _ => [rev acc] end
  | c :: r =>
      if is_linebreak c then
        rev acc ::
          match r with
          | d :: r' => if (c =? 0x0D) && (d =? 0x0A)
                       then splitlines_from [] r'
                       else splitlines_from [] r
          | [] => splitlines_from [] r
          end
      else splitlines_from (c :: acc) r
  end.

Definition splitlines (s : str) : list str := splitlines_from [] s.

(** [re.split(p, s)] for a pattern [p] of the form [[class]+]: the pieces
    between the maximal runs of [sep] characters, the empty pieces before a
    leading run and after a trailing run included.  [acc] is the current
    piece, reversed; [insep] tells that the previous character belonged to
    a separator run. *)
Fixpoint re_split_from (sep : Z -> bool) (acc : str) (insep : bool) (s : str)
  : list str :=
  match s with
  | [] => [rev acc]
  | c :: r =>
      if sep c then
        if insep then re_split_from sep acc true r
        else rev acc :: re_split_from sep [] true r
      else re_split_from sep (c :: acc) false r
  end.

Definition re_split (sep : Z -> bool) (s : str) : list str :=
  re_split_from sep [] false s.

(** The tokens of a string: its maximal runs of non-separator characters
    (what "split on runs of separators" means, stated without the regular
    expression engine). *)
Fixpoint tokens_from (sep : Z -> bool) (acc : str) (s : str) : list str :=
  match s with
  | [] => match acc with [] => [] | _ => [rev acc] end
  | c :: r =>
      if sep c then
        match acc with
        | [] => tokens_from sep [] r
        | _ => rev acc :: tokens_from sep [] r
        end
      else tokens_from sep (c :: acc) r
  end.

Definition tokens (sep : Z -> bool) (s : str) : list str :=
  tokens_from sep [] s.

Definition nonempty (s : str) : bool :=
  match s with [] => false | _ => true end.

Definition startswith (p s : str) : bool :=
  str_eqb (firstn (length p) s) p.

(* ------------------------------------------------------------------ *)
(** ** Sets and dicts *)

Fixpoint mem (x : str) (l : list str) : bool :=
  match l with
  | [] => false
  | y :: r => str_eqb y x || mem x r
  end.

(** [s.add(x)] on the list of members. *)
Definition set_add (x : str) (s : list str) : list str :=
  if mem x s then s else s ++ [x].

(** [a | b] *)
Definition set_union (a b : list str) : list str :=
  fold_left (fun s x => set_add x s) b a.

(** [list(dict.fromkeys(l))]: the members of [l] in the order of their
    first occurrence. *)
Fixpoint fromkeys_from (seen : list str) (l : list str) : list str :=
  match l with
  | [] => []
  | x :: r => if mem x seen then fromkeys_from seen r
              else x :: fromkeys_from (x :: seen) r
  end.

Definition dict_fromkeys (l : list str) : list str := fromkeys_from [] l.

Section Dict.
Variable V : Type.

Definition dict := list (str * V).

Fixpoint dict_get (k : str) (d : dict) : option V :=
  match d with
  | [] => None
  | (k', v) :: r => if str_eqb k' k then Some v else dict_get k r
  end.

(** [d[k] = v]: an existing key keeps its place. *)
Fixpoint dict_set (k : str) (v : V) (d : dict) : dict :=
  match d with
  | [] => [(k, v)]
  | (k', v') :: r =>
      if str_eqb k' k then (k', v) :: r else (k', v') :: dict_set k v r
  end.

Definition dict_keys (d : dict) : list str := map fst d.
End Dict.

(** [sorted(l)] on strings: a stable insertion sort (any stable sort
    returns the same list). *)
Fixpoint insert_sorted (x : str) (l : list str) : list str :=
  match l with
  | [] => [x]
  | y :: r => if str_leb x y then x :: l else y :: insert_sorted x r
  end.

Definition sorted (l : list str) : list str := fold_right insert_sorted [] l.

Fixpoint codes_eqb (a b : list str) : bool :=
  match a, b with
  | [], [] => true
  | x :: a', y :: b' => str_eqb x y && codes_eqb a' b'
  | _, _ => false
  end.

(* ------------------------------------------------------------------ *)
(** ** Constants of the builder *)

Definition PLECO_NL : str := [0xEAB1].

(** Latin letter -> key shape, in the order of the source. *)
Definition LATIN_TO_SHAPE : list (Z * str) :=
  [ (97, [0x65E5]); (98, [0x6708]); (99, [0x91D1]); (100, [0x6728]);
    (101, [0x6C34]); (102, [0x706B]); (103, [0x571F]); (104, [0x7AF9]);
    (105, [0x6208]); (106, [0x5341]); (107, [0x5927]); (108, [0x4E2D]);
    (109, [0x4E00]); (110, [0x5F13]); (111, [0x4EBA]); (112, [0x5FC3]);
    (113, [0x624B]); (114, [0x53E3]); (115, [0x5C38]); (116, [0x5EFF]);
    (117, [0x5C71]); (118, [0x5973]); (119, [0x7530]); (120, [0x96E3]);
    (121, [0x535C]); (122, [0x91CD]) ].

Definition CJK_RANGES : list (Z * Z) :=
  [ (0x4E00, 0x9FFF); (0x3400, 0x4DBF); (0x20000, 0x2A6DF);
    (0x2A700, 0x2B73F); (0x2B740, 0x2B81D); (0x2B820, 0x2CEAD);
    (0x2CEB0, 0x2EBE0); (0x31350, 0x323AF); (0x2EBF0, 0x2EE5D);
    (0x323B0, 0x33479); (0x2F800, 0x2FA1F) ].

Definition EXTRA_ALLOWED : list Z := [0x3007].

Definition _FULLWIDTH_OFFSET : Z := 0xFEE0.

(* ------------------------------------------------------------------ *)
(** ** The code table loader *)

Definition in_ranges (cp : Z) : bool :=
  existsb (fun r => (fst r <=? cp) && (cp <=? snd r)) CJK_RANGES.

Fixpoint is_cjk_chars (word : str) : bool :=
  match word with
  | [] => true
  | cp :: r =>
      if existsb (Z.eqb cp) EXTRA_ALLOWED then is_cjk_chars r
      else if negb (in_ranges cp) then false
      else is_cjk_chars r
  end.

Definition is_cjk_word (word : str) : bool :=
  match word with
  | [] => false
  | _ => is_cjk_chars word
  end.

Definition table := dict (list str).

(** [cj.get(ch, set())] *)
Definition table_get (t : table) (ch : str) : list str :=
  match dict_get ch t with
  | Some s => s
  | None => []
  end.

(** [table.setdefault(char, set()).add(code)] *)
Fixpoint table_add (char code : str) (t : table) : table :=
  match t with
  | [] => [(char, set_add code [])]
  | (k, s) :: r =>
      if str_eqb k char then (k, set_add code s) :: r
      else (k, s) :: table_add char code r
  end.

(** The body of the loop of [load_cangjie_table] on one raw line: the
    pair [(char, code)] that is added to the table, or [None] when the
    line is passed over by one of the [continue]s. *)
Definition parse_line (raw : str) : option (str * str) :=
  let line := strip raw in
  if negb (nonempty line) || startswith (lit "#") line then None
  else
    let parts := re_split is_space line in
    if Nat.ltb (length parts) 2 then None
    else
      match parts with
      | p0 :: p1 :: _ =>
          let code := strip p0 in
          let char := strip p1 in
          if negb (nonempty code) || negb (nonempty char) then None
          else if negb (Nat.eqb (length char) 1) || negb (is_cjk_word char)
               then None
               else Some (char, code)
      | _ => None
      end.

Definition load_step (t : table) (raw : str) : table :=
  match parse_line raw with
  | Some (char, code) => table_add char code t
  | None => t
  end.

(** [load_cangjie_table] on the decoded text of the file. *)
Definition load_cangjie_table (text : str) : table :=
  fold_left load_step (splitlines (lstrip_by (Z.eqb 0xFEFF) text)) [].

(* ------------------------------------------------------------------ *)
(** ** Transliteration and sections *)

Fixpoint shape_get (ch : Z) (m : list (Z * str)) : str :=
  match m with
  | [] => [ch]
  | (k, v) :: r => if k =? ch then v else shape_get ch r
  end.

Definition latin_code_to_shapes (code : str) : str :=
  concat (map (fun ch => shape_get ch LATIN_TO_SHAPE) code).

Definition format_section (label : str) (codes : list str) : str :=
  let codes := dict_fromkeys codes in
  let shapes := map latin_code_to_shapes codes in
  label ++ lit ":" ++ PLECO_NL
        ++ join (lit " / ") shapes ++ PLECO_NL
        ++ join (lit " / ") codes.

(* ------------------------------------------------------------------ *)
(** ** Sort keys and pronunciation tokens *)

Definition to_fullwidth_ascii (s : str) : str :=
  map (fun o => if (0x21 <=? o) && (o <=? 0x7E)
                then o + _FULLWIDTH_OFFSET else o) s.

(** [syl.replace("ü", "v")] *)
Definition replace_u_umlaut (syl : str) : str :=
  map (fun c => if c =? 0xFC then 0x76 else c) syl.

Definition first_or_empty (l : list str) : str :=
  match l with
  | [] => []
  | s :: _ => s
  end.

Definition make_sortkey (py_syllables : list str) (word : str) : str :=
  if Nat.eqb (length word) 1
  then to_fullwidth_ascii (first_or_empty py_syllables) ++ word
  else concat (map (fun cs => to_fullwidth_ascii (snd cs) ++ [fst cs])
                   (combine word py_syllables)).

(** [x or y] on strings *)
Definition str_or (x y : str) : str :=
  match x with
  | [] => y
  | _ => x
  end.

(** The class [[\s@]] *)
Definition is_space_or_at (c : Z) : bool := is_space c || (c =? 0x40).

Definition split_pron_tokens (pron : str) : list str :=
  filter nonempty (re_split is_space_or_at (strip pron)).

(* ------------------------------------------------------------------ *)
(** ** The store *)

Inductive exn : Type :=
| IntegrityError (msg : str)
| OperationalError (msg : str)
| KeyError (key : str)
| SystemExit (msg : str).

Inductive result (A : Type) : Type :=
| Ok (a : A)
| Raise (e : exn).

Arguments Ok {A} a.
Arguments Raise {A} e.

Definition bind {A B : Type} (m : result A) (k : A -> result B) : result B :=
  match m with
  | Ok a => k a
  | Raise e => Raise e
  end.

Notation "x <- m ;; k" := (bind m (fun x => k))
  (at level 61, m at next level, right associativity).

(** [for x in l: s = f(x, s)], leaving the loop at the first exception. *)
Fixpoint for_each {A S : Type} (f : A -> S -> result S) (l : list A) (s : S)
  : result S :=
  match l with
  | [] => Ok s
  | x :: r => s' <- f x s ;; for_each f r s'
  end.

(** [enumerate(l, start)] *)
Definition enumerate {A : Type} (l : list A) (start : nat) : list (nat * A) :=
  combine (seq start (length l)) l.

Record entry_row : Type := mkEntry {
  e_uid : Z;
  e_created : Z;
  e_modified : Z;
  e_length : Z;
  e_word : str;
  e_altword : option str;
  e_pron : str;
  e_defn : str;
  e_sortkey : str
}.

Record import_row : Type := mkImport {
  i_id : Z;
  i_starttime : Z;
  i_endtime : Z;
  i_startentry : Z;
  i_endentry : Z
}.

Record prop_row : Type := mkProp {
  propset : Z;
  propid : str;
  propvalue : str;
  propisstring : Z
}.

Record posdex_row : Type := mkPosdex {
  px_syllable : str;
  px_uid : Z;
  px_length : Z
}.

(** The four tables [pleco_dict_posdex_<family>_1 .. _4] of one family. *)
Record posdex_family : Type := mkFamily {
  pos_1 : list posdex_row;
  pos_2 : list posdex_row;
  pos_3 : list posdex_row;
  pos_4 : list posdex_row
}.

(** The tables of [SCHEMA_SQL]. *)
Record db : Type := mkDb {
  pleco_dict_entries : list entry_row;
  pleco_dict_imports : list import_row;
  pleco_dict_properties : list prop_row;
  posdex_hz : posdex_family;
  posdex_py : posdex_family
}.

Definition empty_family : posdex_family := mkFamily [] [] [] [].

(** The store right after [SCHEMA_SQL] and [INDEX_SQL]: every table
    exists and is empty. *)
Definition schema_db : db := mkDb [] [] [] empty_family empty_family.

(** [INSERT INTO pleco_dict_entries ...]: [uid] is the primary key and
    [sortkey] is declared [UNIQUE] (binary collation); a plain [INSERT]
    that breaks either raises [sqlite3.IntegrityError]. *)
Definition insert_entry (row : entry_row) (d : db) : result db :=
  if existsb (fun r => e_uid r =? e_uid row) (pleco_dict_entries d)
  then Raise (IntegrityError
                (lit "UNIQUE constraint failed: pleco_dict_entries.uid"))
  else if existsb (fun r => str_eqb (e_sortkey r) (e_sortkey row))
                  (pleco_dict_entries d)
  then Raise (IntegrityError
                (lit "UNIQUE constraint failed: pleco_dict_entries.sortkey"))
  else Ok (mkDb (pleco_dict_entries d ++ [row]) (pleco_dict_imports d)
                (pleco_dict_properties d) (posdex_hz d) (posdex_py d)).

(** [INSERT INTO pleco_dict_posdex_<family>_<i> ...] *)
Definition family_insert (i : nat) (row : posdex_row) (f : posdex_family)
  : result posdex_family :=
  match i with
  | 1%nat => Ok (mkFamily (pos_1 f ++ [row]) (pos_2 f) (pos_3 f) (pos_4 f))
  | 2%nat => Ok (mkFamily (pos_1 f) (pos_2 f ++ [row]) (pos_3 f) (pos_4 f))
  | 3%nat => Ok (mkFamily (pos_1 f) (pos_2 f) (pos_3 f ++ [row]) (pos_4 f))
  | 4%nat => Ok (mkFamily (pos_1 f) (pos_2 f) (pos_3 f) (pos_4 f ++ [row]))
  | _ => Raise (OperationalError (lit "no such table"))
  end.

Definition insert_hz (i : nat) (row : posdex_row) (d : db) : result db :=
  f <- family_insert i row (posdex_hz d) ;;
  Ok (mkDb (pleco_dict_entries d) (pleco_dict_imports d)
           (pleco_dict_properties d) f (posdex_py d)).

Definition insert_py (i : nat) (row : posdex_row) (d : db) : result db :=
  f <- family_insert i row (posdex_py d) ;;
  Ok (mkDb (pleco_dict_entries d) (pleco_dict_imports d)
           (pleco_dict_properties d) (posdex_hz d) f).

(** [INSERT OR REPLACE INTO pleco_dict_properties ...]: a row with the
    same [(propset, propid)] is deleted first. *)
Definition replace_property (row : prop_row) (d : db) : db :=
  mkDb (pleco_dict_entries d) (pleco_dict_imports d)
       (filter (fun r => negb ((propset r =? propset row)
                               && str_eqb (propid r) (propid row)))
               (pleco_dict_properties d) ++ [row])
       (posdex_hz d) (posdex_py d).

(** [INSERT INTO pleco_dict_imports ...]; [id] is auto-incremented. *)
Definition insert_import (starttime endtime startentry endentry : Z) (d : db)
  : db :=
  mkDb (pleco_dict_entries d)
       (pleco_dict_imports d
          ++ [mkImport (Z.of_nat (length (pleco_dict_imports d)) + 1)
                       starttime endtime startentry endentry])
       (pleco_dict_properties d) (posdex_hz d) (posdex_py d).

(** [str(n)] on an integer. *)
Definition str_of_int (n : Z) : str :=
  lit (DecimalString.NilZero.string_of_int (Z.to_int n)).

Definition write_properties (dict_name menu_name short_name icon : str)
    (entry_count now file_id file_creator : Z) (d : db) : db :=
  let props : list (str * str * Z) :=
    [ (lit "DictIconFillColor", lit "39372", 0);
      (lit "DictIconName", icon, 1);
      (lit "DictIconTextColor", lit "16777215", 0);
      (lit "DictLang", lit "Chinese", 1);
      (lit "DictMenuName", menu_name, 1);
      (lit "DictName", dict_name, 1);
      (lit "DictShortName", short_name, 1);
      (lit "EntryCount", str_of_int entry_count, 0);
      (lit "FileCreated", str_of_int now, 0);
      (lit "FileCreator", str_of_int file_creator, 0);
      (lit "FileGenerator", lit "Pleco Engine 2.0", 1);
      (lit "FileID", str_of_int file_id, 0);
      (lit "FilePlatform", lit "Android", 1);
      (lit "FormatString", lit "Pleco SQL Dictionary Database", 1);
      (lit "FormatVersion", lit "8", 0);
      (lit "TransLang", lit "English", 1) ] in
  fold_left (fun d p => replace_property
                          (mkProp 0 (fst (fst p)) (snd (fst p)) (snd p)) d)
            props d.

Definition insert_posdex (uid : Z) (word pron : str) (d : db) : result db :=
  let wlen := Z.of_nat (length word) in
  d1 <- for_each (fun ic => insert_hz (fst ic) (mkPosdex [snd ic] uid wlen))
                 (enumerate (firstn 4 word) 1) d ;;
  let py_tokens := split_pron_tokens pron in
  for_each (fun isyl => insert_py (fst isyl) (mkPosdex (snd isyl) uid wlen))
           (enumerate (firstn 4 py_tokens) 1) d1.

(** [if out.exists(): out.unlink()] *)
Definition unlink_if_exists (fs : option db) : option db :=
  match fs with
  | Some _ => None
  | None => None
  end.

(** [sqlite3.connect(str(out))], the pragmas, [SCHEMA_SQL] and
    [INDEX_SQL]: sqlite creates the file when there is none, and runs
    these statements outside any transaction, so the file then holds every
    table, empty.  On a store that has the tables already, [CREATE TABLE]
    raises. *)
Definition connect_and_create (fs : option db) : result db :=
  match fs with
  | None => Ok schema_db
  | Some _ =>
      Raise (OperationalError
               (lit "table 'pleco_dict_entries' already exists"))
  end.

(* ------------------------------------------------------------------ *)
(** ** The builder *)

Section Builder.

(** [pypinyin.pinyin(word, style=Style.TONE3, heteronym=False,
    errors=lambda _: [""])]: one item per transcribed unit, each item a
    list of readings. *)
Variable pypinyin_pinyin : str -> list (list str).

(** The order in which Python walks a set, given its members in the
    order they were added. *)
Variable iter_set : list str -> list str.

Definition mandarin_pinyin_tone3 (word : str) : list str :=
  map (fun item => replace_u_umlaut (first_or_empty item))
      (pypinyin_pinyin word).

(** The body of the loop of [build_pqb]; the state is the store of the
    open transaction and the next [uid]. *)
Definition build_entry (entries : dict str) (now : Z) (ch : str)
    (st : db * Z) : result (db * Z) :=
  let d := fst st in
  let uid := snd st in
  match dict_get ch entries with
  | None => Raise (KeyError ch)
  | Some defn =>
      let py := mandarin_pinyin_tone3 ch in
      let pron := join (lit " ") py in
      let sk := str_or (make_sortkey py ch) ch in
      d1 <- insert_entry (mkEntry uid now now 1 ch None pron defn sk) d ;;
      d2 <- insert_posdex uid ch pron d1 ;;
      Ok (d2, uid + 1)
  end.

(** Everything [build_pqb] writes between the schema and the commit. *)
Definition build_rows (entries : dict str)
    (dict_name menu_name short_name icon : str)
    (now file_id file_creator : Z) (d : db) : result db :=
  st <- for_each (build_entry entries now)
                 (sorted (dict_keys entries)) (d, 1) ;;
  let count := snd st - 1 in
  let d1 := write_properties dict_name menu_name short_name icon
                             count now file_id file_creator (fst st) in
  Ok (insert_import now now 1 count d1).

(** [build_pqb].  [fs] is what the file system holds at [out_path]
    ([None]: no file); the result pairs the outcome with what it holds
    afterwards.  The inserts open a transaction that only [con.commit()]
    makes durable, so an exception before it leaves the file as the schema
    statements left it. *)
Definition build_pqb (fs : option db) (entries : dict str)
    (dict_name menu_name short_name icon : str)
    (now file_id file_creator : Z) : result unit * option db :=
  let fs0 := unlink_if_exists fs in
  match connect_and_create fs0 with
  | Raise e => (Raise e, fs0)
  | Ok committed =>
      match build_rows entries dict_name menu_name short_name icon
                       now file_id file_creator committed with
      | Ok working => (Ok tt, Some working)
      | Raise e => (Raise e, Some committed)
      end
  end.

(** The body of the loop of [main] over [all_chars]. *)
Definition compose_step (cj3 cj5 : table) (entries : dict str) (ch : str)
  : dict str :=
  let codes3 := sorted (iter_set (table_get cj3 ch)) in
  let codes5 := sorted (iter_set (table_get cj5 ch)) in
  match codes3, codes5 with
  | [], [] => entries
  | _, _ =>
      if codes_eqb codes3 codes5
      then dict_set ch (format_section (lit "Cangjie") codes3) entries
      else
        let parts :=
          (match codes3 with
           | [] => []
           | _ => [format_section (lit "Cangjie3") codes3]
           end)
          ++ (match codes5 with
              | [] => []
              | _ => [format_section (lit "Cangjie5") codes5]
              end) in
        dict_set ch (join (PLECO_NL ++ PLECO_NL) parts) entries
  end.

Definition compose_entries (cj3 cj5 : table) : dict str :=
  let all_chars := set_union (dict_keys cj3) (dict_keys cj5) in
  fold_left (compose_step cj3 cj5) (iter_set all_chars) [].

Definition no_entries_message : str :=
  lit "No entries found " ++ [0x2014]
      ++ lit " check input file formats/paths.".

(** [main], on the decoded texts of the two input files. *)
Definition main (fs : option db) (text3 text5 : str)
    (dict_name menu_name short_name icon : str)
    (now file_id file_creator : Z) : result unit * option db :=
  let cj3 := load_cangjie_table text3 in
  let cj5 := load_cangjie_table text5 in
  let entries := compose_entries cj3 cj5 in
  match entries with
  | [] => (Raise (SystemExit no_entries_message), fs)
  | _ => build_pqb fs entries dict_name menu_name short_name icon
                   now file_id file_creator
  end.

End Builder.

(** The exit status of the interpreter: an exception that reaches the top
    level, [SystemExit] with a message included, ends the process with
    status 1. *)
Definition exit_status (r : result unit) : Z :=
  match r with
  | Ok _ => 0
  | Raise _ => 1
  end.

(* ------------------------------------------------------------------ *)
(** ** Reference definitions

    The documented behaviour, written without the code's loops; the
    properties below compare the builder with them. *)

(** The table [pleco_dict_posdex_<family>_<i>]. *)
Definition family_table (i : nat) (f : posdex_family) : list posdex_row :=
  match i with
  | 1%nat => pos_1 f
  | 2%nat => pos_2 f
  | 3%nat => pos_3 f
  | 4%nat => pos_4 f
  | _ => []
  end.

Definition family_size (f : posdex_family) : nat :=
  (length (pos_1 f) + length (pos_2 f) + length (pos_3 f)
   + length (pos_4 f))%nat.

(** The index rows of an entry that belong to position [i] (from 1): the
    [i]-th of the first four units, with the entry's [uid] and length. *)
Definition position_rows (units : list str) (uid wlen : Z) (i : nat)
  : list posdex_row :=
  match i with
  | O => []
  | S j =>
      match nth_error (firstn 4 units) j with
      | Some u => [mkPosdex u uid wlen]
      | None => []
      end
  end.

(** The code points of a string, each as a one-character string. *)
Definition characters (word : str) : list str := map (fun c => [c]) word.

(** The full-width form of one code point: the printable ASCII range
    [0x21 .. 0x7E] is shifted by [0xFEE0], everything else is kept. *)
Definition fullwidth_char (c : Z) : Z :=
  if (0x21 <=? c) && (c <=? 0x7E) then c + 0xFEE0 else c.

(** The order of the code points, on one-character strings. *)
Definition codepoint_lt (a b : str) : Prop :=
  exists x y, a = [x] /\ b = [y] /\ x < y.

(** The code points a table may hold: the eleven ranges of [CJK_RANGES]
    and U+3007. *)
Definition permitted (c : Z) : Prop :=
  c = 0x3007 \/ exists lo hi, In (lo, hi) CJK_RANGES /\ lo <= c <= hi.

(** A line of a table file that contributes [code] for [char]: stripped,
    it is not empty, does not begin with ['#'], and its white-space
    separated tokens begin with [code] and then [char], one permitted
    code point. *)
Definition line_accepted (raw char code : str) : Prop :=
  let line := strip raw in
  line <> [] /\
  hd_error line <> Some 0x23 /\
  exists c rest,
    tokens is_space line = code :: [c] :: rest /\ char = [c] /\ permitted c.

(** The lines of a table file, after the byte-order marks at its head. *)
Definition file_lines (text : str) : list str :=
  splitlines (lstrip_by (Z.eqb 0xFEFF) text).

(** The codes a file gives for [ch], in the order of its lines. *)
Definition file_codes (text : str) (ch : str) : list str :=
  flat_map (fun raw =>
              match parse_line raw with
              | Some (c, code) => if str_eqb c ch then [code] else []
              | None => []
              end)
           (file_lines text).

(** What the loader guarantees of a table. *)
Definition table_ok (t : table) : Prop :=
  NoDup (dict_keys t) /\
  Forall (fun kv => length (fst kv) = 1%nat /\ snd kv <> [] /\ NoDup (snd kv))
         t.

(** Transliteration of a code: a lower-case Latin letter becomes its key
    shape, the entry of [LATIN_TO_SHAPE] at the letter's rank; any other
    character stays. *)
Definition is_lower (c : Z) : bool := (97 <=? c) && (c <=? 122).

Definition display_glyph (c : Z) : str :=
  nth (Z.to_nat (c - 97)) (map snd LATIN_TO_SHAPE) [c].

Definition transliterate (code : str) : str :=
  flat_map (fun c => if is_lower c then display_glyph c else [c]) code.

(** A section: three lines joined by the sentinel. *)
Definition section_text (label : str) (codes : list str) : str :=
  join PLECO_NL
       [ label ++ lit ":";
         join (lit " / ") (map transliterate codes);
         join (lit " / ") codes ].

Definition has_codes (codes : list str) : bool :=
  match codes with
  | [] => false
  | _ => true
  end.

(** The definition of a character from the code lists of the two
    systems. *)
Definition definition_text (codes3 codes5 : list str) : str :=
  if has_codes codes3 && has_codes codes5 && codes_eqb codes3 codes5
  then section_text (lit "Cangjie") codes3
  else
    join (PLECO_NL ++ PLECO_NL)
         ((if has_codes codes3
           then [section_text (lit "Cangjie3") codes3] else [])
          ++ (if has_codes codes5
              then [section_text (lit "Cangjie5") codes5] else [])).

(** What the loop of [main] stores for [ch], if anything. *)
Definition composed (iter_set : list str -> list str) (cj3 cj5 : table)
    (ch : str) : option str :=
  let codes3 := sorted (iter_set (table_get cj3 ch)) in
  let codes5 := sorted (iter_set (table_get cj5 ch)) in
  if has_codes codes3 || has_codes codes5
  then Some (definition_text codes3 codes5)
  else None.

(** A family after the index rows of one entry have been added. *)
Definition family_append (units : list str) (uid wlen : Z)
    (f : posdex_family) : posdex_family :=
  mkFamily (pos_1 f ++ position_rows units uid wlen 1)
           (pos_2 f ++ position_rows units uid wlen 2)
           (pos_3 f ++ position_rows units uid wlen 3)
           (pos_4 f ++ position_rows units uid wlen 4).

(** The store after the index rows of one entry have been added. *)
Definition with_posdex (uid : Z) (word pron : str) (d : db) : db :=
  mkDb (pleco_dict_entries d) (pleco_dict_imports d)
       (pleco_dict_properties d)
       (family_append (characters word) uid (Z.of_nat (length word))
                      (posdex_hz d))
       (family_append (tokens is_space_or_at pron) uid
                      (Z.of_nat (length word)) (posdex_py d)).

Section BuildReference.
Variable pypinyin_pinyin : str -> list (list str).

(** The [pron] and [sortkey] columns of the entry of [ch]. *)
Definition pron_of (ch : str) : str :=
  join (lit " ") (mandarin_pinyin_tone3 pypinyin_pinyin ch).

Definition sortkey_of (ch : str) : str :=
  str_or (make_sortkey (mandarin_pinyin_tone3 pypinyin_pinyin ch) ch) ch.

Definition defn_of (entries : dict str) (ch : str) : str :=
  match dict_get ch entries with
  | Some defn => defn
  | None => []
  end.

(** The entry rows of the words [keys], numbered from [uid]. *)
Fixpoint entry_rows (entries : dict str) (now uid : Z) (keys : list str)
  : list entry_row :=
  match keys with
  | [] => []
  | ch :: rest =>
      mkEntry uid now now 1 ch None (pron_of ch) (defn_of entries ch)
              (sortkey_of ch)
      :: entry_rows entries now (uid + 1) rest
  end.

(** The rows of the hz and py tables of position [i] for the words
    [keys], numbered from [uid]. *)
Fixpoint hz_rows (i : nat) (uid : Z) (keys : list str) : list posdex_row :=
  match keys with
  | [] => []
  | ch :: rest =>
      position_rows (characters ch) uid (Z.of_nat (length ch)) i
      ++ hz_rows i (uid + 1) rest
  end.

Fixpoint py_rows (i : nat) (uid : Z) (keys : list str) : list posdex_row :=
  match keys with
  | [] => []
  | ch :: rest =>
      position_rows (tokens is_space_or_at (pron_of ch)) uid
                    (Z.of_nat (length ch)) i
      ++ py_rows i (uid + 1) rest
  end.
End BuildReference.

(** [uid, uid + 1, ..., uid + n - 1] *)
Fixpoint uid_range (uid : Z) (n : nat) : list Z :=
  match n with
  | O => []
  | S m => uid :: uid_range (uid + 1) m
  end.

(** The rows [write_properties] writes, in the order of the source. *)
Definition property_rows (dict_name menu_name short_name icon : str)
    (entry_count now file_id file_creator : Z) : list prop_row :=
  [ mkProp 0 (lit "DictIconFillColor") (lit "39372") 0;
    mkProp 0 (lit "DictIconName") icon 1;
    mkProp 0 (lit "DictIconTextColor") (lit "16777215") 0;
    mkProp 0 (lit "DictLang") (lit "Chinese") 1;
    mkProp 0 (lit "DictMenuName") menu_name 1;
    mkProp 0 (lit "DictName") dict_name 1;
    mkProp 0 (lit "DictShortName") short_name 1;
    mkProp 0 (lit "EntryCount") (str_of_int entry_count) 0;
    mkProp 0 (lit "FileCreated") (str_of_int now) 0;
    mkProp 0 (lit "FileCreator") (str_of_int file_creator) 0;
    mkProp 0 (lit "FileGenerator") (lit "Pleco Engine 2.0") 1;
    mkProp 0 (lit "FileID") (str_of_int file_id) 0;
    mkProp 0 (lit "FilePlatform") (lit "Android") 1;
    mkProp 0 (lit "FormatString") (lit "Pleco SQL Dictionary Database") 1;
    mkProp 0 (lit "FormatVersion") (lit "8") 0;
    mkProp 0 (lit "TransLang") (lit "English") 1 ].

(** A property row that [write_properties] replaces: one of property set
    0 with one of the sixteen identifiers. *)
Definition is_written_property (r : prop_row) : bool :=
  (propset r =? 0)
  && mem (propid r) (map propid (property_rows [] [] [] [] 0 0 0 0)).

(* ------------------------------------------------------------------ *)
(** ** The Unihan annotator (unihan_cangjie_pinger.py)

    The HTTP request and the tokenizer of [html.parser] are outside the
    repository: [http_events] gives, for the requests made so far and a
    character, the events the tokenizer feeds to the parser for the page,
    or the exception of the request.  [str.lower] is a parameter as well.
    What [--verbose] prints is left out. *)

Module Unihan.

Definition PROMPT_MAP : list (Z * str) := LATIN_TO_SHAPE.

(** The character class of [HAN_RE]. *)
Definition HAN_RANGES : list (Z * Z) :=
  [ (0x3400, 0x4DBF); (0x4E00, 0x9FFF); (0xF900, 0xFAFF);
    (0x20000, 0x2A6DF); (0x2A700, 0x2B73F);
    (0x2B740, 0x2B81D); (0x2B820, 0x2CEAD);
    (0x2CEB0, 0x2EBE0); (0x31350, 0x323AF);
    (0x2EBF0, 0x2EE5D); (0x323B0, 0x33479);
    (0x2F800, 0x2FA1F) ].

Definition is_han (c : Z) : bool :=
  existsb (fun r => (fst r <=? c) && (c <=? snd r)) HAN_RANGES.

(** [HAN_RE.findall(text)]: the pattern matches one character. *)
Definition han_findall (text : str) : list str :=
  map (fun c => [c]) (filter is_han text).

(** The rows [(char, kcangjie)] of the table [unihan]; [kcangjie] may be
    [NULL]. *)
Definition cache_rows := list (str * option str).

Definition cache_get (conn : cache_rows) (ch : str) : option str :=
  match find (fun row => str_eqb (fst row) ch) conn with
  | Some row => snd row
  | None => None
  end.

(** [INSERT OR REPLACE INTO unihan ...]: [char] is the primary key. *)
Definition cache_put (conn : cache_rows) (ch kc : str) : cache_rows :=
  filter (fun row => negb (str_eqb (fst row) ch)) conn ++ [(ch, Some kc)].

Record parser : Type := mkParser {
  in_tr : bool;
  in_td : bool;
  current_cell : list str;
  row_cells : list str;
  data : dict str
}.

(** [UnihanTableParser()] *)
Definition new_parser : parser := mkParser false false [] [] [].

Inductive event : Type :=
| StartTag (tag : str)
| EndTag (tag : str)
| Data (text : str).

(** [" ".join(s.strip().split())] *)
Definition squash (s : str) : str :=
  join (lit " ") (tokens is_space (strip s)).

Section Annotator.
Variable str_lower : str -> str.
Variable http_events : list str -> str -> result (list event).

Definition handle_starttag (tag : str) (p : parser) : parser :=
  let t := str_lower tag in
  if str_eqb t (lit "tr")
  then mkParser true (in_td p) (current_cell p) [] (data p)
  else if str_eqb t (lit "td") && in_tr p
  then mkParser (in_tr p) true [] (row_cells p) (data p)
  else p.

Definition handle_endtag (tag : str) (p : parser) : parser :=
  let t := str_lower tag in
  if str_eqb t (lit "td") && in_tr p && in_td p
  then
    let cell_text := squash (concat (current_cell p)) in
    mkParser (in_tr p) false (current_cell p) (row_cells p ++ [cell_text])
             (data p)
  else if str_eqb t (lit "tr") && in_tr p
  then
    let p1 := mkParser false (in_td p) (current_cell p) (row_cells p)
                       (data p) in
    match row_cells p with
    | key :: val :: _ =>
        if nonempty key && nonempty val
           && negb (mem key (dict_keys (data p)))
        then mkParser false (in_td p) (current_cell p) (row_cells p)
                      (dict_set key val (data p))
        else p1
    | _ => p1
    end
  else p.

Definition handle_data (text : str) (p : parser) : parser :=
  if in_tr p && in_td p
  then mkParser (in_tr p) (in_td p) (current_cell p ++ [text]) (row_cells p)
                (data p)
  else p.

Definition handle (e : event) (p : parser) : parser :=
  match e with
  | StartTag tag => handle_starttag tag p
  | EndTag tag => handle_endtag tag p
  | Data text => handle_data text p
  end.

(** [p.feed(r.text)] *)
Definition feed (events : list event) (p : parser) : parser :=
  fold_left (fun p e => handle e p) events p.

(** The state of the world: the cache table and the requests made. *)
Record world : Type := mkWorld {
  cache : cache_rows;
  requests : list str
}.

(** [fetch_unihan_field(ch, field, session)], after the request. *)
Definition fetch_unihan_field (ch field : str) (w : world) : result str :=
  events <- http_events (requests w) ch ;;
  let p := feed events new_parser in
  Ok (match dict_get field (data p) with
      | Some v => v
      | None => []
      end).

Definition get_kcangjie (ch : str) (refresh_empty : bool) (w : world)
  : str * world :=
  let fetch_it :=
    let kc := match fetch_unihan_field ch (lit "kCangjie") w with
              | Ok v => v
              | Raise _ => []
              end in
    (kc, mkWorld (cache_put (cache w) ch kc) (requests w ++ [ch])) in
  match cache_get (cache w) ch with
  | Some cached =>
      if negb (refresh_empty && str_eqb cached [])
      then (cached, w)
      else fetch_it
  | None => fetch_it
  end.

Definition prompt_get (key default : str) : str :=
  match key with
  | [k] =>
      match find (fun kv => fst kv =? k) PROMPT_MAP with
      | Some kv => snd kv
      | None => default
      end
  | _ => default
  end.

Definition render (code mode : str) : str :=
  if negb (nonempty code) then []
  else if str_eqb mode (lit "latin") then str_lower code
  else
    let prompts :=
      concat (map (fun c => prompt_get (str_lower [c]) [c]) code) in
    if str_eqb mode (lit "prompts") then prompts
    else str_lower code ++ lit " (" ++ prompts ++ lit ")".

(** The loop of [annotate_text]: the list [out] and the world. *)
Fixpoint annotate_loop (chars : list str) (mode : str) (out : list str)
    (w : world) : list str * world :=
  match chars with
  | [] => (out, w)
  | ch :: rest =>
      let (kc, w1) := get_kcangjie ch false w in
      if nonempty kc
      then annotate_loop rest mode (out ++ [render kc mode]) w1
      else annotate_loop rest mode out w1
  end.

Definition annotate_text (text mode : str) (w : world) : str * world :=
  let (out, w1) := annotate_loop (han_findall text) mode [] w in
  (join (lit " ") out, w1).

(** The loop of the paste mode of [main] over the lines of the input
    file; [out] collects what is written to the output file. *)
Fixpoint paste_loop (stop_after : Z) (mode : str) (lines : list str)
    (empty_run : Z) (out : list str) (w : world) : list str * world :=
  match lines with
  | [] => (out, w)
  | line :: rest =>
      let raw := rstrip_by (Z.eqb 0x0A) line in
      if negb (nonempty (strip raw))
      then
        let empty_run := empty_run + 1 in
        let out := out ++ [[0x0A]] in
        if stop_after <=? empty_run then (out, w)
        else paste_loop stop_after mode rest empty_run out w
      else
        let (text, w1) := annotate_text raw mode w in
        paste_loop stop_after mode rest 0 (out ++ [text ++ [0x0A]]) w1
  end.

End Annotator.

End Unihan.

(** A character without a value in the cache. *)
Definition uncached (conn : Unihan.cache_rows) (ch : str) : bool :=
  match Unihan.cache_get conn ch with
  | Some _ => false
  | None => true
  end.

(** A line of the paste input that counts as empty. *)
Definition blank_line (line : str) : bool :=
  negb (nonempty (strip (rstrip_by (Z.eqb 0x0A) line))).



(* ------------------------------------------------------------------ *)
(** ** The Anki export filler ([fill_anki_cangjie.py]) *)

(** [l[k] = v] at a position inside the list. *)
Fixpoint list_update (k : nat) (v : str) (l : list str) : list str :=
  match l, k with
  | [], _ => []
  | _ :: r, O => v :: r
  | x :: r, S k' => x :: list_update k' v r
  end.

Module FillAnki.

(** The character class of [HAN_RE] of this file. *)
Definition HAN_RANGES : list (Z * Z) :=
  [ (0x3400, 0x4DBF); (0x4E00, 0x9FFF);
    (0x20000, 0x2A6DF);
    (0x2A700, 0x2B73F);
    (0x2B740, 0x2B81D);
    (0x2B820, 0x2CEAD);
    (0x2CEB0, 0x2EBE0);
    (0x31350, 0x323AF);
    (0x2EBF0, 0x2EE5D);
    (0x323B0, 0x33479);
    (0x2F800, 0x2FA1F) ].

Definition is_han (c : Z) : bool :=
  existsb (fun r => (fst r <=? c) && (c <=? snd r)) HAN_RANGES.

(** [HAN_RE.findall(text)] *)
Definition han_findall (text : str) : list str :=
  map (fun c => [c]) (filter is_han text).

Definition PROMPT_MAP : list (Z * str) :=
  [ (97, [0x65E5]); (98, [0x6708]); (99, [0x91D1]); (100, [0x6728]);
    (101, [0x6C34]); (102, [0x706B]); (103, [0x571F]); (104, [0x7AF9]);
    (105, [0x6208]); (106, [0x5341]); (107, [0x5927]); (108, [0x4E2D]);
    (109, [0x4E00]); (110, [0x5F13]); (111, [0x4EBA]); (112, [0x5FC3]);
    (113, [0x624B]); (114, [0x53E3]); (115, [0x5C38]); (116, [0x5EFF]);
    (117, [0x5C71]); (118, [0x5973]); (119, [0x7530]); (120, [0x96E3]);
    (121, [0x535C]); (122, [0x91CD]) ].

(** [s.split(sep)] for a separator of one character: the pieces between
    the separators, the empty ones included.  [acc] is the current piece,
    reversed. *)
Fixpoint split_from (d : Z) (acc : str) (s : str) : list str :=
  match s with
  | [] => [rev acc]
  | c :: r =>
      if c =? d then rev acc :: split_from d [] r
      else split_from d (c :: acc) r
  end.

Definition split_tab (s : str) : list str := split_from 0x09 [] s.

Section Loader.
Variable str_lower : str -> str.

(** The loop of [load_cangjie_table] over the lines of the file, with
    the flag [in_table] and the mapping built so far.  The lists of codes
    are kept in the order of insertion, a code already in the list is not
    appended again: what [table_add] does. *)
Fixpoint load_loop (lines : list str) (in_table : bool) (mapping : table)
  : table :=
  match lines with
  | [] => mapping
  | raw :: rest =>
      let line := strip raw in
      if str_eqb line (lit "BEGIN_TABLE") then load_loop rest true mapping
      else if str_eqb line (lit "END_TABLE") then mapping
      else if negb in_table || negb (nonempty line)
              || startswith (lit "#") line
      then load_loop rest in_table mapping
      else
        match split_tab line with
        | p0 :: p1 :: _ =>
            let code := str_lower (strip p0) in
            let ch := strip p1 in
            if negb (Nat.eqb (length ch) 1) || negb (nonempty code)
            then load_loop rest in_table mapping
            else load_loop rest in_table (table_add ch code mapping)
        | _ => load_loop rest in_table mapping
        end
  end.

(** [load_cangjie_table(path)] on the lines of the file. *)
Definition load_cangjie_table (lines : list str) : table :=
  load_loop lines false [].

End Loader.

Definition code_to_prompts (code : str) : str :=
  concat (map (fun c => shape_get c PROMPT_MAP) code).

Definition format_codes (codes : list str) (output : str) : str :=
  if str_eqb output (lit "prompts")
  then join (lit "/") (map code_to_prompts codes)
  else join (lit "/") codes.

(** The body of the loop of [cangjie_for_text]. *)
Definition cangjie_step (t : table) (output : str) (out : list str)
    (han : str) : list str :=
  match dict_get han t with
  | Some (c :: codes) => out ++ [format_codes (c :: codes) output]
  | _ => out
  end.

Definition cangjie_for_text (text : str) (t : table) (output : str) : str :=
  join (lit " ") (fold_left (cangjie_step t output) (han_findall text) []).

(** The position that the index [i] names in a list of [n] items;
    [None] stands for [IndexError]. *)
Definition py_pos (i : Z) (n : nat) : option nat :=
  if (0 <=? i) && (i <? Z.of_nat n) then Some (Z.to_nat i)
  else if (i <? 0) && (0 <=? Z.of_nat n + i)
       then Some (Z.to_nat (Z.of_nat n + i))
       else None.

(** [l[i]] *)
Definition getitem (l : list str) (i : Z) : option str :=
  match py_pos i (length l) with
  | Some k => nth_error l k
  | None => None
  end.

(** [l[i] = v] *)
Definition setitem (l : list str) (i : Z) (v : str) : option (list str) :=
  match py_pos i (length l) with
  | Some k => Some (list_update k v l)
  | None => None
  end.

(** The local variables of [main] that its loop reads: the indices, each
    table with its index (a table is loaded exactly when its column is
    given), and the output mode. *)
Record env : Type := mkEnv {
  source_i : Z;
  cj3 : option (Z * table);
  cj5 : option (Z * table);
  output : str
}.

Definition index_of (c : option (Z * table)) : list Z :=
  match c with
  | Some (i, _) => [i]
  | None => []
  end.

(** [max([source_i] + ...)] *)
Definition max_needed (e : env) : Z :=
  fold_left Z.max (index_of (cj3 e) ++ index_of (cj5 e)) (source_i e).

(** The padding of a short row. *)
Definition pad (e : env) (fields : list str) : list str :=
  if Z.of_nat (length fields) <=? max_needed e
  then fields
         ++ repeat [] (Z.to_nat (max_needed e + 1 - Z.of_nat (length fields)))
  else fields.

Definition fill (c : option (Z * table)) (src_text output : str)
    (fields : list str) : option (list str) :=
  match c with
  | Some (i, t) => setitem fields i (cangjie_for_text src_text t output)
  | None => Some fields
  end.

(** The body of the loop of [main] on the fields of a row; [None] stands
    for [IndexError]. *)
Definition process_fields (e : env) (fields : list str)
  : option (list str) :=
  let fields := pad e fields in
  match getitem fields (source_i e) with
  | None => None
  | Some src_text =>
      match fill (cj3 e) src_text (output e) fields with
      | None => None
      | Some fields => fill (cj5 e) src_text (output e) fields
      end
  end.

(** What is written for one line of the input. *)
Definition process_line (e : env) (line : str) : option str :=
  if startswith (lit "#") line || negb (nonempty (strip line))
  then Some line
  else
    match process_fields e (split_tab (rstrip_by (Z.eqb 0x0A) line)) with
    | Some fields => Some (join [0x09] fields ++ [0x0A])
    | None => None
    end.

(** The loop of [main] over the lines of the input: what has been
    written, and whether the loop came to its end ([false]: an
    [IndexError] left it). *)
Fixpoint main_loop (e : env) (lines : list str) (written : list str)
  : list str * bool :=
  match lines with
  | [] => (written, true)
  | line :: rest =>
      match process_line e line with
      | Some text => main_loop e rest (written ++ [text])
      | None => (written, false)
      end
  end.

Section Main.
Variable str_lower : str -> str.

(** [main] on the parsed arguments, the lines of the two table files and
    the lines of the export. *)
Definition main (source_col : Z) (cj3_col cj5_col : option Z)
    (output : str) (cj3_table cj5_table in_txt : list str)
  : list str * bool :=
  let source_i := source_col - 1 in
  let cj3 :=
    option_map (fun c => (c - 1, load_cangjie_table str_lower cj3_table))
               cj3_col in
  let cj5 :=
    option_map (fun c => (c - 1, load_cangjie_table str_lower cj5_table))
               cj5_col in
  main_loop (mkEnv source_i cj3 cj5 output) in_txt [].

End Main.

End FillAnki.

(** A character that leaves something in the field built by
    [cangjie_for_text]: a Han character with codes in the table. *)
Definition annotated (t : table) (c : Z) : bool :=
  FillAnki.is_han c && has_codes (table_get t [c]).

(** A field of a row after one of the two assignments of [main]. *)
Definition filled (c : option (Z * table)) (src_text output : str)
    (k : nat) (old : str) : str :=
  match c with
  | Some (i, t) =>
      if Z.of_nat k =? i then FillAnki.cangjie_for_text src_text t output
      else old
  | None => old
  end.

(* ------------------------------------------------------------------ *)
(** ** Sample inputs *)

(** A transcription function for examples: one reading for U+65E5, and
    the empty syllable of the [errors] callback for everything else. *)
Definition pinyin_sample (word : str) : list (list str) :=
  if str_eqb word [0x65E5] then [[lit "ri4"]] else [[[]]].

(** Two table files: in the first, U+65E5 has the codes [b] then [a] (on
    lines with and without a third field) and U+6708 has [a]; in the
    second, U+65E5 has [b]. *)
Definition sample_cj3 : str :=
  lit "b" ++ [0x09; 0x65E5; 0x0A]
  ++ lit "a" ++ [0x09; 0x65E5; 0x09] ++ lit "500" ++ [0x0A]
  ++ lit "a" ++ [0x09; 0x6708; 0x09] ++ lit "10".

Definition sample_cj5 : str := lit "b" ++ [0x09; 0x65E5].

(** A file without any acceptable line: a comment, a line with one token,
    and a line whose second token has two code points. *)
Definition sample_noise : str :=
  [0xFEFF] ++ lit "# codes" ++ [0x0A] ++ lit "zz" ++ [0x0A]
  ++ lit "zz" ++ [0x09; 0x65E5; 0x6708; 0x0A].

(** A dict of two entries, inserted against the order of the code
    points. *)
Definition sample_entries : dict str :=
  [ ([0x6708], lit "moon"); ([0x65E5], lit "sun") ].

(** A dict whose two keys get the same sort key from [pinyin_sample]:
    neither has a syllable, and only the first character of a longer word
    is paired with one. *)
Definition sample_colliding : dict str :=
  [ (lit "a", lit "one"); (lit "ab", lit "two") ].

(** [str.lower] on ASCII text. *)
Definition ascii_lower (s : str) : str :=
  map (fun c => if (65 <=? c) && (c <=? 90) then c + 32 else c) s.

(** A server that knows the code of U+65E5 and fails on every other
    request. *)
Definition sample_http (requests : list str) (ch : str)
  : result (list Unihan.event) :=
  if str_eqb ch [0x65E5]
  then Ok [ Unihan.StartTag (lit "tr");
            Unihan.StartTag (lit "td"); Unihan.Data (lit " kCangjie ");
            Unihan.EndTag (lit "td");
            Unihan.StartTag (lit "td"); Unihan.StartTag (lit "code");
            Unihan.Data (lit "A"); Unihan.EndTag (lit "code");
            Unihan.EndTag (lit "td");
            Unihan.EndTag (lit "tr") ]
  else Raise (OperationalError (lit "404")).

(** The events of one table row of a page: a name cell and a value cell,
    the value inside [<code>]. *)
Definition sample_row (key val : str) : list Unihan.event :=
  [ Unihan.StartTag (lit "TR");
    Unihan.StartTag (lit "td"); Unihan.Data key; Unihan.EndTag (lit "td");
    Unihan.StartTag (lit "td"); Unihan.StartTag (lit "code");
    Unihan.Data val; Unihan.EndTag (lit "code"); Unihan.EndTag (lit "td");
    Unihan.EndTag (lit "tr") ].


Definition empty_world : Unihan.world := Unihan.mkWorld [] [].

(** The lines of a table file in the SCIM format: a header, two lines of
    the table, its end, and a line after it. *)
Definition sample_scim : list str :=
  [ lit "SCIM_Generic_Table" ++ [0x0A];
    lit "a" ++ [0x09; 0x6708; 0x0A];
    lit "BEGIN_TABLE" ++ [0x0A];
    lit "A" ++ [0x09; 0x65E5; 0x09] ++ lit "500" ++ [0x0A];
    lit "b" ++ [0x09; 0x6708; 0x0A];
    lit "END_TABLE" ++ [0x0A];
    lit "c" ++ [0x09; 0x91D1; 0x0A] ].

(** The table of [sample_scim]. *)
Definition sample_anki_table : table :=
  [ ([0x65E5], [lit "a"]); ([0x6708], [lit "b"]) ].

(** A row of an export with three fields, the Han text in the second. *)
Definition sample_row_fields : list str :=
  [ lit "sun"; [0x65E5; 0x21; 0x6708]; lit "old" ].

(** An export of three lines: a comment, a row of three fields and an
    empty line. *)
Definition sample_export : list str :=
  [ lit "#separator:tab" ++ [0x0A];
    lit "sun" ++ [0x09; 0x65E5; 0x09] ++ lit "old" ++ [0x0A];
    [0x0A] ].

(* ================================================================== *)
(** * Properties *)

(* ------------------------------------------------------------------ *)
(** ** Strings: equality and order *)

Lemma str_eqb_eq (a b : str) : str_eqb a b = true <-> a = b.
Proof.
  revert b; induction a as [|x a IH]; intros [|y b]; simpl;
    try (split; [discriminate | discriminate]); try tauto.
  rewrite andb_true_iff, Z.eqb_eq, IH.
  split; [intros [-> ->]; reflexivity | intros H; inversion H; auto].
Qed.

Lemma str_eqb_refl (a : str) : str_eqb a a = true.
Proof. apply str_eqb_eq; reflexivity. Qed.

Lemma str_eqb_neq (a b : str) : str_eqb a b = false <-> a <> b.
Proof.
  rewrite <- str_eqb_eq. destruct (str_eqb a b); split; congruence.
Qed.

Lemma str_eqb_sym (a b : str) : str_eqb a b = str_eqb b a.
Proof.
  destruct (str_eqb a b) eqn:E.
  - apply str_eqb_eq in E; subst; symmetry; apply str_eqb_refl.
  - destruct (str_eqb b a) eqn:E'; auto.
    apply str_eqb_eq in E'; subst. rewrite str_eqb_refl in E; discriminate.
Qed.

Lemma str_eq_dec (a b : str) : {a = b} + {a <> b}.
Proof. apply (list_eq_dec Z.eq_dec). Defined.

Lemma mem_In (x : str) (l : list str) : mem x l = true <-> In x l.
Proof.
  induction l as [|y l IH]; simpl; [split; [discriminate | tauto]|].
  rewrite orb_true_iff, str_eqb_eq, IH; tauto.
Qed.

Lemma mem_false (x : str) (l : list str) : mem x l = false <-> ~ In x l.
Proof.
  rewrite <- mem_In. destruct (mem x l); split; congruence.
Qed.

Lemma str_ltb_irrefl (a : str) : str_ltb a a = false.
Proof.
  induction a as [|x a IH]; simpl; auto.
  rewrite Z.ltb_irrefl, Z.eqb_refl, IH; reflexivity.
Qed.

Lemma str_ltb_trans (a b c : str) :
  str_ltb a b = true -> str_ltb b c = true -> str_ltb a c = true.
Proof.
  revert b c; induction a as [|x a IH]; intros [|y b] [|z c]; simpl;
    try discriminate; auto.
  rewrite !orb_true_iff, !andb_true_iff, !Z.ltb_lt, !Z.eqb_eq.
  intros [H1 | [H1 H1']] [H2 | [H2 H2']]; subst; try (left; lia).
  right; split; eauto.
Qed.

Lemma str_ltb_trichotomy (a b : str) :
  str_ltb a b = true \/ a = b \/ str_ltb b a = true.
Proof.
  revert b; induction a as [|x a IH]; intros [|y b]; simpl; auto.
  rewrite !orb_true_iff, !andb_true_iff, !Z.ltb_lt, !Z.eqb_eq.
  destruct (Z.lt_trichotomy x y) as [H | [H | H]]; auto.
  subst. destruct (IH b) as [H | [H | H]]; subst; auto.
Qed.

Lemma str_ltb_asym (a b : str) :
  str_ltb a b = true -> str_ltb b a = false.
Proof.
  intros H. destruct (str_ltb b a) eqn:E; auto.
  rewrite <- (str_ltb_irrefl a). symmetry. eapply str_ltb_trans; eauto.
Qed.

Lemma str_le_refl (a : str) : str_le a a.
Proof. unfold str_le, str_leb. rewrite str_ltb_irrefl; reflexivity. Qed.

Lemma str_le_total (a b : str) : str_le a b \/ str_le b a.
Proof.
  unfold str_le, str_leb.
  destruct (str_ltb b a) eqn:E; auto.
  right. rewrite (str_ltb_asym _ _ E); reflexivity.
Qed.

Lemma str_le_antisym (a b : str) : str_le a b -> str_le b a -> a = b.
Proof.
  unfold str_le, str_leb. rewrite !negb_true_iff. intros H1 H2.
  destruct (str_ltb_trichotomy a b) as [H | [H | H]]; congruence.
Qed.

Lemma str_le_trans (a b c : str) : str_le a b -> str_le b c -> str_le a c.
Proof.
  unfold str_le, str_leb. rewrite !negb_true_iff. intros H1 H2.
  destruct (str_ltb c a) eqn:E; auto.
  destruct (str_ltb_trichotomy b c) as [H | [H | H]]; try congruence.
  rewrite <- H1. symmetry. eapply str_ltb_trans; eauto.
Qed.

Lemma str_le_lt (a b : str) : str_le a b -> a <> b -> str_lt a b.
Proof.
  unfold str_le, str_lt, str_leb. rewrite negb_true_iff. intros H1 H2.
  destruct (str_ltb_trichotomy a b) as [H | [H | H]]; congruence.
Qed.

Lemma str_lt_le (a b : str) : str_lt a b -> str_le a b.
Proof.
  unfold str_le, str_lt, str_leb. intros H.
  rewrite (str_ltb_asym _ _ H); reflexivity.
Qed.

(** On one-character strings the order is the order of the code points. *)
Lemma str_lt_single (x y : Z) : str_lt [x] [y] <-> x < y.
Proof.
  unfold str_lt; simpl. rewrite orb_true_iff, andb_true_iff, Z.ltb_lt.
  split; [intros [H | [_ H]]; [auto | discriminate] | auto].
Qed.

(* ------------------------------------------------------------------ *)
(** ** [sorted] *)

Lemma insert_sorted_perm (x : str) (l : list str) :
  Permutation (insert_sorted x l) (x :: l).
Proof.
  induction l as [|y l IH]; simpl; auto.
  destruct (str_leb x y); auto.
  rewrite IH. apply perm_swap.
Qed.

Lemma sorted_perm (l : list str) : Permutation (sorted l) l.
Proof.
  induction l as [|x l IH]; simpl; auto.
  rewrite insert_sorted_perm. auto.
Qed.

Lemma insert_sorted_Sorted (x : str) (l : list str) :
  StronglySorted str_le l -> StronglySorted str_le (insert_sorted x l).
Proof.
  induction 1 as [|y l Hl IH Hy]; simpl.
  - repeat constructor.
  - destruct (str_leb x y) eqn:E.
    + constructor; [constructor; auto|].
      constructor; [exact E|].
      eapply Forall_impl; [|exact Hy].
      intros z Hz. eapply str_le_trans; eauto.
    + constructor; auto.
      eapply Permutation_Forall; [symmetry; apply insert_sorted_perm|].
      constructor; auto.
      destruct (str_le_total x y) as [H | H]; auto.
      unfold str_le in H; congruence.
Qed.

Lemma sorted_Sorted (l : list str) : StronglySorted str_le (sorted l).
Proof.
  induction l; simpl; [constructor | apply insert_sorted_Sorted; auto].
Qed.

Lemma StronglySorted_le_unique (l1 l2 : list str) :
  StronglySorted str_le l1 -> StronglySorted str_le l2 ->
  Permutation l1 l2 -> l1 = l2.
Proof.
  intros H1; revert l2; induction H1 as [|x l1 Hl1 IH Hx]; intros l2 H2 P.
  - apply Permutation_nil in P; auto.
  - destruct H2 as [|y l2 Hl2 Hy].
    + symmetry in P; apply Permutation_nil in P; discriminate.
    + assert (x = y).
      { apply str_le_antisym.
        - assert (In y (x :: l1)) as [->|Hin]
            by (eapply Permutation_in; [symmetry; exact P | left; auto]).
          + apply str_le_refl.
          + rewrite Forall_forall in Hx; auto.
        - assert (In x (y :: l2)) as [->|Hin]
            by (eapply Permutation_in; [exact P | left; auto]).
          + apply str_le_refl.
          + rewrite Forall_forall in Hy; auto. }
      subst. f_equal. apply IH; auto.
      eapply Permutation_cons_inv; eauto.
Qed.

(** [sorted] depends on the members only, not on their order. *)
Lemma sorted_unique (l1 l2 : list str) :
  Permutation l1 l2 -> sorted l1 = sorted l2.
Proof.
  intros P. apply StronglySorted_le_unique; try apply sorted_Sorted.
  rewrite !sorted_perm; auto.
Qed.

Lemma sorted_In (x : str) (l : list str) : In x (sorted l) <-> In x l.
Proof.
  split; apply Permutation_in; [|symmetry]; apply sorted_perm.
Qed.

Lemma sorted_NoDup (l : list str) : NoDup l -> NoDup (sorted l).
Proof.
  intros H. eapply Permutation_NoDup; [symmetry; apply sorted_perm | auto].
Qed.

Lemma StronglySorted_le_lt (l : list str) :
  NoDup l -> StronglySorted str_le l -> StronglySorted str_lt l.
Proof.
  intros N H; induction H as [|x l Hl IH Hx]; constructor.
  - inversion N; auto.
  - inversion N as [|? ? Hnin _]; subst.
    rewrite Forall_forall in *. intros y Hy.
    apply str_le_lt; auto. intros ->; auto.
Qed.

Lemma sorted_nil_iff (l : list str) : sorted l = [] <-> l = [].
Proof.
  split; [|intros ->; reflexivity].
  intros H. apply Permutation_nil. rewrite <- H. apply sorted_perm.
Qed.

Lemma sorted_length (l : list str) : length (sorted l) = length l.
Proof. apply Permutation_length, sorted_perm. Qed.

(* ------------------------------------------------------------------ *)
(** ** Stripping and splitting *)

Section Splitting.
Variable sep : Z -> bool.

Lemma lstrip_by_head (s : str) :
  lstrip_by sep s = [] \/
  exists c r, lstrip_by sep s = c :: r /\ sep c = false.
Proof.
  induction s as [|c s IH]; simpl; auto.
  destruct (sep c) eqn:E; auto. right; eauto.
Qed.

Lemma lstrip_by_snoc (l : str) (c : Z) :
  sep c = false -> lstrip_by sep (l ++ [c]) = lstrip_by sep l ++ [c].
Proof.
  intros Hc; induction l as [|x l IH]; simpl.
  - rewrite Hc; reflexivity.
  - destruct (sep x); auto.
Qed.

Lemma rstrip_by_cons (c : Z) (r : str) :
  sep c = false -> rstrip_by sep (c :: r) = c :: rstrip_by sep r.
Proof.
  intros Hc. unfold rstrip_by. simpl.
  rewrite lstrip_by_snoc by auto. rewrite rev_app_distr. reflexivity.
Qed.

Lemma rstrip_by_last (s : str) :
  rstrip_by sep s = [] \/
  exists r c, rstrip_by sep s = r ++ [c] /\ sep c = false.
Proof.
  unfold rstrip_by.
  destruct (lstrip_by_head (rev s)) as [-> | (c & r & -> & Hc)]; auto.
  right. exists (rev r), c. auto.
Qed.

(** What [rstrip] removes is a run of separators. *)
Lemma lstrip_by_split (s : str) :
  exists t, s = t ++ lstrip_by sep s /\ forallb sep t = true.
Proof.
  induction s as [|c s (t & IH & Ht)]; simpl.
  - exists []; auto.
  - destruct (sep c) eqn:E.
    + exists (c :: t). simpl. rewrite E, Ht. split; [congruence | auto].
    + exists []; auto.
Qed.

Lemma rstrip_by_split (s : str) :
  exists t, s = rstrip_by sep s ++ t /\ forallb sep t = true.
Proof.
  unfold rstrip_by.
  destruct (lstrip_by_split (rev s)) as (t & E & Ht).
  exists (rev t). split.
  - rewrite <- rev_app_distr, <- E, rev_involutive; reflexivity.
  - rewrite forallb_forall in *. intros x Hx. apply Ht.
    apply in_rev; auto.
Qed.

Lemma strip_by_noop (s : str) :
  Forall (fun c => sep c = false) s -> strip_by sep s = s.
Proof.
  unfold strip_by. intros H.
  assert (L : forall t, Forall (fun c => sep c = false) t ->
                        lstrip_by sep t = t).
  { intros [|c t] Ht; simpl; auto. inversion Ht as [|? ? Hc _]; subst.
    rewrite Hc; reflexivity. }
  rewrite (L s H). unfold rstrip_by. rewrite L.
  - apply rev_involutive.
  - apply Forall_rev; auto.
Qed.

(** A stripped string is empty, or begins and ends outside the class. *)
Lemma strip_by_ends (s : str) :
  strip_by sep s = [] \/
  exists c r, strip_by sep s = c :: r /\ sep c = false /\
              sep (last (c :: r) 0) = false.
Proof.
  unfold strip_by.
  destruct (lstrip_by_head s) as [-> | (c & r & -> & Hc)]; auto.
  right. rewrite rstrip_by_cons by auto.
  exists c, (rstrip_by sep r). repeat split; auto.
  destruct (rstrip_by_last r) as [-> | (r' & c' & -> & Hc')]; auto.
  change (c :: r' ++ [c']) with ((c :: r') ++ [c']).
  rewrite last_last; auto.
Qed.

End Splitting.

Section Tokens.
Variables sep f : Z -> bool.
Hypothesis f_sep : forall c, f c = true -> sep c = true.

Lemma tokens_from_trailing (acc s t : str) :
  forallb f t = true ->
  tokens_from sep acc (s ++ t) = tokens_from sep acc s.
Proof.
  intros Ht. revert acc; induction s as [|c s IH]; intros acc; simpl.
  - revert acc; induction t as [|c t IHt]; intros acc; simpl; auto.
    simpl in Ht. apply andb_true_iff in Ht as [Hc Ht].
    rewrite (f_sep Hc). destruct acc; rewrite IHt; auto.
  - destruct (sep c); [destruct acc|]; rewrite ?IH; auto.
Qed.

Lemma tokens_lstrip_by (s : str) :
  tokens sep (lstrip_by f s) = tokens sep s.
Proof.
  unfold tokens. induction s as [|c s IH]; simpl; auto.
  destruct (f c) eqn:E; auto. rewrite (f_sep E); auto.
Qed.

Lemma tokens_strip_by (s : str) :
  tokens sep (strip_by f s) = tokens sep s.
Proof.
  unfold strip_by. rewrite <- (tokens_lstrip_by s).
  destruct (rstrip_by_split f (lstrip_by f s)) as (t & E & Ht).
  rewrite E at 2. unfold tokens. rewrite tokens_from_trailing; auto.
Qed.
End Tokens.

Lemma nonempty_rev (s : str) : nonempty (rev s) = nonempty s.
Proof.
  destruct s as [|c s]; simpl; auto. destruct (rev s); reflexivity.
Qed.

Lemma nonempty_true (s : str) : nonempty s = true <-> s <> [].
Proof. destruct s; simpl; split; congruence. Qed.

Section ReSplit.
Variable sep : Z -> bool.

(** Dropping the empty pieces of [re.split] leaves the tokens. *)
Lemma filter_re_split_from (acc : str) (insep : bool) (s : str) :
  (insep = true -> acc = []) ->
  filter nonempty (re_split_from sep acc insep s) = tokens_from sep acc s.
Proof.
  revert acc insep; induction s as [|c s IH]; intros acc insep Hin; simpl.
  - rewrite nonempty_rev. destruct acc; reflexivity.
  - destruct (sep c) eqn:E.
    + destruct insep.
      * rewrite (Hin eq_refl). apply IH; auto.
      * simpl. rewrite nonempty_rev.
        destruct acc; simpl; rewrite IH; auto.
    + apply IH. discriminate.
Qed.

Lemma filter_re_split (s : str) :
  filter nonempty (re_split sep s) = tokens sep s.
Proof. apply filter_re_split_from. discriminate. Qed.

(** On a string that begins and ends outside the class, [re.split]
    yields no empty piece. *)
Lemma re_split_from_tokens (acc : str) (insep : bool) (s : str) :
  (insep = true -> acc = []) ->
  (s = [] -> acc <> []) ->
  (s <> [] -> sep (last s 0) = false) ->
  (insep = false -> acc = [] -> exists c r, s = c :: r /\ sep c = false) ->
  re_split_from sep acc insep s = tokens_from sep acc s.
Proof.
  revert acc insep; induction s as [|c s IH];
    intros acc insep Hin Hnil Hlast Hhead; simpl.
  - destruct acc; [exfalso; apply Hnil; auto | reflexivity].
  - assert (Hs : sep c = true -> s <> []).
    { intros E ->. specialize (Hlast ltac:(discriminate)).
      simpl in Hlast. congruence. }
    assert (Hl : s <> [] -> sep (last s 0) = false).
    { intros Hne. specialize (Hlast ltac:(discriminate)).
      destruct s; [congruence | exact Hlast]. }
    destruct (sep c) eqn:E.
    + destruct insep.
      * rewrite (Hin eq_refl). apply IH; auto; try discriminate.
        intros ->. exfalso. apply Hs; auto.
      * destruct acc as [|a acc].
        { destruct (Hhead eq_refl eq_refl) as (c' & r & Hcr & Hc').
          inversion Hcr; subst. congruence. }
        f_equal. apply IH; auto; try discriminate.
        intros ->. exfalso. apply Hs; auto.
    + apply IH; auto; try discriminate.
Qed.

Lemma re_split_stripped (c : Z) (r : str) :
  sep c = false -> sep (last (c :: r) 0) = false ->
  re_split sep (c :: r) = tokens sep (c :: r).
Proof.
  intros Hc Hl. apply re_split_from_tokens; auto; try discriminate.
  intros _ _. eauto.
Qed.

(** Tokens are non-empty and hold no separator. *)
Lemma tokens_from_clean (acc s : str) :
  Forall (fun c => sep c = false) acc ->
  Forall (fun t => t <> [] /\ Forall (fun c => sep c = false) t)
         (tokens_from sep acc s).
Proof.
  revert acc; induction s as [|c s IH]; intros acc Hacc; simpl.
  - destruct acc as [|a acc]; constructor; auto.
    split; [|apply Forall_rev; auto].
    simpl. destruct (rev acc); discriminate.
  - destruct (sep c) eqn:E.
    + destruct acc as [|a acc]; [apply IH; auto|].
      constructor; [|apply IH; auto].
      split; [|apply Forall_rev; auto].
      simpl. destruct (rev acc); discriminate.
    + apply IH. constructor; auto.
Qed.

Lemma tokens_clean (s : str) :
  Forall (fun t => t <> [] /\ Forall (fun c => sep c = false) t)
         (tokens sep s).
Proof. apply tokens_from_clean. constructor. Qed.
End ReSplit.

Lemma is_space_or_at_space (c : Z) :
  is_space c = true -> is_space_or_at c = true.
Proof. unfold is_space_or_at. intros ->. reflexivity. Qed.

(** [split_pron_tokens] returns the maximal runs of characters that are
    neither white space nor ['@']. *)
Lemma split_pron_tokens_tokens (pron : str) :
  split_pron_tokens pron = tokens is_space_or_at pron.
Proof.
  unfold split_pron_tokens, strip. rewrite filter_re_split.
  apply tokens_strip_by. apply is_space_or_at_space.
Qed.

(* ------------------------------------------------------------------ *)
(** ** Index rows *)

Lemma position_rows_beyond (units : list str) (uid wlen : Z) (i : nat) :
  (4 < i)%nat -> position_rows units uid wlen i = [].
Proof.
  intros Hi. do 5 (destruct i as [|i]; [lia|]).
  unfold position_rows.
  do 4 (destruct units as [|? units]; [reflexivity|]).
  cbn [firstn nth_error]. destruct i; reflexivity.
Qed.

Lemma position_rows_length (units : list str) (uid wlen : Z) (i : nat) :
  (length (position_rows units uid wlen i) <= 1)%nat.
Proof.
  destruct i as [|j]; simpl; [lia|].
  destruct (nth_error _ j); simpl; lia.
Qed.

(** The loop over the first four units of one family. *)
Lemma family_rows (units : list str) (uid wlen : Z) (f : posdex_family) :
  for_each (fun iu => family_insert (fst iu) (mkPosdex (snd iu) uid wlen))
           (enumerate (firstn 4 units) 1) f
  = Ok (family_append units uid wlen f).
Proof.
  destruct f as [t1 t2 t3 t4]. unfold family_append.
  do 4 (destruct units as [|? units];
        [cbn; rewrite ?app_nil_r; reflexivity|]).
  cbn; rewrite ?app_nil_r; reflexivity.
Qed.

Lemma family_append_table (units : list str) (uid wlen : Z)
    (f : posdex_family) (i : nat) :
  family_table i (family_append units uid wlen f)
  = family_table i f ++ position_rows units uid wlen i.
Proof.
  do 5 (destruct i as [|i]; [reflexivity|]).
  rewrite position_rows_beyond by lia. reflexivity.
Qed.

Lemma position_rows_total (units : list str) (uid wlen : Z) :
  (length (position_rows units uid wlen 1)
   + length (position_rows units uid wlen 2)
   + length (position_rows units uid wlen 3)
   + length (position_rows units uid wlen 4))%nat
  = Nat.min 4 (length units).
Proof.
  do 4 (destruct units as [|? units]; [reflexivity|]). reflexivity.
Qed.

Lemma family_append_size (units : list str) (uid wlen : Z)
    (f : posdex_family) :
  family_size (family_append units uid wlen f)
  = (family_size f + Nat.min 4 (length units))%nat.
Proof.
  rewrite <- (position_rows_total units uid wlen).
  unfold family_size, family_append. cbn [pos_1 pos_2 pos_3 pos_4].
  rewrite !length_app. lia.
Qed.

Lemma for_each_insert_hz (A : Type) (g : A -> nat) (h : A -> posdex_row)
    (l : list A) (d : db) :
  for_each (fun x => insert_hz (g x) (h x)) l d
  = match for_each (fun x => family_insert (g x) (h x)) l (posdex_hz d) with
    | Ok f => Ok (mkDb (pleco_dict_entries d) (pleco_dict_imports d)
                       (pleco_dict_properties d) f (posdex_py d))
    | Raise e => Raise e
    end.
Proof.
  revert d; induction l as [|x l IH]; intros d; simpl.
  - destruct d; reflexivity.
  - unfold insert_hz at 1.
    destruct (family_insert (g x) (h x) (posdex_hz d)); simpl; auto.
    rewrite IH. reflexivity.
Qed.

Lemma for_each_insert_py (A : Type) (g : A -> nat) (h : A -> posdex_row)
    (l : list A) (d : db) :
  for_each (fun x => insert_py (g x) (h x)) l d
  = match for_each (fun x => family_insert (g x) (h x)) l (posdex_py d) with
    | Ok f => Ok (mkDb (pleco_dict_entries d) (pleco_dict_imports d)
                       (pleco_dict_properties d) (posdex_hz d) f)
    | Raise e => Raise e
    end.
Proof.
  revert d; induction l as [|x l IH]; intros d; simpl.
  - destruct d; reflexivity.
  - unfold insert_py at 1.
    destruct (family_insert (g x) (h x) (posdex_py d)); simpl; auto.
    rewrite IH. reflexivity.
Qed.

Lemma for_each_characters (uid wlen : Z) (word : str) (f : posdex_family) :
  for_each (fun ic => family_insert (fst ic) (mkPosdex [snd ic] uid wlen))
           (enumerate (firstn 4 word) 1) f
  = for_each (fun iu => family_insert (fst iu) (mkPosdex (snd iu) uid wlen))
             (enumerate (firstn 4 (characters word)) 1) f.
Proof.
  do 4 (destruct word as [|? word]; [reflexivity|]). reflexivity.
Qed.

Lemma insert_posdex_eq (uid : Z) (word pron : str) (d : db) :
  insert_posdex uid word pron d = Ok (with_posdex uid word pron d).
Proof.
  unfold insert_posdex. rewrite split_pron_tokens_tokens.
  rewrite for_each_insert_hz, for_each_characters, family_rows.
  cbn [bind]. rewrite for_each_insert_py. cbn [posdex_py].
  rewrite family_rows. reflexivity.
Qed.

(** C6: [insert_posdex] always succeeds; it leaves the other tables alone
    and appends, to the table of position [i] of each family, the row of
    the [i]-th of the first four code points of the word (family hz) and
    of the [i]-th of the first four tokens of the pronunciation, split on
    runs of white space or ['@'] (family py); no family receives more
    than four rows and every row carries the length of the whole word. *)
Theorem insert_posdex_rows (uid : Z) (word pron : str) (d : db) :
  exists d',
    insert_posdex uid word pron d = Ok d' /\
    pleco_dict_entries d' = pleco_dict_entries d /\
    pleco_dict_imports d' = pleco_dict_imports d /\
    pleco_dict_properties d' = pleco_dict_properties d /\
    (forall i,
        family_table i (posdex_hz d')
        = family_table i (posdex_hz d)
            ++ position_rows (characters word) uid
                             (Z.of_nat (length word)) i) /\
    (forall i,
        family_table i (posdex_py d')
        = family_table i (posdex_py d)
            ++ position_rows (tokens is_space_or_at pron) uid
                             (Z.of_nat (length word)) i) /\
    family_size (posdex_hz d')
    = (family_size (posdex_hz d) + Nat.min 4 (length word))%nat /\
    family_size (posdex_py d')
    = (family_size (posdex_py d)
       + Nat.min 4 (length (tokens is_space_or_at pron)))%nat /\
    (forall i, (length (position_rows (characters word) uid
                          (Z.of_nat (length word)) i) <= 1)%nat) /\
    (forall i, (4 < i)%nat ->
               position_rows (characters word) uid
                             (Z.of_nat (length word)) i = [] /\
               position_rows (tokens is_space_or_at pron) uid
                             (Z.of_nat (length word)) i = []).
Proof.
  exists (with_posdex uid word pron d).
  split; [apply insert_posdex_eq|].
  unfold with_posdex.
  cbn [pleco_dict_entries pleco_dict_imports pleco_dict_properties
       posdex_hz posdex_py].
  rewrite !family_append_size. unfold characters at 3. rewrite length_map.
  repeat split; auto using family_append_table, position_rows_length,
                position_rows_beyond.
Qed.

(* ------------------------------------------------------------------ *)
(** ** Sort keys *)

Lemma to_fullwidth_ascii_map (s : str) :
  to_fullwidth_ascii s = map fullwidth_char s.
Proof. reflexivity. Qed.

Lemma str_or_nonempty (x y : str) : x <> [] -> str_or x y = x.
Proof. destruct x; simpl; congruence. Qed.

Lemma make_sortkey_single (py : list str) (ch : str) :
  length ch = 1%nat ->
  str_or (make_sortkey py ch) ch
  = to_fullwidth_ascii (first_or_empty py) ++ ch.
Proof.
  intros H. unfold make_sortkey. rewrite H. simpl.
  apply str_or_nonempty. destruct ch; [discriminate|].
  intros E. apply app_eq_nil in E as [_ E]. discriminate.
Qed.

(** C2: the sort key that [build_pqb] stores for a one-character entry is
    the full-width transform of its syllable followed by the character;
    the transform shifts exactly the code points of [0x21 .. 0x7E] by
    [0xFEE0]; without a syllable the key is the character alone. *)
Theorem sortkey_single_character
    (pypinyin_pinyin : str -> list (list str))
    (entries : dict str) (now uid : Z) (ch : str) (d : db) :
  length ch = 1%nat ->
  let py := mandarin_pinyin_tone3 pypinyin_pinyin ch in
  let syllable := first_or_empty py in
  let sk := str_or (make_sortkey py ch) ch in
  sk = map fullwidth_char syllable ++ ch /\
  Forall2 (fun c c' => (0x21 <= c <= 0x7E -> c' = c + 0xFEE0) /\
                       (~ 0x21 <= c <= 0x7E -> c' = c))
          syllable (to_fullwidth_ascii syllable) /\
  (syllable = [] -> sk = ch) /\
  (forall st,
      build_entry pypinyin_pinyin entries now ch (d, uid) = Ok st ->
      exists defn,
        pleco_dict_entries (fst st)
        = pleco_dict_entries d
            ++ [mkEntry uid now now 1 ch None (join (lit " ") py) defn sk]).
Proof.
  intros H py syllable sk.
  assert (E : sk = map fullwidth_char syllable ++ ch)
    by (apply make_sortkey_single; auto).
  split; [exact E|]. split; [|split].
  - unfold to_fullwidth_ascii, _FULLWIDTH_OFFSET. clear E.
    induction syllable as [|c s IH]; simpl; constructor; auto.
    destruct (Z.leb_spec 0x21 c); destruct (Z.leb_spec c 0x7E); simpl;
      split; intros; try lia; auto.
  - intros Hs. rewrite E, Hs. reflexivity.
  - intros st. unfold build_entry. simpl.
    destruct (dict_get ch entries) as [defn|]; [|discriminate].
    fold py. fold sk. unfold insert_entry. simpl.
    destruct (existsb _ _); [discriminate|].
    destruct (existsb _ _); [discriminate|]. simpl.
    rewrite insert_posdex_eq. simpl. intros [= <-]. exists defn.
    reflexivity.
Qed.

Lemma sortkey_single_character_witness :
  str_or (make_sortkey (mandarin_pinyin_tone3 pinyin_sample [0x65E5])
                       [0x65E5]) [0x65E5]
  = [0xFF52; 0xFF49; 0xFF14; 0x65E5].
Proof.
  exact (proj1 (@sortkey_single_character pinyin_sample [] 0 1 [0x65E5]
                  schema_db eq_refl)).
Defined.

(* ------------------------------------------------------------------ *)
(** ** The loader *)

Lemma in_ranges_iff (c : Z) :
  in_ranges c = true <->
  exists lo hi, In (lo, hi) CJK_RANGES /\ lo <= c <= hi.
Proof.
  unfold in_ranges. rewrite existsb_exists. split.
  - intros ([lo hi] & Hin & H). simpl in H.
    apply andb_true_iff in H as [H1 H2].
    apply Z.leb_le in H1, H2. eauto.
  - intros (lo & hi & Hin & H). exists (lo, hi). split; auto.
    simpl. apply andb_true_iff. split; apply Z.leb_le; lia.
Qed.

Lemma is_cjk_word_single (c : Z) : is_cjk_word [c] = true <-> permitted c.
Proof.
  unfold permitted. rewrite <- in_ranges_iff. simpl.
  destruct (Z.eqb_spec c 0x3007) as [->|Hne]; simpl.
  - tauto.
  - destruct (in_ranges c); simpl; split; auto; try discriminate.
    intros [H | H]; [contradiction | discriminate].
Qed.

Lemma length_one (s : str) : length s = 1%nat <-> exists c, s = [c].
Proof.
  destruct s as [|c [|? ?]]; simpl; split;
    try discriminate; try (intros [? ?]; discriminate); eauto.
Qed.

(** On a stripped line that does not begin with ['#'], [parse_line] reads
    the first two tokens. *)
Lemma parse_line_tokens (raw : str) (c : Z) (r : str) :
  strip raw = c :: r -> c <> 0x23 ->
  parse_line raw =
  match tokens is_space (c :: r) with
  | p0 :: p1 :: _ =>
      if Nat.eqb (length p1) 1 && is_cjk_word p1 then Some (p1, p0) else None
  | _ => None
  end.
Proof.
  intros Hs Hc. unfold parse_line. rewrite Hs.
  destruct (strip_by_ends is_space raw) as [E | (c' & r' & E & Hc' & Hl)];
    fold (strip raw) in E; rewrite Hs in E; [discriminate|].
  rewrite <- E in Hl. inversion E; subst c' r'.
  unfold startswith. simpl. apply Z.eqb_neq in Hc. rewrite Hc. simpl.
  rewrite re_split_stripped by auto.
  pose proof (tokens_clean is_space (c :: r)) as Hclean.
  destruct (tokens is_space (c :: r)) as [|p0 [|p1 rest]]; auto.
  simpl. inversion Hclean as [|? ? [Hp0 Hs0] Hrest]; subst.
  inversion Hrest as [|? ? [Hp1 Hs1] _]; subst.
  unfold strip. rewrite !strip_by_noop by auto.
  apply nonempty_true in Hp0, Hp1. rewrite Hp0, Hp1. simpl.
  destruct (Nat.eqb (length p1) 1); simpl; auto.
  destruct (is_cjk_word p1); reflexivity.
Qed.

Lemma parse_line_accepted (raw char code : str) :
  parse_line raw = Some (char, code) <-> line_accepted raw char code.
Proof.
  unfold line_accepted.
  destruct (strip raw) as [|c r] eqn:Hs.
  - unfold parse_line. rewrite Hs. simpl. split; [discriminate|].
    intros [H _]; congruence.
  - destruct (Z.eq_dec c 0x23) as [->|Hc].
    + unfold parse_line. rewrite Hs. simpl. split; [discriminate|].
      intros (_ & H & _). simpl in H. congruence.
    + rewrite (parse_line_tokens _ Hs Hc).
      destruct (tokens is_space (c :: r)) as [|p0 [|p1 rest]].
      * split; [discriminate|]. intros (_ & _ & ? & ? & ? & _). discriminate.
      * split; [discriminate|]. intros (_ & _ & ? & ? & ? & _). discriminate.
      * destruct (Nat.eqb (length p1) 1) eqn:El; simpl.
        -- apply Nat.eqb_eq, length_one in El as [c1 ->].
           destruct (is_cjk_word [c1]) eqn:Ew.
           ++ apply is_cjk_word_single in Ew. split.
              ** intros [= <- <-]. repeat split; try discriminate.
                 { simpl. congruence. }
                 exists c1, rest. auto.
              ** intros (_ & _ & c2 & rest' & [= <- <- _] & -> & _).
                 reflexivity.
           ++ split; [discriminate|].
              intros (_ & _ & c2 & rest' & [= _ <- _] & _ & Hp).
              apply is_cjk_word_single in Hp. congruence.
        -- split; [discriminate|].
           intros (_ & _ & c2 & rest' & [= _ -> _] & _ & _).
           discriminate.
Qed.

Lemma parse_line_char (raw char code : str) :
  parse_line raw = Some (char, code) -> length char = 1%nat.
Proof.
  intros H. apply parse_line_accepted in H.
  destruct H as (_ & _ & c & rest & _ & -> & _). reflexivity.
Qed.

(* ------------------------------------------------------------------ *)
(** ** Sets, dicts and tables *)

Lemma set_add_In (x c : str) (s : list str) :
  In x (set_add c s) <-> In x s \/ x = c.
Proof.
  unfold set_add. destruct (mem c s) eqn:E.
  - apply mem_In in E. split; auto. intros [H | ->]; auto.
  - rewrite in_app_iff. simpl. intuition.
Qed.

Lemma set_add_NoDup (c : str) (s : list str) :
  NoDup s -> NoDup (set_add c s).
Proof.
  unfold set_add. intros H. destruct (mem c s) eqn:E; auto.
  apply mem_false in E.
  apply (Permutation_NoDup (l := c :: s)).
  - apply Permutation_cons_append.
  - constructor; auto.
Qed.

Lemma set_add_not_nil (c : str) (s : list str) : set_add c s <> [].
Proof.
  unfold set_add. destruct (mem c s) eqn:E.
  - apply mem_In in E. destruct s; [contradiction | discriminate].
  - destruct s; discriminate.
Qed.

Lemma set_union_In (x : str) (a b : list str) :
  In x (set_union a b) <-> In x a \/ In x b.
Proof.
  unfold set_union. revert a; induction b as [|y b IH]; intros a; simpl.
  - tauto.
  - rewrite IH, set_add_In. intuition.
Qed.

Lemma set_union_NoDup (a b : list str) : NoDup a -> NoDup (set_union a b).
Proof.
  unfold set_union. revert a; induction b as [|y b IH]; intros a H; simpl;
    auto using set_add_NoDup.
Qed.

Lemma dict_get_In_keys (V : Type) (k : str) (d : dict V) :
  In k (dict_keys d) <-> exists v, dict_get k d = Some v.
Proof.
  induction d as [|[k' v'] d IH]; simpl.
  - split; [tauto | intros [? ?]; discriminate].
  - destruct (str_eqb k' k) eqn:E.
    + apply str_eqb_eq in E. split; eauto.
    + apply str_eqb_neq in E. rewrite <- IH. tauto.
Qed.

Lemma dict_get_None (V : Type) (k : str) (d : dict V) :
  ~ In k (dict_keys d) <-> dict_get k d = None.
Proof.
  rewrite dict_get_In_keys. destruct (dict_get k d); split;
    try congruence; eauto.
  - intros H. exfalso. apply H. eauto.
  - intros _ [? ?]. discriminate.
Qed.

Lemma dict_get_set (V : Type) (k k' : str) (v : V) (d : dict V) :
  dict_get k' (dict_set k v d)
  = if str_eqb k k' then Some v else dict_get k' d.
Proof.
  induction d as [|[k0 v0] d IH]; simpl.
  - reflexivity.
  - destruct (str_eqb k0 k) eqn:E; simpl.
    + apply str_eqb_eq in E; subst.
      destruct (str_eqb k k'); reflexivity.
    + destruct (str_eqb k0 k') eqn:E'; auto.
      apply str_eqb_eq in E'; subst. rewrite str_eqb_sym, E. reflexivity.
Qed.

Lemma dict_keys_set (V : Type) (k : str) (v : V) (d : dict V) :
  dict_keys (dict_set k v d)
  = if mem k (dict_keys d) then dict_keys d else dict_keys d ++ [k].
Proof.
  induction d as [|[k0 v0] d IH]; simpl; auto.
  destruct (str_eqb k0 k) eqn:E; simpl; auto.
  rewrite IH. destruct (mem k (dict_keys d)); reflexivity.
Qed.

Lemma table_get_add (char code k : str) (t : table) :
  table_get (table_add char code t) k
  = if str_eqb char k then set_add code (table_get t k) else table_get t k.
Proof.
  unfold table_get. induction t as [|[k0 s0] t IH]; simpl.
  - destruct (str_eqb char k); reflexivity.
  - destruct (str_eqb k0 char) eqn:E; simpl.
    + apply str_eqb_eq in E; subst.
      destruct (str_eqb char k); reflexivity.
    + destruct (str_eqb k0 k) eqn:E'; auto.
      apply str_eqb_eq in E'; subst. rewrite str_eqb_sym, E. reflexivity.
Qed.

Lemma table_add_keys (char code : str) (t : table) :
  dict_keys (table_add char code t)
  = if mem char (dict_keys t) then dict_keys t else dict_keys t ++ [char].
Proof.
  induction t as [|[k0 s0] t IH]; simpl; auto.
  destruct (str_eqb k0 char) eqn:E; simpl; auto.
  rewrite IH. destruct (mem char (dict_keys t)); reflexivity.
Qed.

Lemma table_add_ok (char code : str) (t : table) :
  length char = 1%nat -> table_ok t -> table_ok (table_add char code t).
Proof.
  intros Hc [Hk Hv]. split.
  - rewrite table_add_keys. fold (set_add char (dict_keys t)).
    apply set_add_NoDup; auto.
  - clear Hk. induction t as [|[k0 s0] t IH]; simpl.
    + repeat constructor; auto. discriminate.
    + inversion Hv as [|? ? (H1 & H2 & H3) Hv']; subst. simpl in *.
      destruct (str_eqb k0 char); constructor; simpl; auto.
      repeat split; auto using set_add_NoDup, set_add_not_nil.
Qed.

Lemma table_ok_get (t : table) (k : str) :
  table_ok t -> NoDup (table_get t k).
Proof.
  intros [_ Hv]. unfold table_get.
  induction t as [|[k0 s0] t IH]; simpl; [constructor|].
  inversion Hv as [|? ? (H1 & H2 & H3) Hv']; subst.
  destruct (str_eqb k0 k); auto.
Qed.

Lemma table_ok_key (t : table) (k : str) :
  table_ok t -> In k (dict_keys t) ->
  length k = 1%nat /\ table_get t k <> [].
Proof.
  intros [_ Hv] Hin. unfold table_get.
  induction t as [|[k0 s0] t IH]; simpl in *; [contradiction|].
  inversion Hv as [|? ? (H1 & H2 & H3) Hv']; subst. simpl in *.
  destruct (str_eqb k0 k) eqn:E.
  - apply str_eqb_eq in E; subst. auto.
  - apply str_eqb_neq in E. destruct Hin; [contradiction | auto].
Qed.

Lemma table_get_keys (t : table) (k : str) :
  table_get t k <> [] -> In k (dict_keys t).
Proof.
  unfold table_get. intros H. apply dict_get_In_keys.
  destruct (dict_get k t); eauto. congruence.
Qed.

Lemma mem_app (y : str) (a b : list str) :
  mem y (a ++ b) = mem y a || mem y b.
Proof.
  induction a as [|x a IH]; simpl; auto. rewrite IH, orb_assoc. reflexivity.
Qed.

Lemma fromkeys_from_ext (s1 s2 l : list str) :
  (forall y, mem y s1 = mem y s2) ->
  fromkeys_from s1 l = fromkeys_from s2 l.
Proof.
  revert s1 s2; induction l as [|x l IH]; intros s1 s2 H; simpl; auto.
  rewrite <- H. destruct (mem x s1); [apply IH; auto|].
  f_equal. apply IH. intros y. simpl. rewrite H. reflexivity.
Qed.

(** Adding the members of [l] one by one to a set keeps the order of their
    first occurrence. *)
Lemma fold_set_add (l s : list str) :
  fold_left (fun s c => set_add c s) l s = s ++ fromkeys_from s l.
Proof.
  revert s; induction l as [|x l IH]; intros s; simpl.
  - rewrite app_nil_r. reflexivity.
  - rewrite IH. unfold set_add. destruct (mem x s) eqn:E; auto.
    rewrite <- app_assoc. simpl. do 2 f_equal.
    apply fromkeys_from_ext. intros y. rewrite mem_app. simpl.
    rewrite orb_false_r, orb_comm. reflexivity.
Qed.

Lemma load_step_get (t : table) (raw ch : str) :
  table_get (load_step t raw) ch
  = fold_left (fun s c => set_add c s)
              (match parse_line raw with
               | Some (c, code) => if str_eqb c ch then [code] else []
               | None => []
               end)
              (table_get t ch).
Proof.
  unfold load_step. destruct (parse_line raw) as [[c code]|]; auto.
  rewrite table_get_add. destruct (str_eqb c ch); reflexivity.
Qed.

Lemma load_fold_get (lines : list str) (t : table) (ch : str) :
  table_get (fold_left load_step lines t) ch
  = fold_left (fun s c => set_add c s)
      (flat_map (fun raw =>
                   match parse_line raw with
                   | Some (c, code) => if str_eqb c ch then [code] else []
                   | None => []
                   end) lines)
      (table_get t ch).
Proof.
  revert t; induction lines as [|raw lines IH]; intros t; simpl; auto.
  rewrite IH, load_step_get, fold_left_app. reflexivity.
Qed.

(** The set the loader holds for a character is the list of the file's
    codes for it, in the order of their first occurrence. *)
Lemma load_table_get (text ch : str) :
  table_get (load_cangjie_table text) ch = dict_fromkeys (file_codes text ch).
Proof.
  unfold load_cangjie_table. fold (file_lines text).
  rewrite load_fold_get, fold_set_add. reflexivity.
Qed.

Lemma fromkeys_from_In (x : str) (seen l : list str) :
  In x (fromkeys_from seen l) <-> In x l /\ ~ In x seen.
Proof.
  revert seen; induction l as [|y l IH]; intros seen; simpl; [tauto|].
  destruct (mem y seen) eqn:E.
  - apply mem_In in E. rewrite IH. split; [tauto|].
    intros [[-> | H] Hn]; tauto.
  - apply mem_false in E. simpl. rewrite IH. simpl.
    destruct (str_eq_dec y x) as [->|Hne]; tauto.
Qed.

Lemma dict_fromkeys_In (x : str) (l : list str) :
  In x (dict_fromkeys l) <-> In x l.
Proof. unfold dict_fromkeys. rewrite fromkeys_from_In. simpl. tauto. Qed.

Lemma fromkeys_from_NoDup (seen l : list str) :
  NoDup (fromkeys_from seen l).
Proof.
  revert seen; induction l as [|y l IH]; intros seen; simpl; [constructor|].
  destruct (mem y seen); auto. constructor; auto.
  rewrite fromkeys_from_In. simpl. tauto.
Qed.

Lemma fromkeys_from_id (seen l : list str) :
  NoDup l -> (forall x, In x l -> ~ In x seen) ->
  fromkeys_from seen l = l.
Proof.
  revert seen; induction l as [|y l IH]; intros seen N H; simpl; auto.
  inversion N as [|? ? Hy N']; subst.
  destruct (mem y seen) eqn:E.
  - apply mem_In in E. exfalso. apply (H y); simpl; auto.
  - f_equal. apply IH; auto. intros x Hx [-> | Hs]; auto.
    apply (H x); simpl; auto.
Qed.

(** [dict.fromkeys] changes nothing in a list without repetition. *)
Lemma dict_fromkeys_id (l : list str) : NoDup l -> dict_fromkeys l = l.
Proof. intros N. apply fromkeys_from_id; auto. Qed.

Lemma file_codes_In (text ch code : str) :
  In code (file_codes text ch) <->
  exists raw, In raw (file_lines text) /\ parse_line raw = Some (ch, code).
Proof.
  unfold file_codes. rewrite in_flat_map. split.
  - intros (raw & Hin & H). exists raw. split; auto.
    destruct (parse_line raw) as [[c code']|]; [|contradiction].
    destruct (str_eqb c ch) eqn:E; [|contradiction].
    apply str_eqb_eq in E. destruct H as [->|[]]. congruence.
  - intros (raw & Hin & H). exists raw. split; auto.
    rewrite H, str_eqb_refl. left; reflexivity.
Qed.

Lemma load_fold_ok (lines : list str) (t : table) :
  table_ok t -> table_ok (fold_left load_step lines t).
Proof.
  revert t; induction lines as [|raw lines IH]; intros t H; simpl; auto.
  apply IH. unfold load_step.
  destruct (parse_line raw) as [[c code]|] eqn:E; auto.
  apply table_add_ok; auto. eapply parse_line_char; eauto.
Qed.

Lemma load_ok (text : str) : table_ok (load_cangjie_table text).
Proof.
  apply load_fold_ok. split; constructor.
Qed.

Lemma load_fold_skip (lines : list str) (t : table) :
  (forall raw, In raw lines -> parse_line raw = None) ->
  fold_left load_step lines t = t.
Proof.
  revert t; induction lines as [|raw lines IH]; intros t H; simpl; auto.
  unfold load_step at 2. rewrite (H raw) by (left; auto).
  apply IH. intros r Hr. apply H. right; auto.
Qed.

(** C7: a line enters the code table exactly when, stripped, it is not
    empty, does not begin with ['#'], has at least two white-space
    separated tokens, and its second token is one code point of the eleven
    ranges or U+3007; any other line leaves the table as it is, and a file
    without such a line (the empty file among them) loads as the empty
    table.  The loader is a total function: it raises nothing. *)
Theorem load_accepts_exactly (text : str) :
  (forall raw char code,
      parse_line raw = Some (char, code) <-> line_accepted raw char code) /\
  (forall t raw char code,
      line_accepted raw char code ->
      load_step t raw = table_add char code t) /\
  (forall t raw,
      (forall char code, ~ line_accepted raw char code) ->
      load_step t raw = t) /\
  (forall char code,
      In code (table_get (load_cangjie_table text) char) <->
      exists raw, In raw (file_lines text) /\ line_accepted raw char code) /\
  ((forall raw char code,
       In raw (file_lines text) -> ~ line_accepted raw char code) ->
   load_cangjie_table text = []) /\
  load_cangjie_table [] = [] /\
  length CJK_RANGES = 11%nat.
Proof.
  split; [apply parse_line_accepted|].
  split; [|split; [|split; [|split; [|split; reflexivity]]]].
  - intros t raw char code H. apply parse_line_accepted in H.
    unfold load_step. rewrite H. reflexivity.
  - intros t raw H. unfold load_step.
    destruct (parse_line raw) as [[c code]|] eqn:E; auto.
    apply parse_line_accepted in E. exfalso. eapply H; eauto.
  - intros char code. rewrite load_table_get, dict_fromkeys_In, file_codes_In.
    split; intros (raw & Hin & H); exists raw; split; auto;
      apply parse_line_accepted; auto.
  - intros H. apply load_fold_skip. intros raw Hin.
    destruct (parse_line raw) as [[c code]|] eqn:E; auto.
    apply parse_line_accepted in E. exfalso. eapply H; eauto.
Qed.

(* ------------------------------------------------------------------ *)
(** ** Sections and definitions *)

Lemma shape_get_absent (c : Z) (m : list (Z * str)) :
  ~ In c (map fst m) -> shape_get c m = [c].
Proof.
  induction m as [|[k v] m IH]; simpl; auto.
  intros H. destruct (Z.eqb_spec k c); [tauto|]. apply IH. tauto.
Qed.

Lemma shape_get_glyph (c : Z) :
  shape_get c LATIN_TO_SHAPE = if is_lower c then display_glyph c else [c].
Proof.
  unfold is_lower.
  destruct (Z.leb_spec 97 c); destruct (Z.leb_spec c 122); cbn [andb];
    try (apply shape_get_absent; unfold LATIN_TO_SHAPE; simpl; lia).
  assert (H1 : exists n, c = 97 + Z.of_nat n /\ (n < 26)%nat).
  { exists (Z.to_nat (c - 97)). lia. }
  destruct H1 as (n & -> & Hn).
  do 26 (destruct n as [|n]; [reflexivity|]). lia.
Qed.

Lemma latin_code_to_shapes_transliterate (code : str) :
  latin_code_to_shapes code = transliterate code.
Proof.
  unfold latin_code_to_shapes, transliterate.
  rewrite flat_map_concat_map. f_equal.
  apply map_ext. apply shape_get_glyph.
Qed.

Lemma format_section_text (label : str) (codes : list str) :
  NoDup codes -> format_section label codes = section_text label codes.
Proof.
  intros N. unfold format_section, section_text.
  rewrite dict_fromkeys_id by auto. simpl.
  rewrite <- app_assoc. do 3 f_equal.
  rewrite (map_ext _ _ latin_code_to_shapes_transliterate). reflexivity.
Qed.

Lemma codes_eqb_eq (a b : list str) : codes_eqb a b = true <-> a = b.
Proof.
  revert b; induction a as [|x a IH]; intros [|y b]; simpl;
    try (split; [discriminate | discriminate]); try tauto.
  rewrite andb_true_iff, str_eqb_eq, IH.
  split; [intros [-> ->]; reflexivity | intros H; inversion H; auto].
Qed.

Section Composer.
Variable iter_set : list str -> list str.
Hypothesis iter_set_perm : forall l, Permutation (iter_set l) l.
Variables cj3 cj5 : table.
Hypothesis cj3_ok : table_ok cj3.
Hypothesis cj5_ok : table_ok cj5.

Lemma iter_codes_NoDup (t : table) (ch : str) :
  table_ok t -> NoDup (sorted (iter_set (table_get t ch))).
Proof.
  intros H. apply sorted_NoDup.
  eapply Permutation_NoDup; [symmetry; apply iter_set_perm|].
  apply table_ok_get; auto.
Qed.

Lemma iter_codes_sorted (t : table) (ch : str) :
  sorted (iter_set (table_get t ch)) = sorted (table_get t ch).
Proof. apply sorted_unique, iter_set_perm. Qed.

Lemma compose_step_composed (entries : dict str) (ch : str) :
  compose_step iter_set cj3 cj5 entries ch
  = match composed iter_set cj3 cj5 ch with
    | Some v => dict_set ch v entries
    | None => entries
    end.
Proof.
  unfold compose_step, composed, definition_text.
  pose proof (iter_codes_NoDup ch cj3_ok) as N3.
  pose proof (iter_codes_NoDup ch cj5_ok) as N5.
  rewrite !format_section_text by auto.
  destruct (sorted (iter_set (table_get cj3 ch))) as [|a l3];
    destruct (sorted (iter_set (table_get cj5 ch))) as [|b l5];
    try reflexivity.
  cbn [has_codes andb orb].
  destruct (codes_eqb (a :: l3) (b :: l5)); reflexivity.
Qed.

Lemma compose_fold_get (chars : list str) (entries : dict str) (ch : str) :
  dict_get ch (fold_left (compose_step iter_set cj3 cj5) chars entries)
  = if mem ch chars
    then match composed iter_set cj3 cj5 ch with
         | Some v => Some v
         | None => dict_get ch entries
         end
    else dict_get ch entries.
Proof.
  revert entries; induction chars as [|c chars IH]; intros entries; simpl;
    auto.
  rewrite IH, compose_step_composed.
  destruct (str_eqb c ch) eqn:E; simpl.
  - apply str_eqb_eq in E; subst c.
    destruct (composed iter_set cj3 cj5 ch) as [v|] eqn:Ec.
    + rewrite dict_get_set, str_eqb_refl. destruct (mem ch chars); auto.
    + destruct (mem ch chars); auto.
  - destruct (composed iter_set cj3 cj5 c) as [v|]; auto.
    rewrite dict_get_set, E. reflexivity.
Qed.

Lemma composed_Some_In (ch v : str) :
  composed iter_set cj3 cj5 ch = Some v ->
  In ch (iter_set (set_union (dict_keys cj3) (dict_keys cj5))).
Proof.
  unfold composed. intros H.
  eapply Permutation_in; [symmetry; apply iter_set_perm|].
  apply set_union_In.
  destruct (sorted (iter_set (table_get cj3 ch))) as [|a l3] eqn:E3.
  - destruct (sorted (iter_set (table_get cj5 ch))) as [|b l5] eqn:E5;
      [discriminate|].
    right. apply table_get_keys. intros Hn. rewrite Hn in E5.
    assert (P : Permutation (iter_set []) []) by apply iter_set_perm.
    apply Permutation_sym, Permutation_nil in P. rewrite P in E5.
    discriminate.
  - left. apply table_get_keys. intros Hn. rewrite Hn in E3.
    assert (P : Permutation (iter_set []) []) by apply iter_set_perm.
    apply Permutation_sym, Permutation_nil in P. rewrite P in E3.
    discriminate.
Qed.

(** The entry of a character in the dict that [main] builds. *)
Lemma compose_entries_get (ch : str) :
  dict_get ch (compose_entries iter_set cj3 cj5)
  = composed iter_set cj3 cj5 ch.
Proof.
  unfold compose_entries. rewrite compose_fold_get. simpl.
  destruct (composed iter_set cj3 cj5 ch) as [v|] eqn:E.
  - apply composed_Some_In in E. apply mem_In in E. rewrite E. reflexivity.
  - destruct (mem ch _); reflexivity.
Qed.

End Composer.

Lemma sorted_codes_facts (iter_set : list str -> list str) (text ch : str) :
  (forall l, Permutation (iter_set l) l) ->
  let first := dict_fromkeys (file_codes text ch) in
  let codes := sorted (iter_set (table_get (load_cangjie_table text) ch)) in
  codes = sorted first /\ NoDup codes /\ StronglySorted str_lt codes /\
  Permutation codes first.
Proof.
  intros Hp first codes.
  assert (E : codes = sorted first).
  { unfold codes. rewrite load_table_get. apply sorted_unique, Hp. }
  assert (N : NoDup codes).
  { rewrite E. apply sorted_NoDup, fromkeys_from_NoDup. }
  repeat split; auto.
  - apply StronglySorted_le_lt; auto. rewrite E. apply sorted_Sorted.
  - rewrite E. apply sorted_perm.
Qed.

(** C1: for a character with a code in either system, the definition that
    [main] stores is the reference composition of the two sorted,
    duplicate-free code lists: one section ["Cangjie"] when both lists are
    non-empty and equal, else one section per non-empty system,
    ["Cangjie3"] first, joined by two sentinels; a section is the label
    with [':'], the transliterated codes and the raw codes, both joined by
    [" / "], as three lines joined by one sentinel. *)
Theorem definition_matches_reference
    (iter_set : list str -> list str) (text3 text5 ch : str) :
  (forall l, Permutation (iter_set l) l) ->
  let cj3 := load_cangjie_table text3 in
  let cj5 := load_cangjie_table text5 in
  let codes3 := sorted (iter_set (table_get cj3 ch)) in
  let codes5 := sorted (iter_set (table_get cj5 ch)) in
  codes3 <> [] \/ codes5 <> [] ->
  dict_get ch (compose_entries iter_set cj3 cj5)
  = Some (definition_text codes3 codes5) /\
  NoDup codes3 /\ NoDup codes5 /\
  StronglySorted str_lt codes3 /\ StronglySorted str_lt codes5.
Proof.
  intros Hp cj3 cj5 codes3 codes5 H.
  destruct (@sorted_codes_facts iter_set text3 ch Hp) as (_ & N3 & S3 & _).
  destruct (@sorted_codes_facts iter_set text5 ch Hp) as (_ & N5 & S5 & _).
  repeat split; auto.
  unfold cj3, cj5.
  rewrite (@compose_entries_get iter_set Hp _ _ (load_ok text3)
                                (load_ok text5)).
  unfold composed. fold cj3 cj5 codes3 codes5.
  clearbody codes3 codes5.
  destruct codes3; destruct codes5; try reflexivity.
  destruct H as [H | H]; exfalso; apply H; reflexivity.
Qed.

Lemma definition_matches_reference_witness :
  dict_get [0x65E5]
           (compose_entries (@rev str) (load_cangjie_table sample_cj3)
                            (load_cangjie_table sample_cj5))
  = Some (definition_text [lit "a"; lit "b"] [lit "b"]).
Proof.
  assert (H : sorted (rev (table_get (load_cangjie_table sample_cj3)
                                      [0x65E5])) <> [])
    by (vm_compute; discriminate).
  generalize (proj1 (@definition_matches_reference (@rev str)
                       sample_cj3 sample_cj5 [0x65E5]
                       (fun l => Permutation_sym (Permutation_rev l))
                       (or_introl H))).
  vm_compute. exact (fun E => E).
Defined.

(** C5 as stated fails: with the codes [b] then [a] in the file, the
    definition lists [a] before [b]. *)
Lemma first_encountered_order_counterexample :
  dict_fromkeys (file_codes sample_cj3 [0x65E5]) = [lit "b"; lit "a"] /\
  dict_get [0x65E5]
           (compose_entries (fun l => l) (load_cangjie_table sample_cj3)
                            (load_cangjie_table []))
  = Some (definition_text [lit "a"; lit "b"] []) /\
  dict_get [0x65E5]
           (compose_entries (fun l => l) (load_cangjie_table sample_cj3)
                            (load_cangjie_table []))
  <> Some (definition_text
             (dict_fromkeys (file_codes sample_cj3 [0x65E5]))
             (dict_fromkeys (file_codes [] [0x65E5]))).
Proof.
  split; [vm_compute; reflexivity|].
  split; [vm_compute; reflexivity|].
  vm_compute. discriminate.
Qed.

(** C5, amended: the codes of each system appear in the definition in
    ascending order of the code strings (code point by code point): the
    sorted list of the file's codes without duplicates, which is strictly
    ascending and has the same members as the first-encountered list;
    this holds whatever order the loader's sets are walked in. *)
Theorem codes_in_sorted_order
    (iter_set : list str -> list str) (text3 text5 ch : str) :
  (forall l, Permutation (iter_set l) l) ->
  let first3 := dict_fromkeys (file_codes text3 ch) in
  let first5 := dict_fromkeys (file_codes text5 ch) in
  first3 <> [] \/ first5 <> [] ->
  dict_get ch (compose_entries iter_set (load_cangjie_table text3)
                               (load_cangjie_table text5))
  = Some (definition_text (sorted first3) (sorted first5)) /\
  StronglySorted str_lt (sorted first3) /\
  StronglySorted str_lt (sorted first5) /\
  Permutation (sorted first3) first3 /\
  Permutation (sorted first5) first5.
Proof.
  intros Hp first3 first5 H.
  destruct (@sorted_codes_facts iter_set text3 ch Hp) as (E3 & _ & S3 & P3).
  destruct (@sorted_codes_facts iter_set text5 ch Hp) as (E5 & _ & S5 & P5).
  fold first3 in E3, P3. fold first5 in E5, P5.
  rewrite E3 in S3, P3. rewrite E5 in S5, P5.
  repeat split; auto.
  rewrite (@compose_entries_get iter_set Hp _ _ (load_ok text3)
                                (load_ok text5)).
  unfold composed. rewrite E3, E5.
  destruct (sorted first3) eqn:F3; destruct (sorted first5) eqn:F5;
    try reflexivity.
  destruct H as [H | H]; exfalso; apply H; apply Permutation_nil;
    [exact P3 | exact P5].
Qed.

Lemma codes_in_sorted_order_witness :
  dict_get [0x65E5]
           (compose_entries (@rev str) (load_cangjie_table sample_cj3)
                            (load_cangjie_table sample_cj5))
  = Some (definition_text (sorted [lit "b"; lit "a"]) (sorted [lit "b"])).
Proof.
  assert (H : dict_fromkeys (file_codes sample_cj3 [0x65E5]) <> [])
    by (vm_compute; discriminate).
  generalize (proj1 (@codes_in_sorted_order (@rev str)
                       sample_cj3 sample_cj5 [0x65E5]
                       (fun l => Permutation_sym (Permutation_rev l))
                       (or_introl H))).
  vm_compute. exact (fun E => E).
Defined.

(* ------------------------------------------------------------------ *)
(** ** The entries loop of [build_pqb] *)

Lemma existsb_uid (u : Z) (l : list entry_row) :
  existsb (fun r => e_uid r =? u) l = true <-> In u (map e_uid l).
Proof.
  rewrite existsb_exists, in_map_iff.
  split; intros (r & H1 & H2); exists r.
  - apply Z.eqb_eq in H2. auto.
  - split; auto. apply Z.eqb_eq. auto.
Qed.

Lemma existsb_sortkey (k : str) (l : list entry_row) :
  existsb (fun r => str_eqb (e_sortkey r) k) l = true
  <-> In k (map e_sortkey l).
Proof.
  rewrite existsb_exists, in_map_iff.
  split; intros (r & H1 & H2); exists r.
  - apply str_eqb_eq in H2. auto.
  - split; auto. apply str_eqb_eq. auto.
Qed.

Lemma insert_entry_ok (row : entry_row) (d d' : db) :
  insert_entry row d = Ok d' ->
  ~ In (e_uid row) (map e_uid (pleco_dict_entries d)) /\
  ~ In (e_sortkey row) (map e_sortkey (pleco_dict_entries d)) /\
  d' = mkDb (pleco_dict_entries d ++ [row]) (pleco_dict_imports d)
            (pleco_dict_properties d) (posdex_hz d) (posdex_py d).
Proof.
  unfold insert_entry.
  destruct (existsb (fun r => e_uid r =? _) _) eqn:E1; [discriminate|].
  destruct (existsb (fun r => str_eqb _ _) _) eqn:E2; [discriminate|].
  intros [= <-]. repeat split; auto.
  - rewrite <- existsb_uid. congruence.
  - rewrite <- existsb_sortkey. congruence.
Qed.

Lemma insert_entry_fresh (row : entry_row) (d : db) :
  ~ In (e_uid row) (map e_uid (pleco_dict_entries d)) ->
  ~ In (e_sortkey row) (map e_sortkey (pleco_dict_entries d)) ->
  insert_entry row d
  = Ok (mkDb (pleco_dict_entries d ++ [row]) (pleco_dict_imports d)
             (pleco_dict_properties d) (posdex_hz d) (posdex_py d)).
Proof.
  intros H1 H2. unfold insert_entry.
  rewrite <- existsb_uid in H1. rewrite <- existsb_sortkey in H2.
  apply not_true_is_false in H1, H2. rewrite H1, H2. reflexivity.
Qed.

Lemma insert_entry_raise (row : entry_row) (d : db) (e : exn) :
  insert_entry row d = Raise e ->
  (exists msg, e = IntegrityError msg) /\
  (In (e_uid row) (map e_uid (pleco_dict_entries d)) \/
   In (e_sortkey row) (map e_sortkey (pleco_dict_entries d))).
Proof.
  unfold insert_entry.
  destruct (existsb (fun r => e_uid r =? _) _) eqn:E1.
  - intros [= <-]. split; eauto. left. apply existsb_uid; auto.
  - destruct (existsb (fun r => str_eqb _ _) _) eqn:E2; [|discriminate].
    intros [= <-]. split; eauto. right. apply existsb_sortkey; auto.
Qed.

Lemma for_each_ext (A S : Type) (f g : A -> S -> result S) (l : list A) :
  (forall x s, In x l -> f x s = g x s) ->
  forall s, for_each f l s = for_each g l s.
Proof.
  induction l as [|x l IH]; intros H s; simpl; auto.
  rewrite H by (left; auto). destruct (g x s); simpl; auto.
  apply IH. intros y s' Hy. apply H. right; auto.
Qed.

Section BuildLoop.
Variable pypinyin_pinyin : str -> list (list str).
Variable entries : dict str.
Variable now : Z.

Lemma build_entry_eq (ch : str) (d : db) (uid : Z) :
  build_entry pypinyin_pinyin entries now ch (d, uid)
  = match dict_get ch entries with
    | None => Raise (KeyError ch)
    | Some defn =>
        d1 <- insert_entry
                (mkEntry uid now now 1 ch None (pron_of pypinyin_pinyin ch)
                         defn (sortkey_of pypinyin_pinyin ch)) d ;;
        Ok (with_posdex uid ch (pron_of pypinyin_pinyin ch) d1, uid + 1)
    end.
Proof.
  unfold build_entry. cbn [fst snd].
  destruct (dict_get ch entries); auto.
  fold (pron_of pypinyin_pinyin ch). fold (sortkey_of pypinyin_pinyin ch).
  destruct (insert_entry _ d); cbn [bind]; auto.
  rewrite insert_posdex_eq. reflexivity.
Qed.

(** The store after a loop that ran to its end. *)
Lemma build_loop_ok (keys : list str) :
  forall (d : db) (uid : Z) (st : db * Z),
    for_each (build_entry pypinyin_pinyin entries now) keys (d, uid) = Ok st ->
    snd st = uid + Z.of_nat (length keys) /\
    pleco_dict_entries (fst st)
    = pleco_dict_entries d
        ++ entry_rows pypinyin_pinyin entries now uid keys /\
    pleco_dict_imports (fst st) = pleco_dict_imports d /\
    pleco_dict_properties (fst st) = pleco_dict_properties d /\
    (forall i, family_table i (posdex_hz (fst st))
               = family_table i (posdex_hz d) ++ hz_rows i uid keys) /\
    (forall i, family_table i (posdex_py (fst st))
               = family_table i (posdex_py d)
                   ++ py_rows pypinyin_pinyin i uid keys) /\
    (NoDup (map e_sortkey (pleco_dict_entries d)) ->
     NoDup (map e_sortkey (pleco_dict_entries (fst st)))).
Proof.
  induction keys as [|ch keys IH]; intros d uid st.
  - simpl. intros [= <-]. simpl. rewrite !app_nil_r.
    repeat split; auto; try lia; intros; rewrite app_nil_r; auto.
  - cbn [for_each]. rewrite build_entry_eq.
    destruct (dict_get ch entries) as [defn|] eqn:Eg; [|discriminate].
    destruct (insert_entry _ d) as [d1|] eqn:Ei; [|discriminate].
    cbn [bind]. intros H. apply IH in H.
    apply insert_entry_ok in Ei as (Hu & Hs & ->).
    cbn [e_uid e_sortkey] in Hu, Hs.
    destruct H as (H1 & H2 & H3 & H4 & H5 & H6 & H7).
    unfold with_posdex in *.
    cbn [pleco_dict_entries pleco_dict_imports pleco_dict_properties
         posdex_hz posdex_py] in *.
    split; [rewrite H1, length_cons; lia|].
    split; [rewrite H2, <- app_assoc; cbn [entry_rows app];
            unfold defn_of; rewrite Eg; reflexivity|].
    split; [auto|]. split; [auto|].
    split; [intros i; rewrite H5, family_append_table, <- app_assoc;
            reflexivity|].
    split; [intros i; rewrite H6, family_append_table, <- app_assoc;
            reflexivity|].
    intros N. apply H7. rewrite map_app. cbn [map e_sortkey].
    apply (Permutation_NoDup (l := sortkey_of pypinyin_pinyin ch
                                     :: map e_sortkey (pleco_dict_entries d))).
    + apply Permutation_cons_append.
    + constructor; auto.
Qed.

(** A loop is left only by the [UNIQUE] constraint or a missing key. *)
Lemma build_loop_raise (keys : list str) :
  forall (d : db) (uid : Z) (e : exn),
    for_each (build_entry pypinyin_pinyin entries now) keys (d, uid)
    = Raise e ->
    (exists msg, e = IntegrityError msg) \/
    (exists k, e = KeyError k /\ In k keys /\ ~ In k (dict_keys entries)).
Proof.
  induction keys as [|ch keys IH]; intros d uid e; [discriminate|].
  cbn [for_each]. rewrite build_entry_eq.
  destruct (dict_get ch entries) as [defn|] eqn:Eg.
  - destruct (insert_entry _ d) as [d1|e1] eqn:Ei; cbn [bind].
    + intros H. apply IH in H as [H | (k & H1 & H2 & H3)]; auto.
      right. exists k. simpl. auto.
    + intros [= <-]. left. apply insert_entry_raise in Ei. tauto.
  - cbn [bind]. intros [= <-]. right. exists ch. split; auto.
    split; [left; auto|]. apply dict_get_None; auto.
Qed.

Lemma entry_rows_uid (uid : Z) (keys : list str) :
  map e_uid (entry_rows pypinyin_pinyin entries now uid keys)
  = uid_range uid (length keys).
Proof.
  revert uid; induction keys as [|ch keys IH]; intros uid; simpl; auto.
  rewrite IH. reflexivity.
Qed.

Lemma entry_rows_word (uid : Z) (keys : list str) :
  map e_word (entry_rows pypinyin_pinyin entries now uid keys) = keys.
Proof.
  revert uid; induction keys as [|ch keys IH]; intros uid; simpl; auto.
  rewrite IH. reflexivity.
Qed.

Lemma entry_rows_sortkey (uid : Z) (keys : list str) :
  map e_sortkey (entry_rows pypinyin_pinyin entries now uid keys)
  = map (sortkey_of pypinyin_pinyin) keys.
Proof.
  revert uid; induction keys as [|ch keys IH]; intros uid; simpl; auto.
  rewrite IH. reflexivity.
Qed.

Lemma entry_rows_columns (uid : Z) (keys : list str) :
  Forall (fun row =>
            e_sortkey row = sortkey_of pypinyin_pinyin (e_word row) /\
            e_defn row = defn_of entries (e_word row))
         (entry_rows pypinyin_pinyin entries now uid keys).
Proof.
  revert uid; induction keys as [|ch keys IH]; intros uid; simpl;
    constructor; auto.
Qed.

End BuildLoop.

Lemma uid_range_In (x uid : Z) (n : nat) :
  In x (uid_range uid n) <-> uid <= x < uid + Z.of_nat n.
Proof.
  revert uid; induction n as [|n IH]; intros uid; simpl; [lia|].
  rewrite IH. lia.
Qed.

(* ------------------------------------------------------------------ *)
(** ** Dicts up to the order of insertion *)

Lemma dict_get_In (V : Type) (k : str) (v : V) (d : dict V) :
  NoDup (dict_keys d) -> (dict_get k d = Some v <-> In (k, v) d).
Proof.
  induction d as [|[k0 v0] d IH]; simpl; intros N.
  - split; [discriminate | tauto].
  - inversion N as [|? ? Hk N']; subst.
    destruct (str_eqb k0 k) eqn:E.
    + apply str_eqb_eq in E; subst k0. split.
      * intros [= ->]. auto.
      * intros [[= ->] | H]; auto.
        exfalso. apply Hk. apply in_map_iff. exists (k, v). auto.
    + apply str_eqb_neq in E. rewrite IH by auto. split; auto.
      intros [[= -> ->] | H]; [congruence | auto].
Qed.

Lemma dict_get_perm (V : Type) (k : str) (d d' : dict V) :
  NoDup (dict_keys d) -> Permutation d' d -> dict_get k d' = dict_get k d.
Proof.
  intros N P.
  assert (N' : NoDup (dict_keys d')).
  { eapply Permutation_NoDup; [|exact N].
    apply Permutation_map, Permutation_sym, P. }
  destruct (dict_get k d) as [v|] eqn:E.
  - apply dict_get_In; auto. apply dict_get_In in E; auto.
    eapply Permutation_in; [symmetry; exact P | exact E].
  - destruct (dict_get k d') as [v'|] eqn:E'; auto.
    apply dict_get_In in E'; auto.
    assert (H : In (k, v') d) by (eapply Permutation_in; eauto).
    apply dict_get_In in H; auto. congruence.
Qed.

Lemma NoDup_map_eq (A B : Type) (f : A -> B) (l : list A) (a b : A) :
  NoDup (map f l) -> In a l -> In b l -> f a = f b -> a = b.
Proof.
  induction l as [|x l IH]; simpl; [tauto|].
  intros N Ha Hb E. inversion N as [|? ? Hx N']; subst.
  destruct Ha as [-> | Ha]; destruct Hb as [-> | Hb]; auto.
  - exfalso. apply Hx. rewrite E. apply in_map; auto.
  - exfalso. apply Hx. rewrite <- E. apply in_map; auto.
Qed.

(* ------------------------------------------------------------------ *)
(** ** [build_pqb] *)

Lemma write_properties_tables (dict_name menu_name short_name icon : str)
    (entry_count now file_id file_creator : Z) (d : db) :
  let d' := write_properties dict_name menu_name short_name icon
                             entry_count now file_id file_creator d in
  pleco_dict_entries d' = pleco_dict_entries d /\
  pleco_dict_imports d' = pleco_dict_imports d /\
  posdex_hz d' = posdex_hz d /\ posdex_py d' = posdex_py d.
Proof.
  unfold write_properties.
  match goal with
  | |- context [fold_left ?f ?l d] => generalize l as props; intros props
  end.
  revert d; induction props as [|p props IH]; intros d; simpl; auto.
  destruct (IH (replace_property
                  (mkProp 0 (fst (fst p)) (snd (fst p)) (snd p)) d))
    as (H1 & H2 & H3 & H4).
  simpl in *. auto.
Qed.

Section BuildStore.
Variable pypinyin_pinyin : str -> list (list str).
Variables dict_name menu_name short_name icon : str.
Variables now file_id file_creator : Z.

(** The store of a build that reached its commit. *)
Lemma build_rows_ok (entries : dict str) (d d' : db) :
  build_rows pypinyin_pinyin entries dict_name menu_name short_name icon
             now file_id file_creator d = Ok d' ->
  let keys := sorted (dict_keys entries) in
  pleco_dict_entries d'
  = pleco_dict_entries d ++ entry_rows pypinyin_pinyin entries now 1 keys /\
  pleco_dict_imports d'
  = pleco_dict_imports d
      ++ [mkImport (Z.of_nat (length (pleco_dict_imports d)) + 1)
                   now now 1 (Z.of_nat (length keys))] /\
  (forall i, family_table i (posdex_hz d')
             = family_table i (posdex_hz d) ++ hz_rows i 1 keys) /\
  (forall i, family_table i (posdex_py d')
             = family_table i (posdex_py d)
                 ++ py_rows pypinyin_pinyin i 1 keys) /\
  (NoDup (map e_sortkey (pleco_dict_entries d)) ->
   NoDup (map e_sortkey (pleco_dict_entries d'))).
Proof.
  intros H keys. unfold build_rows in H. fold keys in H.
  destruct (for_each _ keys (d, 1)) as [st|] eqn:E; [|discriminate].
  cbn [bind] in H. injection H as <-.
  apply build_loop_ok in E as (H1 & H2 & H3 & H4 & H5 & H6 & H7).
  match goal with
  | |- context [write_properties ?a ?b ?c ?e ?n ?t ?i ?j (fst st)] =>
      destruct (write_properties_tables a b c e n t i j (fst st))
        as (W1 & W2 & W3 & W4);
      revert W1 W2 W3 W4;
      generalize (write_properties a b c e n t i j (fst st)) as dw
  end.
  intros dw W1 W2 W3 W4. unfold insert_import.
  cbn [pleco_dict_entries pleco_dict_imports posdex_hz posdex_py].
  rewrite W1, W2, W3, W4, H2, H3.
  replace (snd st - 1) with (Z.of_nat (length keys)) by lia.
  repeat split; auto. rewrite <- H2. exact H7.
Qed.

Lemma build_rows_raise (entries : dict str) (d : db) (e : exn) :
  build_rows pypinyin_pinyin entries dict_name menu_name short_name icon
             now file_id file_creator d = Raise e ->
  exists msg, e = IntegrityError msg.
Proof.
  unfold build_rows.
  destruct (for_each _ _ (d, 1)) as [st|e'] eqn:E; [discriminate|].
  cbn [bind]. intros [= <-].
  apply build_loop_raise in E as [H | (k & _ & H1 & H2)]; auto.
  exfalso. apply H2. apply (proj1 (sorted_In k (dict_keys entries))).
  exact H1.
Qed.

(** The build depends on the entries dict through its members only, not
    through the order in which they were inserted. *)
Lemma build_rows_perm (entries entries' : dict str) (d : db) :
  NoDup (dict_keys entries) -> Permutation entries' entries ->
  build_rows pypinyin_pinyin entries' dict_name menu_name short_name icon
             now file_id file_creator d
  = build_rows pypinyin_pinyin entries dict_name menu_name short_name icon
               now file_id file_creator d.
Proof.
  intros N P. unfold build_rows.
  assert (K : sorted (dict_keys entries') = sorted (dict_keys entries)).
  { apply sorted_unique. apply Permutation_map. exact P. }
  rewrite K.
  rewrite (for_each_ext (build_entry pypinyin_pinyin entries' now)
                        (build_entry pypinyin_pinyin entries now)); auto.
  intros ch [d0 uid] _. rewrite !build_entry_eq.
  rewrite (dict_get_perm ch N P). reflexivity.
Qed.

Lemma sortkey_of_single_inj (a b : str) :
  length a = 1%nat -> length b = 1%nat ->
  sortkey_of pypinyin_pinyin a = sortkey_of pypinyin_pinyin b -> a = b.
Proof.
  intros Ha Hb. unfold sortkey_of.
  rewrite !make_sortkey_single by auto.
  apply length_one in Ha as [x ->]. apply length_one in Hb as [y ->].
  intros E. apply app_inj_tail in E as [_ ->]. reflexivity.
Qed.

(** Over distinct one-character words the loop cannot fail. *)
Lemma build_loop_single (entries : dict str) (keys : list str) :
  forall (d : db) (uid : Z),
    NoDup keys ->
    (forall k, In k keys ->
               length k = 1%nat /\ In k (dict_keys entries)) ->
    (forall r, In r (pleco_dict_entries d) ->
               e_uid r < uid /\
               exists k, length k = 1%nat /\ ~ In k keys /\
                         e_sortkey r = sortkey_of pypinyin_pinyin k) ->
    exists st,
      for_each (build_entry pypinyin_pinyin entries now) keys (d, uid)
      = Ok st.
Proof.
  induction keys as [|ch keys IH]; intros d uid N Hk Hd.
  - simpl. eauto.
  - cbn [for_each]. rewrite build_entry_eq.
    inversion N as [|? ? Hch N']; subst.
    destruct (Hk ch (or_introl eq_refl)) as (Hl & Hin).
    apply dict_get_In_keys in Hin as (defn & ->).
    rewrite insert_entry_fresh; cbn [e_uid e_sortkey bind].
    + apply IH; auto.
      * intros k Hk'. apply Hk. right; auto.
      * unfold with_posdex. cbn [pleco_dict_entries].
        intros r Hr. apply in_app_or in Hr as [Hr | [<- | []]].
        -- destruct (Hd r Hr) as (Hu & k & Hk1 & Hk2 & Hk3).
           split; [lia|]. exists k. repeat split; auto.
           intros H. apply Hk2. right; auto.
        -- cbn [e_uid e_sortkey]. split; [lia|]. exists ch. auto.
    + intros H. apply in_map_iff in H as (r & H1 & H2).
      destruct (Hd r H2) as (Hu & _). lia.
    + intros H. apply in_map_iff in H as (r & H1 & H2).
      destruct (Hd r H2) as (_ & k & Hk1 & Hk2 & Hk3).
      apply Hk2. left. symmetry. apply sortkey_of_single_inj; auto.
      congruence.
Qed.

Lemma build_rows_single (entries : dict str) :
  NoDup (dict_keys entries) ->
  Forall (fun k => length k = 1%nat) (dict_keys entries) ->
  exists d',
    build_rows pypinyin_pinyin entries dict_name menu_name short_name icon
               now file_id file_creator schema_db = Ok d'.
Proof.
  intros N F. unfold build_rows.
  destruct (@build_loop_single entries (sorted (dict_keys entries))
              schema_db 1) as (st & ->).
  - apply sorted_NoDup; auto.
  - intros k Hk. apply (proj1 (sorted_In k (dict_keys entries))) in Hk.
    split; auto. rewrite Forall_forall in F. auto.
  - simpl. tauto.
  - cbn [bind]. eauto.
Qed.

End BuildStore.

Lemma build_pqb_eq (pypinyin_pinyin : str -> list (list str))
    (fs : option db) (entries : dict str)
    (dict_name menu_name short_name icon : str)
    (now file_id file_creator : Z) :
  build_pqb pypinyin_pinyin fs entries dict_name menu_name short_name icon
            now file_id file_creator
  = match build_rows pypinyin_pinyin entries dict_name menu_name short_name
                     icon now file_id file_creator schema_db with
    | Ok working => (Ok tt, Some working)
    | Raise e => (Raise e, Some schema_db)
    end.
Proof. unfold build_pqb. destruct fs; reflexivity. Qed.

Lemma sorted_codepoints (l : list str) :
  NoDup l -> Forall (fun k => length k = 1%nat) l ->
  StronglySorted codepoint_lt (sorted l).
Proof.
  intros N F.
  assert (S : StronglySorted str_lt (sorted l))
    by (apply StronglySorted_le_lt; [apply sorted_NoDup | apply sorted_Sorted];
        auto).
  assert (F' : Forall (fun k => length k = 1%nat) (sorted l))
    by (eapply Permutation_Forall; [symmetry; apply sorted_perm | auto]).
  induction S as [|a s S IH Ha]; constructor.
  - apply IH. inversion F'; auto.
  - inversion F' as [|? ? La Fs]; subst.
    rewrite Forall_forall in *. intros b Hb.
    apply length_one in La as [x ->].
    destruct (proj1 (length_one b) (Fs b Hb)) as [y ->].
    exists x, y. repeat split. apply str_lt_single. apply Ha. auto.
Qed.

(** C3: over distinct one-character words the build commits; the [uid]s
    of the entries table are [1 .. N] in the order of the rows, the words
    of the rows ascend by code point, the import log has the single row
    [1 .. N], and the store is the same whatever the order in which the
    entries were inserted into the dict. *)
Theorem uids_dense_in_codepoint_order
    (pypinyin_pinyin : str -> list (list str))
    (fs : option db) (entries : dict str)
    (dict_name menu_name short_name icon : str)
    (now file_id file_creator : Z) :
  NoDup (dict_keys entries) ->
  Forall (fun k => length k = 1%nat) (dict_keys entries) ->
  exists d,
    build_pqb pypinyin_pinyin fs entries dict_name menu_name short_name icon
              now file_id file_creator = (Ok tt, Some d) /\
    map e_uid (pleco_dict_entries d) = uid_range 1 (length entries) /\
    (forall u, In u (map e_uid (pleco_dict_entries d))
               <-> 1 <= u <= Z.of_nat (length entries)) /\
    map e_word (pleco_dict_entries d) = sorted (dict_keys entries) /\
    StronglySorted codepoint_lt (map e_word (pleco_dict_entries d)) /\
    pleco_dict_imports d
    = [mkImport 1 now now 1 (Z.of_nat (length entries))] /\
    (forall entries',
        Permutation entries' entries ->
        build_pqb pypinyin_pinyin fs entries' dict_name menu_name short_name
                  icon now file_id file_creator = (Ok tt, Some d)).
Proof.
  intros N F.
  destruct (@build_rows_single pypinyin_pinyin dict_name menu_name short_name
              icon now file_id file_creator entries N F) as (d & Hd).
  exists d. rewrite build_pqb_eq, Hd. split; [reflexivity|].
  pose proof (build_rows_ok _ _ _ _ _ _ _ _ _ _ Hd) as (H1 & H2 & _).
  cbn [schema_db pleco_dict_entries pleco_dict_imports app length] in H1, H2.
  assert (L : length (sorted (dict_keys entries)) = length entries).
  { rewrite sorted_length. unfold dict_keys. apply length_map. }
  rewrite L in H2.
  assert (U : map e_uid (pleco_dict_entries d)
              = uid_range 1 (length entries)).
  { rewrite H1, entry_rows_uid, L. reflexivity. }
  assert (W : map e_word (pleco_dict_entries d) = sorted (dict_keys entries)).
  { rewrite H1. apply entry_rows_word. }
  split; [exact U|].
  split; [intros u; rewrite U, uid_range_In; lia|].
  split; [exact W|].
  split; [rewrite W; apply sorted_codepoints; auto|].
  split; [exact H2|].
  intros entries' P. rewrite build_pqb_eq.
  rewrite (@build_rows_perm pypinyin_pinyin dict_name menu_name short_name
             icon now file_id file_creator entries entries' schema_db N P).
  rewrite Hd. reflexivity.
Qed.

Lemma sample_entries_keys :
  NoDup (dict_keys sample_entries) /\
  Forall (fun k => length k = 1%nat) (dict_keys sample_entries).
Proof.
  split.
  - cbn. constructor; [intros [H | []]; discriminate|].
    constructor; [intros []|constructor].
  - repeat constructor.
Qed.

Lemma uids_dense_in_codepoint_order_witness :
  exists d,
    build_pqb pinyin_sample None sample_entries
              (lit "D") (lit "M") (lit "S") (lit "CJ") 1700000000 (-5) 7
    = (Ok tt, Some d) /\
    map e_uid (pleco_dict_entries d) = [1; 2] /\
    map e_word (pleco_dict_entries d) = [[0x65E5]; [0x6708]] /\
    pleco_dict_imports d = [mkImport 1 1700000000 1700000000 1 2].
Proof.
  destruct (@uids_dense_in_codepoint_order pinyin_sample None sample_entries
              (lit "D") (lit "M") (lit "S") (lit "CJ") 1700000000 (-5) 7
              (proj1 sample_entries_keys) (proj2 sample_entries_keys))
    as (d & H1 & H2 & _ & H3 & _ & H4 & _).
  exists d. repeat split; assumption.
Defined.

(** C4: if two distinct words of the entries would get the same sort key,
    [build_pqb] raises [sqlite3.IntegrityError] (exit status 1); and a
    build that commits stores one row per word, each with its own
    definition and sort key, with no sort key twice. *)
Theorem sortkey_collision_is_fatal
    (pypinyin_pinyin : str -> list (list str))
    (fs : option db) (entries : dict str)
    (dict_name menu_name short_name icon : str)
    (now file_id file_creator : Z) :
  let outcome :=
    build_pqb pypinyin_pinyin fs entries dict_name menu_name short_name icon
              now file_id file_creator in
  (forall k1 k2,
      In k1 (dict_keys entries) -> In k2 (dict_keys entries) -> k1 <> k2 ->
      sortkey_of pypinyin_pinyin k1 = sortkey_of pypinyin_pinyin k2 ->
      (exists msg, fst outcome = Raise (IntegrityError msg)) /\
      exit_status (fst outcome) = 1) /\
  (forall d,
      outcome = (Ok tt, Some d) ->
      NoDup (map e_sortkey (pleco_dict_entries d)) /\
      map e_word (pleco_dict_entries d) = sorted (dict_keys entries) /\
      Forall (fun row =>
                e_sortkey row = sortkey_of pypinyin_pinyin (e_word row) /\
                e_defn row = defn_of entries (e_word row))
             (pleco_dict_entries d)).
Proof.
  intros outcome. unfold outcome. rewrite build_pqb_eq.
  destruct (build_rows pypinyin_pinyin entries dict_name menu_name short_name
                       icon now file_id file_creator schema_db)
    as [d|e] eqn:E.
  - pose proof (build_rows_ok _ _ _ _ _ _ _ _ _ _ E) as (H1 & _ & _ & _ & H5).
    cbn [schema_db pleco_dict_entries app map] in H1, H5.
    specialize (H5 (NoDup_nil _)).
    split.
    + intros k1 k2 I1 I2 Hne Hk. exfalso. apply Hne.
      rewrite H1, entry_rows_sortkey in H5.
      apply (NoDup_map_eq _ _ k1 k2 H5); auto; apply sorted_In; auto.
    + intros d' [= <-]. split; [exact H5|].
      split; [rewrite H1; apply entry_rows_word|].
      rewrite H1. apply entry_rows_columns.
  - apply build_rows_raise in E as (msg & ->). split.
    + intros. split; [exists msg|]; reflexivity.
    + intros d [=].
Qed.

Lemma sortkey_collision_is_fatal_witness :
  exists msg,
    fst (build_pqb pinyin_sample None sample_colliding
                   (lit "D") (lit "M") (lit "S") (lit "CJ") 1700000000 (-5) 7)
    = Raise (IntegrityError msg).
Proof.
  refine (proj1 (proj1 (@sortkey_collision_is_fatal pinyin_sample None
                          sample_colliding (lit "D") (lit "M") (lit "S")
                          (lit "CJ") 1700000000 (-5) 7)
                       (lit "a") (lit "ab") _ _ _ _)).
  - left; reflexivity.
  - right; left; reflexivity.
  - discriminate.
  - reflexivity.
Defined.

(** C8 as stated fails: the build over [sample_colliding] raises at its
    second insert, and the store file, with its empty tables, is at the
    target path afterwards. *)
Lemma failed_build_leaves_file :
  build_pqb pinyin_sample None sample_colliding
            (lit "D") (lit "M") (lit "S") (lit "CJ") 1700000000 (-5) 7
  = (Raise (IntegrityError
              (lit "UNIQUE constraint failed: pleco_dict_entries.sortkey")),
     Some schema_db) /\
  snd (build_pqb pinyin_sample None sample_colliding
                 (lit "D") (lit "M") (lit "S") (lit "CJ") 1700000000 (-5) 7)
  <> None.
Proof.
  split; [vm_compute; reflexivity | vm_compute; discriminate].
Qed.

(** C8, amended: a build that fails between the creation of the store and
    the commit leaves at the target path the store as the schema
    statements made it: every table exists and is empty, so none of the
    rows written before the failure is kept, and whatever was at the path
    before the build is gone; the failure is the [UNIQUE] violation. *)
Theorem failed_build_leaves_schema
    (pypinyin_pinyin : str -> list (list str))
    (fs : option db) (entries : dict str)
    (dict_name menu_name short_name icon : str)
    (now file_id file_creator : Z) (e : exn) :
  fst (build_pqb pypinyin_pinyin fs entries dict_name menu_name short_name
                 icon now file_id file_creator) = Raise e ->
  snd (build_pqb pypinyin_pinyin fs entries dict_name menu_name short_name
                 icon now file_id file_creator) = Some schema_db /\
  pleco_dict_entries schema_db = [] /\
  pleco_dict_imports schema_db = [] /\
  pleco_dict_properties schema_db = [] /\
  (forall i, family_table i (posdex_hz schema_db) = [] /\
             family_table i (posdex_py schema_db) = []) /\
  exists msg, e = IntegrityError msg.
Proof.
  rewrite build_pqb_eq.
  destruct (build_rows pypinyin_pinyin entries dict_name menu_name short_name
                       icon now file_id file_creator schema_db)
    as [d|e'] eqn:E; [discriminate|].
  cbn [fst snd]. intros [= <-].
  repeat split; try reflexivity.
  - do 5 (destruct i as [|i]; try reflexivity).
  - do 5 (destruct i as [|i]; try reflexivity).
  - eapply build_rows_raise; eauto.
Qed.

Lemma failed_build_leaves_schema_witness :
  snd (build_pqb pinyin_sample (Some schema_db) sample_colliding
                 (lit "D") (lit "M") (lit "S") (lit "CJ") 1700000000 (-5) 7)
  = Some schema_db.
Proof.
  refine (proj1 (@failed_build_leaves_schema pinyin_sample (Some schema_db)
                   sample_colliding (lit "D") (lit "M") (lit "S") (lit "CJ")
                   1700000000 (-5) 7
                   (IntegrityError
                      (lit "UNIQUE constraint failed: pleco_dict_entries.sortkey"))
                   _)).
  vm_compute. reflexivity.
Defined.

(* ------------------------------------------------------------------ *)
(** ** [main] *)

Lemma compose_entries_empty (iter_set : list str -> list str) :
  (forall l, Permutation (iter_set l) l) ->
  compose_entries iter_set [] [] = [].
Proof.
  intros Hp. unfold compose_entries. simpl.
  assert (E : iter_set [] = [])
    by (apply Permutation_nil, Permutation_sym, Hp).
  rewrite E. reflexivity.
Qed.

(** C9: when neither table holds a character, [main] raises [SystemExit]
    with its message (exit status 1) before [build_pqb] is entered: the
    file system is as it was, so no file has been created at the target
    path. *)
Theorem no_entries_abort
    (pypinyin_pinyin : str -> list (list str))
    (iter_set : list str -> list str)
    (fs : option db) (text3 text5 : str)
    (dict_name menu_name short_name icon : str)
    (now file_id file_creator : Z) :
  (forall l, Permutation (iter_set l) l) ->
  load_cangjie_table text3 = [] ->
  load_cangjie_table text5 = [] ->
  let outcome :=
    main pypinyin_pinyin iter_set fs text3 text5
         dict_name menu_name short_name icon now file_id file_creator in
  outcome = (Raise (SystemExit no_entries_message), fs) /\
  exit_status (fst outcome) = 1 /\
  (fs = None -> snd outcome = None).
Proof.
  intros Hp E3 E5 outcome.
  assert (E : outcome = (Raise (SystemExit no_entries_message), fs)).
  { unfold outcome, main. rewrite E3, E5, compose_entries_empty by auto.
    reflexivity. }
  rewrite E. repeat split. auto.
Qed.

Lemma no_entries_abort_witness :
  main pinyin_sample (@rev str) None [] sample_noise
       (lit "D") (lit "M") (lit "S") (lit "CJ") 1700000000 (-5) 7
  = (Raise (SystemExit no_entries_message), None).
Proof.
  refine (proj1 (@no_entries_abort pinyin_sample (@rev str) None
                   [] sample_noise (lit "D") (lit "M") (lit "S") (lit "CJ")
                   1700000000 (-5) 7
                   (fun l => Permutation_sym (Permutation_rev l)) _ _)).
  - reflexivity.
  - vm_compute. reflexivity.
Defined.

(* ------------------------------------------------------------------ *)
(** ** Entries without a transcription *)

Lemma position_rows_uid (units : list str) (uid wlen : Z) (i : nat)
    (r : posdex_row) :
  In r (position_rows units uid wlen i) -> px_uid r = uid.
Proof.
  destruct i as [|j]; simpl; [tauto|].
  destruct (nth_error _ j); simpl; [|tauto].
  intros [<- | []]. reflexivity.
Qed.

Section Rows.
Variable pypinyin_pinyin : str -> list (list str).
Variable entries : dict str.
Variable now : Z.

Lemma entry_rows_In (row : entry_row) (uid : Z) (keys : list str) :
  In row (entry_rows pypinyin_pinyin entries now uid keys) <->
  exists n ch,
    nth_error keys n = Some ch /\
    row = mkEntry (uid + Z.of_nat n) now now 1 ch None
                  (pron_of pypinyin_pinyin ch) (defn_of entries ch)
                  (sortkey_of pypinyin_pinyin ch).
Proof.
  revert uid; induction keys as [|k keys IH]; intros uid; simpl.
  - split; [tauto|]. intros ([|n] & ch & H & _); discriminate.
  - rewrite IH. split.
    + intros [<- | (n & ch & H1 & ->)].
      * exists O, k. split; auto.
        replace (uid + Z.of_nat 0) with uid by lia. reflexivity.
      * exists (S n), ch. split; auto.
        replace (uid + Z.of_nat (S n)) with (uid + 1 + Z.of_nat n) by lia.
        reflexivity.
    + intros ([|n] & ch & H1 & ->).
      * left. injection H1 as <-.
        replace (uid + Z.of_nat 0) with uid by lia. reflexivity.
      * right. exists n, ch. split; auto.
        replace (uid + Z.of_nat (S n)) with (uid + 1 + Z.of_nat n) by lia.
        reflexivity.
Qed.

Lemma hz_rows_In (r : posdex_row) (i : nat) (uid : Z) (keys : list str) :
  In r (hz_rows i uid keys) <->
  exists n ch,
    nth_error keys n = Some ch /\
    In r (position_rows (characters ch) (uid + Z.of_nat n)
                        (Z.of_nat (length ch)) i).
Proof.
  revert uid; induction keys as [|k keys IH]; intros uid; simpl.
  - split; [tauto|]. intros ([|n] & ch & H & _); discriminate.
  - rewrite in_app_iff, IH. split.
    + intros [H | (n & ch & H1 & H2)].
      * exists O, k. split; auto.
        replace (uid + Z.of_nat 0) with uid by lia. auto.
      * exists (S n), ch. split; auto.
        replace (uid + Z.of_nat (S n)) with (uid + 1 + Z.of_nat n) by lia.
        auto.
    + intros ([|n] & ch & H1 & H2).
      * left. injection H1 as <-.
        replace (uid + Z.of_nat 0) with uid in H2 by lia. auto.
      * right. exists n, ch. split; auto.
        replace (uid + Z.of_nat (S n)) with (uid + 1 + Z.of_nat n) in H2
          by lia.
        auto.
Qed.

Lemma py_rows_In (r : posdex_row) (i : nat) (uid : Z) (keys : list str) :
  In r (py_rows pypinyin_pinyin i uid keys) <->
  exists n ch,
    nth_error keys n = Some ch /\
    In r (position_rows (tokens is_space_or_at (pron_of pypinyin_pinyin ch))
                        (uid + Z.of_nat n) (Z.of_nat (length ch)) i).
Proof.
  revert uid; induction keys as [|k keys IH]; intros uid; simpl.
  - split; [tauto|]. intros ([|n] & ch & H & _); discriminate.
  - rewrite in_app_iff, IH. split.
    + intros [H | (n & ch & H1 & H2)].
      * exists O, k. split; auto.
        replace (uid + Z.of_nat 0) with uid by lia. auto.
      * exists (S n), ch. split; auto.
        replace (uid + Z.of_nat (S n)) with (uid + 1 + Z.of_nat n) by lia.
        auto.
    + intros ([|n] & ch & H1 & H2).
      * left. injection H1 as <-.
        replace (uid + Z.of_nat 0) with uid in H2 by lia. auto.
      * right. exists n, ch. split; auto.
        replace (uid + Z.of_nat (S n)) with (uid + 1 + Z.of_nat n) in H2
          by lia.
        auto.
Qed.

End Rows.

Lemma pron_of_no_syllable (pypinyin_pinyin : str -> list (list str))
    (ch : str) :
  mandarin_pinyin_tone3 pypinyin_pinyin ch = [[]] \/
  mandarin_pinyin_tone3 pypinyin_pinyin ch = [] ->
  pron_of pypinyin_pinyin ch = [].
Proof. unfold pron_of. intros [-> | ->]; reflexivity. Qed.

(** C10: the entry of a character for which the transcription gives no
    syllable is stored with an empty [pron]; no table of the py family
    holds a row with its [uid]; the table [posdex_hz_1] holds the row of
    the character itself with length 1. *)
Theorem unpronounced_entry_rows
    (pypinyin_pinyin : str -> list (list str))
    (fs : option db) (entries : dict str)
    (dict_name menu_name short_name icon : str)
    (now file_id file_creator : Z) (ch : str) :
  NoDup (dict_keys entries) ->
  Forall (fun k => length k = 1%nat) (dict_keys entries) ->
  In ch (dict_keys entries) ->
  mandarin_pinyin_tone3 pypinyin_pinyin ch = [[]] \/
  mandarin_pinyin_tone3 pypinyin_pinyin ch = [] ->
  exists d uid,
    build_pqb pypinyin_pinyin fs entries dict_name menu_name short_name icon
              now file_id file_creator = (Ok tt, Some d) /\
    (exists row, In row (pleco_dict_entries d) /\
                 e_word row = ch /\ e_uid row = uid /\ e_pron row = []) /\
    (forall row, In row (pleco_dict_entries d) -> e_word row = ch ->
                 e_uid row = uid /\ e_pron row = []) /\
    (forall i r, In r (family_table i (posdex_py d)) -> px_uid r <> uid) /\
    In (mkPosdex ch uid 1) (pos_1 (posdex_hz d)).
Proof.
  intros N F Hin Hpy.
  destruct (@build_rows_single pypinyin_pinyin dict_name menu_name short_name
              icon now file_id file_creator entries N F) as (d & Hd).
  pose proof (build_rows_ok _ _ _ _ _ _ _ _ _ _ Hd) as (H1 & _ & H3 & H4 & _).
  cbn [schema_db pleco_dict_entries app] in H1.
  set (keys := sorted (dict_keys entries)) in *.
  assert (Nk : NoDup keys) by (apply sorted_NoDup; auto).
  assert (Hk : In ch keys) by (apply sorted_In; auto).
  apply In_nth_error in Hk as (n & Hn).
  assert (Hp : pron_of pypinyin_pinyin ch = [])
    by (apply pron_of_no_syllable; auto).
  assert (Hl : length ch = 1%nat)
    by (rewrite Forall_forall in F; auto).
  exists d, (1 + Z.of_nat n). rewrite build_pqb_eq, Hd.
  split; [reflexivity|]. split; [|split; [|split]].
  - eexists. split.
    + rewrite H1. apply entry_rows_In. exists n, ch. split; eauto.
    + cbn [e_word e_uid e_pron]. auto.
  - intros row Hr Hw. rewrite H1 in Hr.
    apply entry_rows_In in Hr as (m & ch' & Hm & ->).
    cbn [e_word] in Hw. subst ch'. cbn [e_uid e_pron].
    assert (m = n).
    { apply (proj1 (NoDup_nth_error keys) Nk); [|congruence].
      apply nth_error_Some. congruence. }
    subst m. auto.
  - intros i r Hr Hu. rewrite H4 in Hr.
    assert (E : family_table i (posdex_py schema_db) = [])
      by (do 5 (destruct i as [|i]; try reflexivity)).
    rewrite E in Hr. cbn [app] in Hr.
    apply py_rows_In in Hr as (m & ch' & Hm & Hr).
    pose proof (position_rows_uid _ _ _ _ _ Hr) as Hu'.
    assert (m = n) by lia. subst m.
    assert (ch' = ch) by congruence. subst ch'.
    rewrite Hp in Hr. destruct i as [|[|j]]; simpl in Hr; auto.
  - change (pos_1 (posdex_hz d)) with (family_table 1 (posdex_hz d)).
    rewrite H3. cbn [schema_db posdex_hz family_table empty_family pos_1 app].
    apply hz_rows_In. exists n, ch. split; auto.
    apply length_one in Hl as [c ->]. left. reflexivity.
Qed.

Lemma unpronounced_entry_rows_witness :
  exists d uid,
    build_pqb pinyin_sample None sample_entries
              (lit "D") (lit "M") (lit "S") (lit "CJ") 1700000000 (-5) 7
    = (Ok tt, Some d) /\
    (exists row, In row (pleco_dict_entries d) /\
                 e_word row = [0x6708] /\ e_uid row = uid /\
                 e_pron row = []) /\
    (forall i r, In r (family_table i (posdex_py d)) -> px_uid r <> uid) /\
    In (mkPosdex [0x6708] uid 1) (pos_1 (posdex_hz d)).
Proof.
  destruct (@unpronounced_entry_rows pinyin_sample None sample_entries
              (lit "D") (lit "M") (lit "S") (lit "CJ") 1700000000 (-5) 7
              [0x6708]
              (proj1 sample_entries_keys) (proj2 sample_entries_keys)
              (or_introl eq_refl) (or_introl eq_refl))
    as (d & uid & H1 & H2 & _ & H3 & H4).
  exists d, uid. repeat split; assumption.
Defined.

(* ------------------------------------------------------------------ *)
(** ** The entries that [main] hands to [build_pqb] *)

Section MainEntries.
Variable iter_set : list str -> list str.
Hypothesis iter_set_perm : forall l, Permutation (iter_set l) l.
Variables cj3 cj5 : table.
Hypothesis cj3_ok : table_ok cj3.
Hypothesis cj5_ok : table_ok cj5.

Lemma compose_fold_keys (chars : list str) :
  forall entries : dict str,
    NoDup (dict_keys entries) ->
    NoDup (dict_keys (fold_left (compose_step iter_set cj3 cj5)
                                chars entries)) /\
    (forall k,
        In k (dict_keys (fold_left (compose_step iter_set cj3 cj5)
                                   chars entries)) ->
        In k (dict_keys entries) \/ In k chars).
Proof.
  induction chars as [|c chars IH]; intros entries N; simpl; auto.
  rewrite (@compose_step_composed iter_set iter_set_perm cj3 cj5 cj3_ok cj5_ok).
  destruct (composed iter_set cj3 cj5 c) as [v|].
  - destruct (IH (dict_set c v entries)) as (N' & K').
    + rewrite dict_keys_set. apply (set_add_NoDup c). exact N.
    + split; auto. intros k Hk. apply K' in Hk as [Hk | Hk]; auto.
      rewrite dict_keys_set in Hk.
      apply (set_add_In k c) in Hk as [Hk | ->]; auto.
  - destruct (IH entries N) as (N' & K'). split; auto.
    intros k Hk. apply K' in Hk as [Hk | Hk]; auto.
Qed.

(** The keys of the entries are distinct single characters. *)
Lemma compose_entries_keys :
  NoDup (dict_keys (compose_entries iter_set cj3 cj5)) /\
  Forall (fun k => length k = 1%nat)
         (dict_keys (compose_entries iter_set cj3 cj5)).
Proof.
  unfold compose_entries.
  destruct (@compose_fold_keys
              (iter_set (set_union (dict_keys cj3) (dict_keys cj5)))
              [] (NoDup_nil _)) as (N & K).
  split; auto. apply Forall_forall. intros k Hk.
  apply K in Hk as [[] | Hk].
  apply (Permutation_in k (iter_set_perm _)) in Hk.
  apply set_union_In in Hk as [Hk | Hk].
  - apply (@table_ok_key cj3 k cj3_ok Hk).
  - apply (@table_ok_key cj5 k cj5_ok Hk).
Qed.

(** A character of either table has an entry. *)
Lemma compose_entries_has (ch : str) :
  In ch (dict_keys cj3) \/ In ch (dict_keys cj5) ->
  exists defn, dict_get ch (compose_entries iter_set cj3 cj5) = Some defn.
Proof.
  intros H.
  rewrite (@compose_entries_get iter_set iter_set_perm cj3 cj5 cj3_ok cj5_ok).
  unfold composed.
  assert (P : forall t, table_get t ch <> [] ->
                        has_codes (sorted (iter_set (table_get t ch)))
                        = true).
  { intros t Ht.
    destruct (sorted (iter_set (table_get t ch))) eqn:E; auto.
    exfalso. apply Ht. apply (proj1 (sorted_nil_iff _)) in E.
    apply Permutation_nil. rewrite <- E. apply iter_set_perm. }
  destruct H as [H | H].
  - rewrite (P cj3) by (apply (proj2 (@table_ok_key cj3 ch cj3_ok H))).
    cbn [orb]. eauto.
  - rewrite (P cj5) by (apply (proj2 (@table_ok_key cj5 ch cj5_ok H))).
    rewrite orb_true_r. eauto.
Qed.

End MainEntries.

(** With a character in either table, [main] runs [build_pqb] on entries
    whose keys are distinct single characters. *)
Lemma main_runs_build
    (pypinyin_pinyin : str -> list (list str))
    (iter_set : list str -> list str)
    (fs : option db) (text3 text5 : str)
    (dict_name menu_name short_name icon : str)
    (now file_id file_creator : Z) :
  (forall l, Permutation (iter_set l) l) ->
  load_cangjie_table text3 <> [] \/ load_cangjie_table text5 <> [] ->
  let entries := compose_entries iter_set (load_cangjie_table text3)
                                 (load_cangjie_table text5) in
  main pypinyin_pinyin iter_set fs text3 text5
       dict_name menu_name short_name icon now file_id file_creator
  = build_pqb pypinyin_pinyin fs entries
              dict_name menu_name short_name icon now file_id file_creator /\
  NoDup (dict_keys entries) /\
  Forall (fun k => length k = 1%nat) (dict_keys entries).
Proof.
  intros Hp H entries.
  destruct (@compose_entries_keys iter_set Hp _ _ (load_ok text3)
                                  (load_ok text5)) as (N & F).
  repeat split; auto.
  unfold main. fold entries.
  assert (Hex : exists ch,
             In ch (dict_keys (load_cangjie_table text3)) \/
             In ch (dict_keys (load_cangjie_table text5))).
  { destruct H as [H | H].
    - destruct (load_cangjie_table text3) as [|[k v] t]; [congruence|].
      exists k. left. left. reflexivity.
    - destruct (load_cangjie_table text5) as [|[k v] t]; [congruence|].
      exists k. right. left. reflexivity. }
  destruct Hex as (ch & Hch).
  destruct (@compose_entries_has iter_set Hp _ _ (load_ok text3)
                                 (load_ok text5) ch Hch) as (defn & Hd).
  fold entries in Hd. destruct entries; [discriminate | reflexivity].
Qed.

Lemma composed_iter (iter1 iter2 : list str -> list str)
    (cj3 cj5 : table) (ch : str) :
  (forall l, Permutation (iter1 l) l) ->
  (forall l, Permutation (iter2 l) l) ->
  composed iter1 cj3 cj5 ch = composed iter2 cj3 cj5 ch.
Proof.
  intros P1 P2. unfold composed.
  assert (E : forall t, sorted (iter1 (table_get t ch))
                        = sorted (iter2 (table_get t ch))).
  { intros t. apply sorted_unique.
    rewrite P1. apply Permutation_sym, P2. }
  rewrite !E. reflexivity.
Qed.

Lemma dict_NoDup (V : Type) (d : dict V) : NoDup (dict_keys d) -> NoDup d.
Proof. apply NoDup_map_inv. Qed.

(** The entries are the same, up to their order in the dict, whatever the
    order in which the sets are walked. *)
Lemma compose_entries_perm (iter1 iter2 : list str -> list str)
    (cj3 cj5 : table) :
  (forall l, Permutation (iter1 l) l) ->
  (forall l, Permutation (iter2 l) l) ->
  table_ok cj3 -> table_ok cj5 ->
  Permutation (compose_entries iter1 cj3 cj5)
              (compose_entries iter2 cj3 cj5).
Proof.
  intros P1 P2 T3 T5.
  destruct (@compose_entries_keys iter1 P1 cj3 cj5 T3 T5) as (N1 & _).
  destruct (@compose_entries_keys iter2 P2 cj3 cj5 T3 T5) as (N2 & _).
  apply NoDup_Permutation; auto using dict_NoDup.
  intros [k v].
  rewrite <- !dict_get_In by auto.
  rewrite (@compose_entries_get iter1 P1 cj3 cj5 T3 T5).
  rewrite (@compose_entries_get iter2 P2 cj3 cj5 T3 T5).
  rewrite (@composed_iter iter1 iter2 cj3 cj5 k P1 P2). tauto.
Qed.

(** What [main] does (the outcome and the store) does not depend on the
    order in which Python walks the sets. *)
Lemma main_independent_of_set_order
    (pypinyin_pinyin : str -> list (list str))
    (iter1 iter2 : list str -> list str)
    (fs : option db) (text3 text5 : str)
    (dict_name menu_name short_name icon : str)
    (now file_id file_creator : Z) :
  (forall l, Permutation (iter1 l) l) ->
  (forall l, Permutation (iter2 l) l) ->
  main pypinyin_pinyin iter1 fs text3 text5
       dict_name menu_name short_name icon now file_id file_creator
  = main pypinyin_pinyin iter2 fs text3 text5
         dict_name menu_name short_name icon now file_id file_creator.
Proof.
  intros P1 P2.
  pose proof (@compose_entries_perm iter1 iter2 _ _ P1 P2
                (load_ok text3) (load_ok text5)) as P.
  destruct (@compose_entries_keys iter2 P2 _ _ (load_ok text3)
                                  (load_ok text5)) as (N2 & _).
  unfold main.
  destruct (compose_entries iter1 (load_cangjie_table text3)
                            (load_cangjie_table text5)) as [|e1 l1] eqn:E1.
  - apply Permutation_nil in P. rewrite P. reflexivity.
  - destruct (compose_entries iter2 (load_cangjie_table text3)
                              (load_cangjie_table text5)) as [|e2 l2] eqn:E2.
    + apply Permutation_sym, Permutation_nil in P. discriminate.
    + rewrite !build_pqb_eq.
      rewrite (@build_rows_perm pypinyin_pinyin dict_name menu_name
                 short_name icon now file_id file_creator
                 (e2 :: l2) (e1 :: l1) schema_db N2 P).
      reflexivity.
Qed.

(* ------------------------------------------------------------------ *)
(** ** The scenarios of the specification, evaluated *)

(** System A has [a] for U+65E5 and U+6708, system B has [b] for U+65E5:
    U+65E5 gets two sections, U+6708 one. *)
Example scenario_two_systems :
  let ta := lit "a" ++ [0x09; 0x65E5; 0x09] ++ lit "500" ++ [0x0A]
            ++ lit "a" ++ [0x09; 0x6708; 0x09] ++ lit "10" in
  let tb := lit "b" ++ [0x09; 0x65E5] in
  compose_entries (fun l => l) (load_cangjie_table ta) (load_cangjie_table tb)
  = [ ([0x65E5],
       lit "Cangjie3:" ++ [0xEAB1; 0x65E5; 0xEAB1] ++ lit "a"
       ++ [0xEAB1; 0xEAB1]
       ++ lit "Cangjie5:" ++ [0xEAB1; 0x6708; 0xEAB1] ++ lit "b");
      ([0x6708],
       lit "Cangjie3:" ++ [0xEAB1; 0x65E5; 0xEAB1] ++ lit "a") ].
Proof. vm_compute. reflexivity. Qed.

(** The same codes [a] and [b] for U+706B in both systems: one section. *)
Example scenario_identical_codes :
  let t := lit "b" ++ [0x20; 0x706B; 0x0A] ++ lit "a" ++ [0x20; 0x706B] in
  compose_entries (fun l => l) (load_cangjie_table t) (load_cangjie_table t)
  = [ ([0x706B],
       lit "Cangjie:" ++ [0xEAB1; 0x65E5] ++ lit " / " ++ [0x6708; 0xEAB1]
       ++ lit "a / b") ].
Proof. vm_compute. reflexivity. Qed.

(** A line whose second token has two code points is dropped, as are a
    comment and a line with a single token. *)
Example scenario_dropped_lines :
  parse_line (lit "zz" ++ [0x09; 0x65E5; 0x6708]) = None /\
  parse_line (lit "# a" ++ [0x09; 0x65E5]) = None /\
  parse_line (lit "zz") = None /\
  parse_line (lit "a" ++ [0x09] ++ lit "b") = None /\
  parse_line ([0x20] ++ lit "a" ++ [0x09; 0x3007; 0x20] ++ lit "7")
  = Some ([0x3007], lit "a") /\
  load_cangjie_table sample_noise = [].
Proof. vm_compute. repeat split. Qed.

(** The store of a small build. *)
Example scenario_store :
  exists d,
    main pinyin_sample (@rev str) None sample_cj3 sample_cj5
         (lit "D") (lit "M") (lit "S") (lit "CJ") 1700000000 (-5) 7
    = (Ok tt, Some d) /\
    map (fun r => (e_uid r, e_word r, e_pron r, e_sortkey r))
        (pleco_dict_entries d)
    = [ (1, [0x65E5], lit "ri4", [0xFF52; 0xFF49; 0xFF14; 0x65E5]);
        (2, [0x6708], [], [0x6708]) ] /\
    pos_1 (posdex_hz d)
    = [ mkPosdex [0x65E5] 1 1; mkPosdex [0x6708] 2 1 ] /\
    pos_1 (posdex_py d) = [ mkPosdex (lit "ri4") 1 1 ] /\
    pleco_dict_imports d = [ mkImport 1 1700000000 1700000000 1 2 ] /\
    length (pleco_dict_properties d) = 16%nat.
Proof. eexists. vm_compute. repeat split. Qed.

(* ================================================================== *)
(** * Further properties of the builder *)

(* ------------------------------------------------------------------ *)
(** ** [is_cjk_word] and the loaded table *)

Lemma is_cjk_chars_iff (word : str) :
  is_cjk_chars word = true <-> Forall permitted word.
Proof.
  induction word as [|c word IH]; simpl.
  - split; auto.
  - pose proof (is_cjk_word_single c) as Hc. simpl in Hc.
    destruct (Z.eqb_spec c 0x3007) as [->|Hne]; simpl in *.
    + rewrite IH. split; intros H.
      * constructor; auto. left; reflexivity.
      * inversion H; auto.
    + destruct (in_ranges c); simpl in *.
      * rewrite IH. split; intros H.
        -- constructor; auto. apply Hc; reflexivity.
        -- inversion H; auto.
      * split; [discriminate|]. intros H. inversion H as [|? ? Hp _]; subst.
        apply Hc in Hp. discriminate.
Qed.

(** [is_cjk_word] accepts exactly the non-empty words all of whose code
    points are in one of the ranges or U+3007. *)
Theorem is_cjk_word_iff (word : str) :
  is_cjk_word word = true <-> word <> [] /\ Forall permitted word.
Proof.
  destruct word as [|c word].
  - simpl. split; [discriminate | intros [H _]; congruence].
  - change (is_cjk_word (c :: word)) with (is_cjk_chars (c :: word)).
    rewrite is_cjk_chars_iff. split; [split; [discriminate | auto] | tauto].
Qed.

Lemma load_code_accepted (text ch code : str) :
  In code (table_get (load_cangjie_table text) ch) ->
  exists raw, In raw (file_lines text) /\ line_accepted raw ch code.
Proof.
  rewrite load_table_get, dict_fromkeys_In, file_codes_In.
  intros (raw & Hin & H). exists raw. split; auto.
  apply parse_line_accepted; auto.
Qed.

(** Every row of a loaded table has one permitted code point as its key
    and a non-empty set of codes without repetition; every code is
    non-empty and holds no white space. *)
Theorem load_table_invariant (text ch : str) (codes : list str) :
  In (ch, codes) (load_cangjie_table text) ->
  (exists c, ch = [c] /\ permitted c) /\
  codes <> [] /\ NoDup codes /\
  Forall (fun code => code <> [] /\ Forall (fun c => is_space c = false) code)
         codes.
Proof.
  intros Hin.
  destruct (load_ok text) as (Nk & Hv).
  assert (G : table_get (load_cangjie_table text) ch = codes).
  { unfold table_get. apply (dict_get_In ch codes) in Hin; auto.
    rewrite Hin. reflexivity. }
  rewrite Forall_forall in Hv. destruct (Hv _ Hin) as (_ & Hne & Nd).
  simpl in Hne, Nd.
  assert (A : forall code, In code codes ->
              exists raw, line_accepted raw ch code).
  { intros code Hc. rewrite <- G in Hc.
    apply load_code_accepted in Hc as (raw & _ & H). eauto. }
  repeat split; auto.
  - destruct codes as [|code codes']; [congruence|].
    destruct (A code (or_introl eq_refl))
      as (raw & _ & _ & c & rest & _ & -> & Hp).
    eauto.
  - apply Forall_forall. intros code Hc.
    destruct (A code Hc) as (raw & _ & _ & c & rest & Ht & _ & _).
    pose proof (tokens_clean is_space (strip raw)) as Hclean.
    rewrite Ht in Hclean. inversion Hclean; auto.
Qed.

Lemma load_table_invariant_witness :
  (exists c, [0x65E5] = [c] /\ permitted c) /\
  [lit "b"; lit "a"] <> [] /\ NoDup [lit "b"; lit "a"] /\
  Forall (fun code => code <> [] /\ Forall (fun c => is_space c = false) code)
         [lit "b"; lit "a"].
Proof.
  apply (@load_table_invariant sample_cj3 [0x65E5] [lit "b"; lit "a"]).
  vm_compute. left. reflexivity.
Defined.

(* ------------------------------------------------------------------ *)
(** ** Transliteration *)

Lemma shape_get_single (c : Z) :
  exists g, shape_get c LATIN_TO_SHAPE = [g].
Proof.
  rewrite shape_get_glyph. unfold is_lower.
  destruct (Z.leb_spec 97 c); destruct (Z.leb_spec c 122); cbn [andb]; eauto.
  assert (H1 : exists n, c = 97 + Z.of_nat n /\ (n < 26)%nat).
  { exists (Z.to_nat (c - 97)). lia. }
  destruct H1 as (n & -> & Hn).
  do 26 (destruct n as [|n]; [eexists; reflexivity|]). lia.
Qed.

(** Transliteration replaces every character of a code by exactly one
    character. *)
Theorem latin_code_to_shapes_length (code : str) :
  length (latin_code_to_shapes code) = length code.
Proof.
  unfold latin_code_to_shapes.
  induction code as [|c code IH]; [reflexivity|].
  cbn [map concat]. rewrite length_app, IH.
  destruct (shape_get_single c) as (g & ->). reflexivity.
Qed.

Lemma shape_get_lower_inj (a b : Z) :
  is_lower a = true -> is_lower b = true ->
  shape_get a LATIN_TO_SHAPE = shape_get b LATIN_TO_SHAPE -> a = b.
Proof.
  unfold is_lower. intros Ha Hb.
  apply andb_true_iff in Ha as [Ha1 Ha2]. apply andb_true_iff in Hb as [Hb1 Hb2].
  apply Z.leb_le in Ha1, Ha2, Hb1, Hb2.
  assert (Ka : exists n, a = 97 + Z.of_nat n /\ (n < 26)%nat)
    by (exists (Z.to_nat (a - 97)); lia).
  assert (Kb : exists n, b = 97 + Z.of_nat n /\ (n < 26)%nat)
    by (exists (Z.to_nat (b - 97)); lia).
  destruct Ka as (n & -> & Hn). destruct Kb as (m & -> & Hm).
  assert (D : forall k, (k < 26)%nat ->
              shape_get (97 + Z.of_nat k) LATIN_TO_SHAPE
              = [nth k (map (fun p => hd 0 (snd p)) LATIN_TO_SHAPE) 0]).
  { intros k Hk. do 26 (destruct k as [|k]; [reflexivity|]). lia. }
  rewrite (D n Hn), (D m Hm). intros [= E].
  assert (N : NoDup (map (fun p => hd 0 (snd p)) LATIN_TO_SHAPE)).
  { apply (NoDup_count_occ' Z.eq_dec). intros x Hx.
    simpl in Hx. repeat (destruct Hx as [<- | Hx]; [reflexivity|]).
    contradiction. }
  assert (n = m); [|subst; reflexivity].
  apply (proj1 (NoDup_nth _ 0) N); auto.
Qed.

(** On codes made of lower-case Latin letters, transliteration loses
    nothing: two codes with the same key shapes are the same code. *)
Theorem latin_code_to_shapes_injective (c1 c2 : str) :
  forallb is_lower c1 = true -> forallb is_lower c2 = true ->
  latin_code_to_shapes c1 = latin_code_to_shapes c2 -> c1 = c2.
Proof.
  unfold latin_code_to_shapes.
  revert c2; induction c1 as [|a c1 IH]; intros [|b c2] H1 H2 E;
    cbn [map concat forallb] in *; auto.
  - destruct (shape_get_single b) as (g & Hg). rewrite Hg in E. discriminate.
  - destruct (shape_get_single a) as (g & Hg). rewrite Hg in E. discriminate.
  - apply andb_true_iff in H1 as [Ha H1]. apply andb_true_iff in H2 as [Hb H2].
    destruct (shape_get_single a) as (g & Hg).
    destruct (shape_get_single b) as (g' & Hg').
    rewrite Hg, Hg' in E. cbn [app] in E. injection E as Eg E.
    f_equal; [|apply IH; auto].
    apply shape_get_lower_inj; auto. congruence.
Qed.

Lemma latin_code_to_shapes_injective_witness :
  lit "abc" = lit "abc".
Proof.
  apply (@latin_code_to_shapes_injective (lit "abc") (lit "abc"));
    reflexivity.
Defined.


(* ------------------------------------------------------------------ *)
(** ** The entries and the order of the sets *)

(** The entries [main] composes have exactly the characters of the two
    tables as their keys, each once. *)
Theorem entries_cover_tables
    (iter_set : list str -> list str) (text3 text5 ch : str) :
  (forall l, Permutation (iter_set l) l) ->
  let cj3 := load_cangjie_table text3 in
  let cj5 := load_cangjie_table text5 in
  (In ch (dict_keys (compose_entries iter_set cj3 cj5)) <->
   In ch (dict_keys cj3) \/ In ch (dict_keys cj5)) /\
  NoDup (dict_keys (compose_entries iter_set cj3 cj5)).
Proof.
  intros Hp cj3 cj5.
  destruct (@compose_entries_keys iter_set Hp cj3 cj5 (load_ok text3)
                                  (load_ok text5)) as (N & _).
  split; auto. split.
  - unfold compose_entries.
    destruct (@compose_fold_keys iter_set Hp cj3 cj5 (load_ok text3)
                (load_ok text5)
                (iter_set (set_union (dict_keys cj3) (dict_keys cj5)))
                [] (NoDup_nil _)) as (_ & K).
    intros H. apply K in H as [[] | H].
    apply (Permutation_in ch (Hp _)) in H. apply set_union_In. exact H.
  - intros H. apply dict_get_In_keys.
    apply (@compose_entries_has iter_set Hp cj3 cj5 (load_ok text3)
                                (load_ok text5) ch H).
Qed.

Lemma entries_cover_tables_witness :
  In [0x6708]
     (dict_keys (compose_entries (@rev str) (load_cangjie_table sample_cj3)
                                 (load_cangjie_table sample_cj5))) <->
  In [0x6708] (dict_keys (load_cangjie_table sample_cj3)) \/
  In [0x6708] (dict_keys (load_cangjie_table sample_cj5)).
Proof.
  exact (proj1 (@entries_cover_tables (@rev str) sample_cj3 sample_cj5
                  [0x6708]
                  (fun l => Permutation_sym (Permutation_rev l)))).
Defined.

Lemma main_independent_of_set_order_witness :
  main pinyin_sample (@rev str) None sample_cj3 sample_cj5
       (lit "D") (lit "M") (lit "S") (lit "CJ") 1700000000 (-5) 7
  = main pinyin_sample (fun l => l) None sample_cj3 sample_cj5
         (lit "D") (lit "M") (lit "S") (lit "CJ") 1700000000 (-5) 7.
Proof.
  apply (@main_independent_of_set_order pinyin_sample (@rev str)
           (fun l => l) None sample_cj3 sample_cj5).
  - intros l. apply Permutation_sym, Permutation_rev.
  - intros l. apply Permutation_refl.
Defined.

(* ------------------------------------------------------------------ *)
(** ** When a build commits *)


Section BuildTotal.
Variable pypinyin_pinyin : str -> list (list str).
Variable entries : dict str.
Variable now : Z.



End BuildTotal.


(* ------------------------------------------------------------------ *)
(** ** Index rows and entries *)

Lemma position_rows_fields (units : list str) (uid wlen : Z) (i : nat)
    (r : posdex_row) :
  In r (position_rows units uid wlen i) ->
  px_uid r = uid /\ px_length r = wlen /\ (1 <= i <= 4)%nat /\
  nth_error units (i - 1) = Some (px_syllable r).
Proof.
  intros H.
  destruct (Nat.le_gt_cases i 4) as [Hi | Hi];
    [|rewrite position_rows_beyond in H by lia; destruct H].
  unfold position_rows in H. destruct i as [|j]; [destruct H|].
  destruct (nth_error (firstn 4 units) j) as [u|] eqn:E; [|destruct H].
  destruct H as [<- | []]. cbn [px_uid px_length px_syllable].
  repeat split; try lia.
  replace (S j - 1)%nat with j by lia. rewrite nth_error_firstn in E.
  destruct (Nat.ltb_spec j 4); [exact E | discriminate].
Qed.

(** In a committed store every index row belongs to an entry: its [uid]
    is the [uid] of an entry row, its length is the length of that
    entry's word, and its unit is the character or the token of the
    pronunciation at the position of its table. *)
Theorem index_rows_reference_entries
    (pypinyin_pinyin : str -> list (list str))
    (fs : option db) (entries : dict str)
    (dict_name menu_name short_name icon : str)
    (now file_id file_creator : Z) (d : db) (i : nat) (r : posdex_row) :
  build_pqb pypinyin_pinyin fs entries dict_name menu_name short_name icon
            now file_id file_creator = (Ok tt, Some d) ->
  In r (family_table i (posdex_hz d)) \/
  In r (family_table i (posdex_py d)) ->
  (1 <= i <= 4)%nat /\
  exists row,
    In row (pleco_dict_entries d) /\
    e_uid row = px_uid r /\
    px_length r = Z.of_nat (length (e_word row)) /\
    (In r (family_table i (posdex_hz d)) ->
     nth_error (characters (e_word row)) (i - 1) = Some (px_syllable r)) /\
    (In r (family_table i (posdex_py d)) ->
     nth_error (tokens is_space_or_at (e_pron row)) (i - 1)
     = Some (px_syllable r)).
Proof.
  rewrite build_pqb_eq.
  destruct (build_rows pypinyin_pinyin entries dict_name menu_name short_name
                       icon now file_id file_creator schema_db)
    as [d'|e] eqn:E; [|discriminate].
  intros [= <-].
  pose proof (build_rows_ok _ _ _ _ _ _ _ _ _ _ E) as (H1 & _ & H3 & H4 & _).
  cbn [schema_db pleco_dict_entries app] in H1.
  assert (Z0 : forall f, f = posdex_hz schema_db \/ f = posdex_py schema_db ->
                         family_table i f = []).
  { intros f [-> | ->]; do 5 (destruct i as [|i]; try reflexivity). }
  rewrite H3, H4, !Z0 by auto. cbn [app].
  set (keys := sorted (dict_keys entries)) in *.
  assert (U : forall (n : nat) (ch : str) (uid : Z),
             nth_error keys n = Some ch -> uid = 1 + Z.of_nat n ->
             exists row, In row (pleco_dict_entries d') /\
                         e_uid row = uid /\ e_word row = ch /\
                         e_pron row = pron_of pypinyin_pinyin ch /\
                         forall row', In row' (pleco_dict_entries d') ->
                                      e_uid row' = uid -> row' = row).
  { intros n ch uid Hn ->. eexists. split; [|split; [|split; [|split]]].
    - rewrite H1. apply entry_rows_In. exists n, ch. split; eauto.
    - reflexivity.
    - reflexivity.
    - reflexivity.
    - intros row' Hr Hu. rewrite H1 in Hr.
      apply entry_rows_In in Hr as (m & ch' & Hm & ->).
      cbn [e_uid] in Hu. assert (m = n) by lia. subst m.
      assert (ch' = ch) by congruence. subst ch'. reflexivity. }
  intros [H | H].
  - pose proof H as H'. apply hz_rows_In in H' as (n & ch & Hn & Hr).
    apply position_rows_fields in Hr as (Hu & Hl & Hi & Hs).
    destruct (U n ch (px_uid r) Hn Hu) as (row & R1 & R2 & R3 & R4 & R5).
    split; auto. exists row. rewrite R3, R4.
    repeat split; auto. intros Hp.
    apply py_rows_In in Hp as (m & ch' & Hm & Hr').
    apply position_rows_fields in Hr' as (Hu' & _ & _ & Hs').
    assert (m = n) by lia. subst m.
    assert (ch' = ch) by congruence. subst ch'. exact Hs'.
  - pose proof H as H'. apply py_rows_In in H' as (n & ch & Hn & Hr).
    apply position_rows_fields in Hr as (Hu & Hl & Hi & Hs).
    destruct (U n ch (px_uid r) Hn Hu) as (row & R1 & R2 & R3 & R4 & R5).
    split; auto. exists row. rewrite R3, R4.
    repeat split; auto. intros Hp.
    apply hz_rows_In in Hp as (m & ch' & Hm & Hr').
    apply position_rows_fields in Hr' as (Hu' & _ & _ & Hs').
    assert (m = n) by lia. subst m.
    assert (ch' = ch) by congruence. subst ch'. exact Hs'.
Qed.

Lemma index_rows_reference_entries_witness :
  exists row,
    In row (pleco_dict_entries
              (with_posdex 1 [0x65E5] (lit "ri4")
                 (mkDb [mkEntry 1 0 0 1 [0x65E5] None (lit "ri4") (lit "sun")
                                [0xFF52; 0xFF49; 0xFF14; 0x65E5]]
                       [mkImport 1 0 0 1 1]
                       (property_rows (lit "D") (lit "M") (lit "S") (lit "CJ")
                                      1 0 0 0)
                       empty_family empty_family))) /\
    e_uid row = 1.
Proof.
  destruct (@index_rows_reference_entries pinyin_sample None
              [([0x65E5], lit "sun")] (lit "D") (lit "M") (lit "S") (lit "CJ")
              0 0 0 _ 1%nat (mkPosdex (lit "ri4") 1 1)
              ltac:(vm_compute; reflexivity)
              ltac:(right; vm_compute; left; reflexivity))
    as (_ & row & H1 & H2 & _).
  exists row. split; [exact H1 | exact H2].
Defined.





(* ------------------------------------------------------------------ *)
(** ** The properties table *)

Lemma filter_filter (A : Type) (f g : A -> bool) (l : list A) :
  filter f (filter g l) = filter (fun x => g x && f x) l.
Proof.
  induction l as [|x l IH]; simpl; auto.
  destruct (g x); simpl; [destruct (f x)|]; rewrite ?IH; reflexivity.
Qed.

Lemma replace_properties_fold (rows : list prop_row) :
  NoDup (map propid rows) ->
  Forall (fun r => propset r = 0) rows ->
  forall d,
    pleco_dict_properties
      (fold_left (fun d r => replace_property r d) rows d)
    = filter (fun r => negb ((propset r =? 0)
                             && mem (propid r) (map propid rows)))
             (pleco_dict_properties d)
      ++ rows.
Proof.
  induction rows as [|p rows IH]; intros N F d; simpl.
  - rewrite app_nil_r. symmetry.
    rewrite <- (filter_ext (fun _ => true)).
    + induction (pleco_dict_properties d) as [|x l IHl]; simpl; congruence.
    + intros r. rewrite andb_false_r. reflexivity.
  - inversion N as [|? ? Hp N']; subst. inversion F as [|? ? Fp F']; subst.
    destruct p as [ps pid pv pis]. cbn [propset propid] in Hp, Fp. subst ps.
    rewrite IH by auto. unfold replace_property at 1.
    cbn [pleco_dict_properties propset propid].
    rewrite filter_app, filter_filter.
    apply mem_false in Hp.
    replace (filter (fun r => negb ((propset r =? 0)
                                    && mem (propid r) (map propid rows)))
                    [mkProp 0 pid pv pis])
      with [mkProp 0 pid pv pis]
      by (cbn [filter propset propid Z.eqb andb]; rewrite Hp; reflexivity).
    rewrite <- app_assoc. cbn [app map propid mem]. f_equal.
    apply filter_ext. intros r.
    rewrite (str_eqb_sym pid (propid r)).
    destruct (propset r =? 0); destruct (str_eqb (propid r) pid);
      destruct (mem (propid r) (map propid rows)); reflexivity.
Qed.

Lemma write_properties_rows (dict_name menu_name short_name icon : str)
    (entry_count now file_id file_creator : Z) (d : db) :
  pleco_dict_properties
    (write_properties dict_name menu_name short_name icon
                      entry_count now file_id file_creator d)
  = filter (fun r => negb (is_written_property r)) (pleco_dict_properties d)
    ++ property_rows dict_name menu_name short_name icon
                     entry_count now file_id file_creator.
Proof.
  change (write_properties dict_name menu_name short_name icon
                           entry_count now file_id file_creator d)
    with (fold_left (fun d r => replace_property r d)
                    (property_rows dict_name menu_name short_name icon
                                   entry_count now file_id file_creator) d).
  rewrite replace_properties_fold.
  - reflexivity.
  - apply (NoDup_map_inv (fun s => s)). rewrite map_id.
    change (map propid (property_rows dict_name menu_name short_name icon
                          entry_count now file_id file_creator))
      with (map propid (property_rows [] [] [] [] 0 0 0 0)).
    apply (NoDup_count_occ' str_eq_dec). intros x Hx.
    cbn [map property_rows propid] in Hx.
    repeat (destruct Hx as [<- | Hx]; [vm_compute; reflexivity|]).
    destruct Hx.
  - repeat constructor.
Qed.

(** [write_properties] replaces the rows of property set 0 that carry one
    of its sixteen identifiers and keeps every other row, so the pair
    [(propset, propid)] stays unique, and writing twice leaves what the
    second writing alone would leave. *)
Theorem write_properties_replaces
    (dict_name menu_name short_name icon : str)
    (entry_count now file_id file_creator : Z)
    (dict_name' menu_name' short_name' icon' : str)
    (entry_count' now' file_id' file_creator' : Z) (d : db) :
  let d1 := write_properties dict_name menu_name short_name icon
                             entry_count now file_id file_creator d in
  let d2 := write_properties dict_name' menu_name' short_name' icon'
                             entry_count' now' file_id' file_creator' d1 in
  pleco_dict_properties d1
  = filter (fun r => negb (is_written_property r)) (pleco_dict_properties d)
    ++ property_rows dict_name menu_name short_name icon
                     entry_count now file_id file_creator /\
  pleco_dict_properties d2
  = pleco_dict_properties
      (write_properties dict_name' menu_name' short_name' icon'
                        entry_count' now' file_id' file_creator' d) /\
  (NoDup (map (fun r => (propset r, propid r)) (pleco_dict_properties d)) ->
   NoDup (map (fun r => (propset r, propid r)) (pleco_dict_properties d1))).
Proof.
  intros d1 d2. unfold d2, d1. rewrite !write_properties_rows.
  split; [reflexivity|]. split.
  - rewrite filter_app, filter_filter.
    rewrite (filter_ext _ (fun r => negb (is_written_property r)))
      by (intros r; destruct (is_written_property r); reflexivity).
    replace (filter (fun r => negb (is_written_property r))
                    (property_rows dict_name menu_name short_name icon
                                   entry_count now file_id file_creator))
      with (@nil prop_row) by reflexivity.
    rewrite app_nil_r. reflexivity.
  - intros N. rewrite map_app. apply NoDup_app.
    + clear - N. induction (pleco_dict_properties d) as [|r l IH]; simpl;
        [constructor|].
      inversion N as [|? ? Hr N']; subst.
      destruct (is_written_property r); simpl; auto.
      constructor; auto. intros H. apply Hr.
      apply in_map_iff in H as (r' & E & H). apply filter_In in H as [H _].
      apply in_map_iff. eauto.
    + apply (NoDup_map_inv snd). rewrite map_map. cbn [snd].
      change (map (fun r => propid r)
                  (property_rows dict_name menu_name short_name icon
                                 entry_count now file_id file_creator))
        with (map propid (property_rows [] [] [] [] 0 0 0 0)).
      apply (NoDup_count_occ' str_eq_dec). intros x Hx.
      cbn [map property_rows propid] in Hx.
      repeat (destruct Hx as [<- | Hx]; [vm_compute; reflexivity|]).
      destruct Hx.
    + intros k H1 H2.
      apply in_map_iff in H1 as (r & <- & H1).
      apply filter_In in H1 as [_ H1]. apply negb_true_iff in H1.
      apply in_map_iff in H2 as (r' & E & H2).
      assert (W : is_written_property r = true).
      { unfold is_written_property. injection E as E1 E2.
        rewrite <- E1, <- E2.
        cbn [property_rows] in H2.
        repeat (destruct H2 as [<- | H2]; [vm_compute; reflexivity|]).
        destruct H2. }
      congruence.
Qed.

(** In a committed store the properties table holds exactly the sixteen
    rows of [write_properties]; its ["EntryCount"] is the number of entry
    rows in decimal, which is also the [endentry] of the import log. *)
Theorem committed_properties
    (pypinyin_pinyin : str -> list (list str))
    (fs : option db) (entries : dict str)
    (dict_name menu_name short_name icon : str)
    (now file_id file_creator : Z) (d : db) :
  build_pqb pypinyin_pinyin fs entries dict_name menu_name short_name icon
            now file_id file_creator = (Ok tt, Some d) ->
  let count := Z.of_nat (length (pleco_dict_entries d)) in
  pleco_dict_properties d
  = property_rows dict_name menu_name short_name icon
                  count now file_id file_creator /\
  In (mkProp 0 (lit "EntryCount") (str_of_int count) 0)
     (pleco_dict_properties d) /\
  map i_endentry (pleco_dict_imports d) = [count] /\
  length (pleco_dict_properties d) = 16%nat.
Proof.
  rewrite build_pqb_eq.
  destruct (build_rows pypinyin_pinyin entries dict_name menu_name short_name
                       icon now file_id file_creator schema_db)
    as [d'|e] eqn:E; [|discriminate].
  intros [= <-] count.
  pose proof (build_rows_ok _ _ _ _ _ _ _ _ _ _ E) as (H1 & H2 & _).
  cbn [schema_db pleco_dict_entries pleco_dict_imports app length] in H1, H2.
  assert (C : count = Z.of_nat (length (sorted (dict_keys entries)))).
  { unfold count. rewrite H1. f_equal.
    rewrite <- (length_map e_word), entry_rows_word. reflexivity. }
  assert (P : pleco_dict_properties d'
              = property_rows dict_name menu_name short_name icon
                              count now file_id file_creator).
  { unfold build_rows in E.
    destruct (for_each _ _ (schema_db, 1)) as [st|] eqn:El; [|discriminate].
    cbn [bind] in E. injection E as <-.
    apply build_loop_ok in El as (L1 & _ & _ & L4 & _).
    unfold insert_import. cbn [pleco_dict_properties].
    rewrite write_properties_rows, L4. cbn [schema_db pleco_dict_properties
                                            filter app].
    rewrite C. do 2 f_equal. lia. }
  split; [exact P|]. split; [|split].
  - rewrite P. cbn [property_rows]. do 7 right. left. reflexivity.
  - rewrite H2, C. reflexivity.
  - rewrite P. reflexivity.
Qed.

Lemma committed_properties_witness :
  length (pleco_dict_properties
            (with_posdex 1 [0x65E5] (lit "ri4")
               (mkDb [mkEntry 1 0 0 1 [0x65E5] None (lit "ri4") (lit "sun")
                              [0xFF52; 0xFF49; 0xFF14; 0x65E5]]
                     [mkImport 1 0 0 1 1]
                     (property_rows (lit "D") (lit "M") (lit "S") (lit "CJ")
                                    1 0 0 0)
                     empty_family empty_family))) = 16%nat.
Proof.
  exact (proj2 (proj2 (proj2
    (@committed_properties pinyin_sample None [([0x65E5], lit "sun")]
       (lit "D") (lit "M") (lit "S") (lit "CJ") 0 0 0 _
       ltac:(vm_compute; reflexivity))))).
Defined.

(* ------------------------------------------------------------------ *)
(** ** Full-width forms *)

(** [to_fullwidth_ascii] keeps the length of a string, leaves no
    printable ASCII character in it, and changes nothing when it is
    applied again. *)
Theorem to_fullwidth_ascii_idempotent (s : str) :
  length (to_fullwidth_ascii s) = length s /\
  Forall (fun o => (0x21 <=? o) && (o <=? 0x7E) = false)
         (to_fullwidth_ascii s) /\
  to_fullwidth_ascii (to_fullwidth_ascii s) = to_fullwidth_ascii s.
Proof.
  unfold to_fullwidth_ascii, _FULLWIDTH_OFFSET.
  split; [apply length_map|].
  assert (H : forall o,
             (0x21 <=? (if (0x21 <=? o) && (o <=? 0x7E)
                        then o + 0xFEE0 else o))
             && ((if (0x21 <=? o) && (o <=? 0x7E) then o + 0xFEE0 else o)
                 <=? 0x7E) = false).
  { intros o. destruct ((0x21 <=? o) && (o <=? 0x7E)) eqn:E; [|exact E].
    apply andb_true_iff in E as [E1 E2].
    apply Z.leb_le in E1. apply Z.leb_le in E2.
    apply andb_false_iff. right. apply Z.leb_gt. lia. }
  split.
  - apply Forall_forall. intros o Hin.
    apply in_map_iff in Hin as (o' & <- & _). apply H.
  - rewrite map_map. apply map_ext. intros o. rewrite H. reflexivity.
Qed.

(* ================================================================== *)
(** * The Unihan annotator *)

(* ------------------------------------------------------------------ *)
(** ** The cache *)

Lemma find_filter_none (A : Type) (f g : A -> bool) (l : list A) :
  (forall x, f x = true -> g x = false) -> find f (filter g l) = None.
Proof.
  intros H. induction l as [|x l IH]; simpl; auto.
  destruct (g x) eqn:G; simpl; auto.
  destruct (f x) eqn:F; auto. rewrite (H x F) in G. discriminate.
Qed.

Lemma find_filter_same (A : Type) (f g : A -> bool) (l : list A) :
  (forall x, f x = true -> g x = true) -> find f (filter g l) = find f l.
Proof.
  intros H. induction l as [|x l IH]; simpl; auto.
  destruct (g x) eqn:G; simpl.
  - destruct (f x); auto.
  - destruct (f x) eqn:F; auto. rewrite (H x F) in G. discriminate.
Qed.

Lemma find_app (A : Type) (f : A -> bool) (l1 l2 : list A) :
  find f (l1 ++ l2)
  = match find f l1 with Some x => Some x | None => find f l2 end.
Proof.
  induction l1 as [|x l1 IH]; simpl; auto. destruct (f x); auto.
Qed.

Lemma NoDup_map_filter (A B : Type) (f : A -> B) (g : A -> bool)
    (l : list A) :
  NoDup (map f l) -> NoDup (map f (filter g l)).
Proof.
  induction l as [|x l IH]; simpl; intros N; [constructor|].
  inversion N as [|? ? Hx N']; subst.
  destruct (g x); simpl; auto. constructor; auto.
  intros H. apply Hx. apply in_map_iff in H as (y & E & H).
  apply filter_In in H as [H _]. apply in_map_iff. eauto.
Qed.

Lemma cache_get_put_same (conn : Unihan.cache_rows) (ch kc : str) :
  Unihan.cache_get (Unihan.cache_put conn ch kc) ch = Some kc.
Proof.
  unfold Unihan.cache_get, Unihan.cache_put.
  rewrite find_app, find_filter_none.
  - simpl. rewrite str_eqb_refl. reflexivity.
  - intros x ->. reflexivity.
Qed.

Lemma cache_get_put_other (conn : Unihan.cache_rows) (ch kc ch' : str) :
  ch' <> ch ->
  Unihan.cache_get (Unihan.cache_put conn ch kc) ch'
  = Unihan.cache_get conn ch'.
Proof.
  unfold Unihan.cache_get, Unihan.cache_put.
  intros Hne. rewrite find_app, find_filter_same.
  - destruct (find _ conn); auto. simpl.
    apply str_eqb_neq in Hne. rewrite str_eqb_sym, Hne. reflexivity.
  - intros x Hx. apply str_eqb_eq in Hx. apply negb_true_iff.
    apply str_eqb_neq. congruence.
Qed.

(** What [cache_put] stores is what [cache_get] returns for that
    character; the other characters keep their values, and [char] stays a
    key. *)
Theorem cache_put_get (conn : Unihan.cache_rows) (ch kc ch' : str) :
  Unihan.cache_get (Unihan.cache_put conn ch kc) ch = Some kc /\
  (ch' <> ch ->
   Unihan.cache_get (Unihan.cache_put conn ch kc) ch'
   = Unihan.cache_get conn ch') /\
  (NoDup (map fst conn) -> NoDup (map fst (Unihan.cache_put conn ch kc))).
Proof.
  split; [apply cache_get_put_same|].
  split; [apply cache_get_put_other|].
  unfold Unihan.cache_put.
  intros N. rewrite map_app. cbn [map fst].
  eapply Permutation_NoDup; [apply Permutation_cons_append|].
  constructor; [|apply NoDup_map_filter; exact N].
  intros H. apply in_map_iff in H as (x & E & H).
  apply filter_In in H as [_ H]. rewrite E, str_eqb_refl in H.
  discriminate.
Qed.

Section AnnotatorFacts.
Variable str_lower : str -> str.
Variable http_events : list str -> str -> result (list Unihan.event).

Abbreviation get_kcangjie := (Unihan.get_kcangjie str_lower http_events).

Lemma get_kcangjie_cases (ch : str) (refresh_empty : bool)
    (w : Unihan.world) :
  (exists v, Unihan.cache_get (Unihan.cache w) ch = Some v /\
             (refresh_empty = false \/ v <> []) /\
             get_kcangjie ch refresh_empty w = (v, w)) \/
  ((Unihan.cache_get (Unihan.cache w) ch = None \/
    (Unihan.cache_get (Unihan.cache w) ch = Some [] /\
     refresh_empty = true)) /\
   exists kc,
     get_kcangjie ch refresh_empty w
     = (kc, Unihan.mkWorld (Unihan.cache_put (Unihan.cache w) ch kc)
                           (Unihan.requests w ++ [ch]))).
Proof.
  unfold Unihan.get_kcangjie.
  destruct (Unihan.cache_get (Unihan.cache w) ch) as [v|] eqn:E.
  - destruct refresh_empty; simpl.
    + destruct v as [|c v]; simpl.
      * right. split; eauto.
      * left. exists (c :: v). repeat split; auto. right; discriminate.
    + left. exists v. auto.
  - right. split; eauto.
Qed.

(** After [get_kcangjie] the value it returned is the cached value of the
    character; no other character's value has changed, and at most one
    request, for this character, has been made. *)
Theorem get_kcangjie_caches_result (ch : str) (refresh_empty : bool)
    (w : Unihan.world) :
  let kc := fst (get_kcangjie ch refresh_empty w) in
  let w' := snd (get_kcangjie ch refresh_empty w) in
  Unihan.cache_get (Unihan.cache w') ch = Some kc /\
  (forall ch', ch' <> ch ->
               Unihan.cache_get (Unihan.cache w') ch'
               = Unihan.cache_get (Unihan.cache w) ch') /\
  (Unihan.requests w' = Unihan.requests w \/
   Unihan.requests w' = Unihan.requests w ++ [ch]).
Proof.
  destruct (get_kcangjie_cases ch refresh_empty w)
    as [(v & E & _ & ->) | (_ & kc & ->)]; cbn [fst snd].
  - auto.
  - cbn [Unihan.cache Unihan.requests].
    split; [apply cache_get_put_same|].
    split; [|auto].
    intros ch' Hne. apply cache_get_put_other. exact Hne.
Qed.


(** A failed request is answered by the empty string, which is cached:
    the next call without [refresh_empty] returns it without a request;
    with [refresh_empty] the request is made again. *)
Theorem get_kcangjie_failure_cached (ch : str) (refresh_empty : bool)
    (w : Unihan.world) (e : exn) :
  Unihan.cache_get (Unihan.cache w) ch = None ->
  http_events (Unihan.requests w) ch = Raise e ->
  let w' := snd (get_kcangjie ch refresh_empty w) in
  get_kcangjie ch refresh_empty w
  = ([], Unihan.mkWorld (Unihan.cache_put (Unihan.cache w) ch [])
                        (Unihan.requests w ++ [ch])) /\
  get_kcangjie ch false w' = ([], w') /\
  Unihan.requests (snd (get_kcangjie ch true w'))
  = Unihan.requests w ++ [ch; ch].
Proof.
  intros E H w'.
  assert (G : get_kcangjie ch refresh_empty w
              = ([], Unihan.mkWorld (Unihan.cache_put (Unihan.cache w) ch [])
                                    (Unihan.requests w ++ [ch]))).
  { unfold Unihan.get_kcangjie, Unihan.fetch_unihan_field.
    rewrite E, H. reflexivity. }
  unfold w'. rewrite G. cbn [snd].
  pose proof (cache_get_put_same (Unihan.cache w) ch []) as C.
  split; [reflexivity|]. split.
  - unfold Unihan.get_kcangjie. cbn [Unihan.cache]. rewrite C.
    reflexivity.
  - unfold Unihan.get_kcangjie at 1. cbn [Unihan.cache Unihan.requests].
    rewrite C. cbn [snd Unihan.requests]. rewrite <- app_assoc. reflexivity.
Qed.

End AnnotatorFacts.

(* ------------------------------------------------------------------ *)
(** ** [annotate_text] and the requests it makes *)

Lemma fromkeys_from_filter_seen (f : str -> bool) (ch : str)
    (l seen : list str) :
  fromkeys_from seen (filter (fun x => f x && negb (str_eqb ch x)) l)
  = fromkeys_from (ch :: seen) (filter f l).
Proof.
  revert seen; induction l as [|x l IH]; intros seen; simpl; auto.
  destruct (f x); simpl; auto.
  destruct (str_eqb ch x) eqn:E; simpl; auto.
  destruct (mem x seen) eqn:M; auto.
  f_equal. rewrite IH. apply fromkeys_from_ext. intros y. simpl.
  destruct (str_eqb x y); destruct (str_eqb ch y); reflexivity.
Qed.

Section AnnotateFacts.
Variable str_lower : str -> str.
Variable http_events : list str -> str -> result (list Unihan.event).

Lemma annotate_loop_world (mode : str) (chars : list str) :
  forall (out : list str) (w : Unihan.world),
    let w' := snd (Unihan.annotate_loop str_lower http_events
                                        chars mode out w) in
    Unihan.requests w'
    = Unihan.requests w
        ++ dict_fromkeys (filter (uncached (Unihan.cache w)) chars) /\
    (forall ch, In ch chars ->
                Unihan.cache_get (Unihan.cache w') ch <> None) /\
    (forall ch, Unihan.cache_get (Unihan.cache w) ch <> None ->
                Unihan.cache_get (Unihan.cache w') ch
                = Unihan.cache_get (Unihan.cache w) ch) /\
    (forall ch, ~ In ch chars ->
                Unihan.cache_get (Unihan.cache w') ch
                = Unihan.cache_get (Unihan.cache w) ch).
Proof.
  induction chars as [|ch chars IH]; intros out w; cbn zeta.
  - simpl. rewrite app_nil_r. repeat split; auto; intros ch [] .
  - cbn [Unihan.annotate_loop].
    destruct (get_kcangjie_cases str_lower http_events ch false w)
      as [(v & E & _ & G) | ([E | (_ & [=])] & kc & G)]; rewrite G.
    + assert (U : uncached (Unihan.cache w) ch = false)
        by (unfold uncached; rewrite E; reflexivity).
      cbn [filter]. rewrite U.
      assert (K : forall o,
                 let w' := snd (Unihan.annotate_loop str_lower http_events
                                                     chars mode o w) in
                 Unihan.requests w'
                 = Unihan.requests w
                     ++ dict_fromkeys (filter (uncached (Unihan.cache w))
                                              chars) /\
                 (forall c, In c (ch :: chars) ->
                            Unihan.cache_get (Unihan.cache w') c <> None) /\
                 (forall c, Unihan.cache_get (Unihan.cache w) c <> None ->
                            Unihan.cache_get (Unihan.cache w') c
                            = Unihan.cache_get (Unihan.cache w) c) /\
                 (forall c, ~ In c (ch :: chars) ->
                            Unihan.cache_get (Unihan.cache w') c
                            = Unihan.cache_get (Unihan.cache w) c)).
      { intros o. destruct (IH o w) as (I1 & I2 & I3 & I4). cbn zeta.
        repeat split; auto.
        - intros c [<- | Hc]; auto. rewrite I3; congruence.
        - intros c Hc. apply I4. intros H. apply Hc. right; auto. }
      destruct (nonempty v); apply K.
    + set (w1 := Unihan.mkWorld (Unihan.cache_put (Unihan.cache w) ch kc)
                                (Unihan.requests w ++ [ch])).
      assert (U : uncached (Unihan.cache w) ch = true)
        by (unfold uncached; rewrite E; reflexivity).
      pose proof (cache_get_put_same (Unihan.cache w) ch kc) as C1.
      assert (C2 : forall c, c <> ch ->
                   Unihan.cache_get (Unihan.cache w1) c
                   = Unihan.cache_get (Unihan.cache w) c).
      { intros c Hc. apply cache_get_put_other. exact Hc. }
      assert (F : filter (uncached (Unihan.cache w1)) chars
                  = filter (fun x => uncached (Unihan.cache w) x
                                     && negb (str_eqb ch x)) chars).
      { apply filter_ext. intros x. unfold uncached.
        destruct (str_eqb ch x) eqn:Ex.
        - apply str_eqb_eq in Ex. subst x. cbn [Unihan.cache w1].
          rewrite C1, andb_false_r. reflexivity.
        - apply str_eqb_neq in Ex. rewrite C2 by congruence.
          rewrite andb_true_r. reflexivity. }
      assert (K : forall o,
                 let w' := snd (Unihan.annotate_loop str_lower http_events
                                                     chars mode o w1) in
                 Unihan.requests w'
                 = Unihan.requests w
                     ++ dict_fromkeys (filter (uncached (Unihan.cache w))
                                              (ch :: chars)) /\
                 (forall c, In c (ch :: chars) ->
                            Unihan.cache_get (Unihan.cache w') c <> None) /\
                 (forall c, Unihan.cache_get (Unihan.cache w) c <> None ->
                            Unihan.cache_get (Unihan.cache w') c
                            = Unihan.cache_get (Unihan.cache w) c) /\
                 (forall c, ~ In c (ch :: chars) ->
                            Unihan.cache_get (Unihan.cache w') c
                            = Unihan.cache_get (Unihan.cache w) c)).
      { intros o. destruct (IH o w1) as (I1 & I2 & I3 & I4). cbn zeta.
        split; [|split; [|split]].
        - rewrite I1, F. cbn [Unihan.requests w1 filter]. rewrite U.
          unfold dict_fromkeys. rewrite fromkeys_from_filter_seen.
          cbn [fromkeys_from mem]. rewrite <- app_assoc. reflexivity.
        - intros c [<- | Hc]; auto.
          rewrite I3; cbn [Unihan.cache w1]; rewrite C1; discriminate.
        - intros c Hc. assert (c <> ch) by congruence.
          rewrite I3; rewrite C2; auto.
        - intros c Hc. rewrite I4 by (intros H; apply Hc; right; auto).
          apply C2. intros ->. apply Hc. left; reflexivity. }
      destruct (nonempty kc); apply K.
Qed.

(** [annotate_text] asks the server once for each Han character of the
    text that has no cached value, in the order of their first
    occurrence, and for no other; afterwards every Han character of the
    text has a cached value, and the values that were cached are
    unchanged. *)
Theorem annotate_text_requests (text mode : str) (w : Unihan.world) :
  let w' := snd (Unihan.annotate_text str_lower http_events text mode w) in
  Unihan.requests w'
  = Unihan.requests w
      ++ dict_fromkeys (filter (uncached (Unihan.cache w))
                               (Unihan.han_findall text)) /\
  (forall c, In c text -> Unihan.is_han c = true ->
             Unihan.cache_get (Unihan.cache w') [c] <> None) /\
  (forall ch, Unihan.cache_get (Unihan.cache w) ch <> None ->
              Unihan.cache_get (Unihan.cache w') ch
              = Unihan.cache_get (Unihan.cache w) ch).
Proof.
  unfold Unihan.annotate_text.
  pose proof (annotate_loop_world mode (Unihan.han_findall text) [] w)
    as (H1 & H2 & H3 & _).
  destruct (Unihan.annotate_loop str_lower http_events
                                 (Unihan.han_findall text) mode [] w)
    as [out w1].
  cbn [snd] in *. repeat split; auto.
  intros c Hc Hh. apply H2. unfold Unihan.han_findall.
  apply (in_map (fun x => [x])).  apply filter_In. auto.
Qed.

End AnnotateFacts.

(* ------------------------------------------------------------------ *)
(** ** The table parser *)

Section Rejoin.
Variable sep : Z -> bool.


End Rejoin.



Section ParserFacts.
Variable str_lower : str -> str.




Lemma handle_keeps (e : Unihan.event) (p : Unihan.parser) (key v : str) :
  dict_get key (Unihan.data p) = Some v ->
  dict_get key (Unihan.data (Unihan.handle str_lower e p)) = Some v.
Proof.
  intros H. destruct e as [tag|tag|text]; cbn [Unihan.handle].
  - unfold Unihan.handle_starttag.
    destruct (str_eqb _ _); [|destruct (_ && _)]; exact H.
  - unfold Unihan.handle_endtag.
    destruct (str_eqb (str_lower tag) (lit "td") && _ && _); [exact H|].
    destruct (str_eqb (str_lower tag) (lit "tr") && _); [|exact H].
    destruct (Unihan.row_cells p) as [|k [|val rest]]; try exact H.
    destruct (nonempty k && nonempty val
              && negb (mem k (dict_keys (Unihan.data p)))) eqn:G;
      [|exact H].
    apply andb_true_iff in G as [_ G]. apply negb_true_iff in G.
    cbn [Unihan.data]. rewrite dict_get_set.
    destruct (str_eqb k key) eqn:E; [|exact H].
    apply str_eqb_eq in E. subst k.
    apply mem_false in G. exfalso. apply G.
    apply dict_get_In_keys. eauto.
  - unfold Unihan.handle_data. destruct (_ && _); exact H.
Qed.

(** The first value of a field wins: once a row has given a field its
    value, nothing that follows on the page changes it. *)
Theorem parser_first_value_wins (events later : list Unihan.event)
    (p : Unihan.parser) (key v : str) :
  dict_get key (Unihan.data (Unihan.feed str_lower events p)) = Some v ->
  dict_get key (Unihan.data (Unihan.feed str_lower (events ++ later) p))
  = Some v.
Proof.
  unfold Unihan.feed. rewrite fold_left_app.
  generalize (fold_left (fun p e => Unihan.handle str_lower e p) events p).
  induction later as [|e later IH]; intros q H; [exact H|].
  cbn [fold_left]. apply IH. apply handle_keeps. exact H.
Qed.

End ParserFacts.

Lemma parser_first_value_wins_witness :
  dict_get (lit "kCangjie")
    (Unihan.data
       (Unihan.feed ascii_lower
          (sample_row (lit " kCangjie ") (lit "A")
           ++ sample_row (lit "kCangjie") (lit "B"))
          Unihan.new_parser))
  = Some (lit "A").
Proof.
  apply (@parser_first_value_wins ascii_lower
           (sample_row (lit " kCangjie ") (lit "A"))
           (sample_row (lit "kCangjie") (lit "B"))
           Unihan.new_parser (lit "kCangjie") (lit "A")).
  vm_compute. reflexivity.
Defined.

(* ------------------------------------------------------------------ *)
(** ** Witnesses for the cache *)


Lemma get_kcangjie_failure_cached_witness :
  Unihan.requests
    (snd (Unihan.get_kcangjie ascii_lower sample_http [0x6708] true
            (snd (Unihan.get_kcangjie ascii_lower sample_http [0x6708]
                    false empty_world))))
  = [[0x6708]; [0x6708]].
Proof.
  apply (proj2 (proj2
    (@get_kcangjie_failure_cached ascii_lower sample_http [0x6708] false
       empty_world (OperationalError (lit "404"))
       ltac:(vm_compute; reflexivity) ltac:(vm_compute; reflexivity)))).
Defined.

(* ------------------------------------------------------------------ *)
(** ** Rendering *)

Lemma shape_get_find (k : Z) (m : list (Z * str)) :
  shape_get k m
  = match find (fun kv => fst kv =? k) m with
    | Some kv => snd kv
    | None => [k]
    end.
Proof.
  induction m as [|[k' v] m IH]; simpl; auto.
  destruct (k' =? k); auto.
Qed.

Lemma find_lower (l : Z) :
  is_lower l = true ->
  find (fun kv => fst kv =? l) LATIN_TO_SHAPE <> None.
Proof.
  unfold is_lower. intros H. apply andb_true_iff in H as [H1 H2].
  apply Z.leb_le in H1. apply Z.leb_le in H2.
  assert (H : exists n, l = 97 + Z.of_nat n /\ (n < 26)%nat).
  { exists (Z.to_nat (l - 97)). lia. }
  destruct H as (n & -> & Hn).
  do 26 (destruct n as [|n]; [discriminate|]). lia.
Qed.

Lemma prompt_get_lowered (c : Z) :
  Unihan.prompt_get (ascii_lower [c]) [c]
  = shape_get (if (65 <=? c) && (c <=? 90) then c + 32 else c)
              LATIN_TO_SHAPE.
Proof.
  unfold ascii_lower, Unihan.prompt_get, Unihan.PROMPT_MAP. cbn [map].
  rewrite shape_get_find.
  destruct ((65 <=? c) && (c <=? 90)) eqn:U; [|reflexivity].
  destruct (find _ LATIN_TO_SHAPE) eqn:F; [reflexivity|].
  exfalso. revert F. apply find_lower. unfold is_lower.
  apply andb_true_iff in U as [U1 U2].
  apply Z.leb_le in U1. apply Z.leb_le in U2.
  apply andb_true_iff. split; apply Z.leb_le; lia.
Qed.

Lemma shapes_length (l : str) :
  length (concat (map (fun ch => shape_get ch LATIN_TO_SHAPE) l)) = length l.
Proof.
  induction l as [|c l IH]; [reflexivity|].
  cbn [map concat]. rewrite length_app, IH.
  destruct (shape_get_single c) as (g & ->). reflexivity.
Qed.

Section RenderFacts.
Variable str_lower : str -> str.

(** On a code on which [lower()] is the lowering of the ASCII capitals,
    for the whole code and for each of its characters, the prompts that
    the annotator renders are the builder's transliteration of the lowered
    code, one glyph for each character; the rendering with both has the
    lowered code before them. *)
Theorem render_prompts_transliterate (code : str) :
  code <> [] ->
  str_lower code = ascii_lower code ->
  (forall c, In c code -> str_lower [c] = ascii_lower [c]) ->
  Unihan.render str_lower code (lit "prompts")
  = latin_code_to_shapes (str_lower code) /\
  Unihan.render str_lower code (lit "both")
  = str_lower code ++ lit " ("
      ++ latin_code_to_shapes (str_lower code) ++ lit ")" /\
  length (Unihan.render str_lower code (lit "prompts")) = length code.
Proof.
  intros Hne Hl Hc.
  assert (P : concat (map (fun c => Unihan.prompt_get (str_lower [c]) [c])
                          code)
              = latin_code_to_shapes (str_lower code)).
  { rewrite Hl. unfold latin_code_to_shapes, ascii_lower.
    clear Hne Hl. induction code as [|c code IH]; [reflexivity|].
    cbn [map concat]. rewrite Hc by (left; reflexivity).
    rewrite prompt_get_lowered. f_equal. apply IH.
    intros c' H. apply Hc. right. exact H. }
  unfold Unihan.render.
  destruct code as [|c0 code0]; [congruence|]. cbn [nonempty negb].
  change (str_eqb (lit "prompts") (lit "latin")) with false.
  change (str_eqb (lit "prompts") (lit "prompts")) with true.
  change (str_eqb (lit "both") (lit "latin")) with false.
  change (str_eqb (lit "both") (lit "prompts")) with false.
  cbv iota. rewrite P. repeat split.
  unfold latin_code_to_shapes. rewrite shapes_length, Hl.
  unfold ascii_lower. apply length_map.
Qed.

End RenderFacts.

Lemma render_prompts_transliterate_witness :
  Unihan.render ascii_lower (lit "AB") (lit "both")
  = lit "ab (" ++ [0x65E5; 0x6708] ++ lit ")".
Proof.
  apply (proj1 (proj2
    (@render_prompts_transliterate ascii_lower (lit "AB")
       ltac:(discriminate) eq_refl (fun c _ => eq_refl)))).
Defined.

(* ------------------------------------------------------------------ *)
(** ** The paste mode *)

Section PasteFacts.
Variable str_lower : str -> str.
Variable http_events : list str -> str -> result (list Unihan.event).
Variable stop_after : Z.
Variable mode : str.

Lemma paste_blank_run (blanks post : list str) :
  forall (empty_run : Z) (out : list str) (w : Unihan.world),
    forallb blank_line blanks = true ->
    blanks <> [] ->
    stop_after <= empty_run + Z.of_nat (length blanks) ->
    Unihan.paste_loop str_lower http_events stop_after mode
                      (blanks ++ post) empty_run out w
    = Unihan.paste_loop str_lower http_events stop_after mode
                        blanks empty_run out w.
Proof.
  induction blanks as [|line blanks IH]; intros e out w Hb Hne Hs;
    [congruence|].
  cbn [forallb] in Hb. apply andb_true_iff in Hb as [Hl Hb].
  unfold blank_line in Hl.
  cbn [app Unihan.paste_loop]. rewrite Hl.
  destruct (Z.leb_spec stop_after (e + 1)); [reflexivity|].
  apply IH; auto.
  - destruct blanks; [cbn [length] in Hs; lia | discriminate].
  - cbn [length] in Hs. lia.
Qed.

(** The paste mode stops at a run of [stop_after] empty lines: what
    follows the run in the input changes neither what is written nor what
    is requested or cached. *)
Theorem paste_loop_stops (pre blanks post : list str) :
  forall (empty_run : Z) (out : list str) (w : Unihan.world),
    0 <= empty_run ->
    forallb blank_line blanks = true ->
    blanks <> [] ->
    stop_after <= Z.of_nat (length blanks) ->
    Unihan.paste_loop str_lower http_events stop_after mode
                      (pre ++ blanks ++ post) empty_run out w
    = Unihan.paste_loop str_lower http_events stop_after mode
                        (pre ++ blanks) empty_run out w.
Proof.
  induction pre as [|line pre IH]; intros e out w He Hb Hne Hs.
  - cbn [app]. apply paste_blank_run; auto. lia.
  - cbn [app Unihan.paste_loop].
    destruct (negb (nonempty (strip (rstrip_by (Z.eqb 10) line)))).
    + destruct (stop_after <=? e + 1); [reflexivity|].
      apply IH; auto. lia.
    + destruct (Unihan.annotate_text str_lower http_events
                  (rstrip_by (Z.eqb 10) line) mode w) as [text w1].
      apply IH; auto. lia.
Qed.

End PasteFacts.

Lemma paste_loop_stops_witness :
  Unihan.paste_loop ascii_lower sample_http 2 (lit "both")
    ([[0x65E5; 10]] ++ [[10]; [32; 10]] ++ [[0x65E5; 10]]) 0 []
    empty_world
  = Unihan.paste_loop ascii_lower sample_http 2 (lit "both")
      ([[0x65E5; 10]] ++ [[10]; [32; 10]]) 0 [] empty_world.
Proof.
  apply (@paste_loop_stops ascii_lower sample_http 2 (lit "both")
           [[0x65E5; 10]] [[10]; [32; 10]] [[0x65E5; 10]] 0 []
           empty_world).
  - lia.
  - vm_compute. reflexivity.
  - discriminate.
  - vm_compute. discriminate.
Defined.

(* ================================================================== *)
(** * The Anki export filler *)

(* ------------------------------------------------------------------ *)
(** ** Its table loader *)

Section AnkiLoader.
Variable str_lower : str -> str.

(** A file without a [BEGIN_TABLE] line gives the empty table: this
    loader reads nothing outside the markers. *)
Theorem anki_load_needs_header (lines : list str) :
  Forall (fun raw => strip raw <> lit "BEGIN_TABLE") lines ->
  FillAnki.load_cangjie_table str_lower lines = [].
Proof.
  intros H. unfold FillAnki.load_cangjie_table.
  enough (G : forall mapping,
             FillAnki.load_loop str_lower lines false mapping = mapping)
    by apply G.
  induction H as [|raw lines Hb _ IH]; intros mapping; [reflexivity|].
  cbn [FillAnki.load_loop]. apply str_eqb_neq in Hb. rewrite Hb.
  destruct (str_eqb (strip raw) (lit "END_TABLE")); [reflexivity|].
  cbn [negb orb]. apply IH.
Qed.




Lemma anki_load_loop_ok (lines : list str) :
  forall (in_table : bool) (mapping : table),
    table_ok mapping ->
    (forall ch code, In code (table_get mapping ch) -> code <> []) ->
    let t := FillAnki.load_loop str_lower lines in_table mapping in
    table_ok t /\
    (forall ch code, In code (table_get t ch) -> code <> []).
Proof.
  induction lines as [|raw lines IH]; intros in_table mapping Hok Hne;
    cbn zeta; cbn [FillAnki.load_loop]; [auto|].
  destruct (str_eqb (strip raw) (lit "BEGIN_TABLE")); [apply IH; auto|].
  destruct (str_eqb (strip raw) (lit "END_TABLE")); [auto|].
  destruct (negb in_table || negb (nonempty (strip raw))
            || startswith (lit "#") (strip raw)); [apply IH; auto|].
  destruct (FillAnki.split_tab (strip raw)) as [|p0 [|p1 ps]];
    try (apply IH; auto; fail).
  destruct (negb (length (strip p1) =? 1)%nat
            || negb (nonempty (str_lower (strip p0)))) eqn:G;
    [apply IH; auto|].
  apply orb_false_iff in G as [G1 G2].
  apply negb_false_iff in G1. apply negb_false_iff in G2.
  apply Nat.eqb_eq in G1. apply nonempty_true in G2.
  apply IH.
  - apply table_add_ok; auto.
  - intros ch code. rewrite table_get_add.
    destruct (str_eqb (strip p1) ch); [|apply Hne].
    intros H. apply set_add_In in H as [H | ->]; [|exact G2].
    eapply Hne. exact H.
Qed.

(** Whatever the file, the table has one entry for each of its
    characters, each of one code point, with a non-empty list of distinct,
    non-empty codes: the test [if codes] of [cangjie_for_text] never fails
    for a character of the table. *)
Theorem anki_loaded_table_ok (lines : list str) :
  let t := FillAnki.load_cangjie_table str_lower lines in
  table_ok t /\
  (forall ch code, In code (table_get t ch) -> code <> []) /\
  (forall ch, In ch (dict_keys t) ->
              exists c codes, dict_get ch t = Some (c :: codes)).
Proof.
  cbn zeta. unfold FillAnki.load_cangjie_table.
  destruct (@anki_load_loop_ok lines false []) as [Hok Hne].
  - split; constructor.
  - intros ch code [].
  - split; [exact Hok|]. split; [exact Hne|].
    intros ch Hin. destruct (@table_ok_key _ ch Hok Hin) as [_ Hg].
    unfold table_get in Hg.
    destruct (dict_get ch _) as [[|c codes]|]; try congruence. eauto.
Qed.

End AnkiLoader.

Lemma anki_load_needs_header_witness :
  FillAnki.load_cangjie_table ascii_lower (splitlines sample_cj3) = [].
Proof.
  apply (@anki_load_needs_header ascii_lower (splitlines sample_cj3)).
  vm_compute. repeat constructor; discriminate.
Defined.


(* ------------------------------------------------------------------ *)
(** ** The field it builds *)

Lemma cangjie_fold_skip (t : table) (output : str) (text : str) :
  forall out,
    fold_left (FillAnki.cangjie_step t output)
              (FillAnki.han_findall (filter (annotated t) text)) out
    = fold_left (FillAnki.cangjie_step t output)
                (FillAnki.han_findall text) out.
Proof.
  unfold FillAnki.han_findall.
  induction text as [|c text IH]; intros out; [reflexivity|].
  cbn [filter]. unfold annotated at 1.
  destruct (FillAnki.is_han c) eqn:H; cbn [andb]; [|apply IH].
  destruct (has_codes (table_get t [c])) eqn:G.
  - cbn [filter]. rewrite H. cbn [map fold_left]. apply IH.
  - cbn [map fold_left]. rewrite IH.
    unfold FillAnki.cangjie_step at 3. unfold table_get, has_codes in G.
    destruct (dict_get [c] t) as [[|? ?]|]; try reflexivity.
    discriminate.
Qed.

(** Characters that are not Han characters, and Han characters without
    codes in the table, leave nothing in the field, not even the
    separator. *)
Theorem cangjie_for_text_annotated_only (text : str) (t : table)
    (output : str) :
  FillAnki.cangjie_for_text (filter (annotated t) text) t output
  = FillAnki.cangjie_for_text text t output.
Proof.
  unfold FillAnki.cangjie_for_text. rewrite cangjie_fold_skip. reflexivity.
Qed.

(* ------------------------------------------------------------------ *)
(** ** The rows it writes *)

Lemma list_update_length (k : nat) (v : str) (l : list str) :
  length (list_update k v l) = length l.
Proof.
  revert k; induction l as [|x l IH]; intros [|k]; simpl; auto.
Qed.

Lemma list_update_nth (k j : nat) (v : str) (l : list str) :
  (k < length l)%nat ->
  nth j (list_update k v l) [] = if (j =? k)%nat then v else nth j l [].
Proof.
  revert k j; induction l as [|x l IH]; intros k j H; simpl in H; [lia|].
  destruct k as [|k]; destruct j as [|j]; simpl; auto.
  apply IH. lia.
Qed.

Lemma py_pos_inside (i : Z) (n : nat) :
  0 <= i < Z.of_nat n -> FillAnki.py_pos i n = Some (Z.to_nat i).
Proof.
  intros H. unfold FillAnki.py_pos.
  destruct (Z.leb_spec 0 i); [|lia].
  destruct (Z.ltb_spec i (Z.of_nat n)); [|lia]. reflexivity.
Qed.

Lemma fold_max_ge (l : list Z) (a : Z) :
  a <= fold_left Z.max l a /\ Forall (fun i => i <= fold_left Z.max l a) l.
Proof.
  revert a; induction l as [|x l IH]; intros a; simpl.
  - split; [lia | constructor].
  - destruct (IH (Z.max a x)) as [H1 H2]. split; [lia|].
    constructor; [lia | exact H2].
Qed.

Lemma pad_length (e : FillAnki.env) (fields : list str) :
  length (FillAnki.pad e fields)
  = Nat.max (length fields) (Z.to_nat (FillAnki.max_needed e + 1)).
Proof.
  unfold FillAnki.pad.
  destruct (Z.leb_spec (Z.of_nat (length fields)) (FillAnki.max_needed e)).
  - rewrite length_app, repeat_length. lia.
  - lia.
Qed.

Lemma pad_nth (e : FillAnki.env) (fields : list str) (k : nat) :
  nth k (FillAnki.pad e fields) [] = nth k fields [].
Proof.
  unfold FillAnki.pad.
  destruct (Z.of_nat (length fields) <=? FillAnki.max_needed e);
    [|reflexivity].
  destruct (Nat.lt_ge_cases k (length fields)) as [H | H].
  - apply app_nth1. exact H.
  - rewrite app_nth2 by exact H. rewrite (nth_overflow fields) by exact H.
    generalize (Z.to_nat (FillAnki.max_needed e + 1
                          - Z.of_nat (length fields))) as n.
    generalize (k - length fields)%nat as j.
    intros j n; revert j; induction n as [|n IH]; intros [|j]; simpl; auto.
Qed.

Lemma fill_inside (c : option (Z * table)) (src_text output : str)
    (l : list str) :
  Forall (fun i => 0 <= i < Z.of_nat (length l)) (FillAnki.index_of c) ->
  exists out,
    FillAnki.fill c src_text output l = Some out /\
    length out = length l /\
    forall k, nth k out [] = filled c src_text output k (nth k l []).
Proof.
  destruct c as [[i t]|]; cbn [FillAnki.index_of FillAnki.fill filled];
    intros H.
  - inversion H as [|? ? Hi _]; subst. unfold FillAnki.setitem.
    rewrite py_pos_inside by exact Hi. eexists. split; [reflexivity|].
    split; [apply list_update_length|].
    intros k. rewrite list_update_nth by lia.
    destruct (Nat.eqb_spec k (Z.to_nat i)); destruct (Z.eqb_spec (Z.of_nat k) i);
      try reflexivity; lia.
  - exists l. auto.
Qed.

(** With columns counted from 1, a row is never refused: it is padded
    with empty fields up to the last column that is named, the two fields
    are filled from the text of the source column as it was before either
    assignment, the second assignment winning where the two columns are
    the same, and every other field is as it was. *)
Theorem process_fields_fills (e : FillAnki.env) (fields : list str) :
  0 <= FillAnki.source_i e ->
  Forall (fun i => 0 <= i)
         (FillAnki.index_of (FillAnki.cj3 e)
          ++ FillAnki.index_of (FillAnki.cj5 e)) ->
  let src_text := nth (Z.to_nat (FillAnki.source_i e)) fields [] in
  exists out,
    FillAnki.process_fields e fields = Some out /\
    length out
    = Nat.max (length fields) (Z.to_nat (FillAnki.max_needed e + 1)) /\
    forall k,
      nth k out []
      = filled (FillAnki.cj5 e) src_text (FillAnki.output e) k
          (filled (FillAnki.cj3 e) src_text (FillAnki.output e) k
             (nth k fields [])).
Proof.
  intros Hs Hi. cbn zeta. unfold FillAnki.process_fields.
  pose proof (pad_length e fields) as L.
  destruct (fold_max_ge (FillAnki.index_of (FillAnki.cj3 e)
                         ++ FillAnki.index_of (FillAnki.cj5 e))
                        (FillAnki.source_i e)) as [M1 M2].
  fold (FillAnki.max_needed e) in M1, M2.
  assert (B : Forall (fun i => 0 <= i
                               < Z.of_nat (length (FillAnki.pad e fields)))
                     (FillAnki.index_of (FillAnki.cj3 e)
                      ++ FillAnki.index_of (FillAnki.cj5 e))).
  { apply Forall_forall. intros i Hin.
    pose proof (proj1 (Forall_forall _ _) Hi i Hin).
    pose proof (proj1 (Forall_forall _ _) M2 i Hin). cbn beta in *. lia. }
  apply Forall_app in B as [B3 B5].
  unfold FillAnki.getitem. rewrite py_pos_inside by lia. cbv beta iota.
  assert (S : (Z.to_nat (FillAnki.source_i e)
               < length (FillAnki.pad e fields))%nat) by lia.
  rewrite (nth_error_nth' (FillAnki.pad e fields) (@nil Z) S). rewrite pad_nth.
  destruct (@fill_inside (FillAnki.cj3 e)
              (nth (Z.to_nat (FillAnki.source_i e)) fields [])
              (FillAnki.output e) _ B3) as (o3 & -> & L3 & N3).
  rewrite <- L3 in B5.
  destruct (@fill_inside (FillAnki.cj5 e)
              (nth (Z.to_nat (FillAnki.source_i e)) fields [])
              (FillAnki.output e) _ B5) as (o5 & -> & L5 & N5).
  exists o5. split; [reflexivity|]. split; [congruence|].
  intros k. rewrite N5, N3, pad_nth. reflexivity.
Qed.

Lemma process_fields_fills_witness :
  exists out,
    FillAnki.process_fields
      (FillAnki.mkEnv 1 (Some (1, sample_anki_table))
                      (Some (4, sample_anki_table)) (lit "codes"))
      sample_row_fields = Some out /\
    out = [ lit "sun"; lit "a b"; lit "old"; []; lit "a b" ].
Proof.
  destruct (@process_fields_fills
              (FillAnki.mkEnv 1 (Some (1, sample_anki_table))
                              (Some (4, sample_anki_table)) (lit "codes"))
              sample_row_fields)
    as (out & E & _).
  - cbn. lia.
  - cbn. repeat constructor; lia.
  - exists out. split; [exact E|].
    vm_compute in E. injection E as <-. reflexivity.
Defined.



Section AnkiMain.
Variable str_lower : str -> str.


End AnkiMain.


(** The export of the example, filled from the table of the example. *)
Example scenario_anki_export :
  FillAnki.main ascii_lower 2 (Some 3) None (lit "prompts")
                sample_scim [] sample_export
  = ([ lit "#separator:tab" ++ [0x0A];
       lit "sun" ++ [0x09; 0x65E5; 0x09; 0x65E5; 0x0A];
       [0x0A] ], true).
Proof. vm_compute. reflexivity. Qed.

(* ------------------------------------------------------------------ *)
(** ** Columns below 1 *)

Lemma list_update_last (l : list str) (x v : str) :
  list_update (length l) v (l ++ [x]) = l ++ [v].
Proof. induction l as [|y l IH]; simpl; [reflexivity | rewrite IH; auto]. Qed.

(** Column 0 is not refused: its index is -1, so the field that is filled
    is the last field of each row. *)
Theorem column_zero_is_last_field (t : table) (output : str) (source_i : Z)
    (fields : list str) (last : str) :
  0 <= source_i < Z.of_nat (length (fields ++ [last])) ->
  FillAnki.process_fields
    (FillAnki.mkEnv source_i (Some (0 - 1, t)) None output)
    (fields ++ [last])
  = Some (fields
            ++ [FillAnki.cangjie_for_text
                  (nth (Z.to_nat source_i) (fields ++ [last]) [])
                  t output]).
Proof.
  intros H. unfold FillAnki.process_fields, FillAnki.pad,
    FillAnki.max_needed.
  cbn [FillAnki.cj3 FillAnki.cj5 FillAnki.source_i FillAnki.output
       FillAnki.index_of app fold_left].
  destruct (Z.leb_spec (Z.of_nat (length (fields ++ [last])))
                       (Z.max source_i (0 - 1))); [lia|].
  unfold FillAnki.getitem. rewrite py_pos_inside by exact H.
  assert (S : (Z.to_nat source_i < length (fields ++ [last]))%nat) by lia.
  rewrite (nth_error_nth' (fields ++ [last]) (@nil Z) S).
  cbn [FillAnki.fill]. unfold FillAnki.setitem, FillAnki.py_pos.
  rewrite length_app in *. cbn [length] in *.
  destruct (Z.leb_spec 0 (0 - 1)); [lia|]. cbn [andb].
  destruct (Z.ltb_spec (0 - 1) 0); [|lia].
  destruct (Z.leb_spec 0 (Z.of_nat (length fields + 1) + (0 - 1))); [|lia].
  cbn [andb].
  replace (Z.to_nat (Z.of_nat (length fields + 1) + (0 - 1)))
    with (length fields) by lia.
  rewrite list_update_last. reflexivity.
Qed.

Lemma column_zero_is_last_field_witness :
  FillAnki.process_fields
    (FillAnki.mkEnv 1 (Some (0 - 1, sample_anki_table)) None (lit "codes"))
    sample_row_fields
  = Some [ lit "sun"; [0x65E5; 0x21; 0x6708]; lit "a b" ].
Proof.
  apply (@column_zero_is_last_field sample_anki_table (lit "codes") 1
           [ lit "sun"; [0x65E5; 0x21; 0x6708] ] (lit "old")).
  cbn. lia.
Defined.
